(** * Product card generator: attribute extraction, reconciliation and card layout

    A shallow embedding of the decision logic of the bot:
    - [bot/utils/helpers.py]        ([Helpers])
    - [bot/ai/text_analyzer.py]     ([TextAnalyzer])
    - [bot/ai/vision_analyzer.py]   ([VisionAnalyzer])
    - [bot/handlers/description.py] ([Description])
    - [bot/handlers/photo.py]       ([Photo])
    - [bot/generator/templates] and [bot/generator/builder.py] ([Templates])

    Conventions.
    - A Python [str] is a list of Unicode code points ([PyStr]), so that
      [len], slices and indices count characters as Python does.
    - A Python value of unknown type (what [json.loads] returns, what a field
      of [ProductInfo] holds) is a [pyval] ([Py]); [None] is [PNone].
    - A regular expression of the source is a term of [re], run by a
      backtracking matcher ([Re]); a pattern compiled with [re.IGNORECASE] is
      written with the case-insensitive literals [LitI].
    - A function that may raise returns [res] ([Exn]); [try]/[except] is
      [catch] or a [match] on the result.
    - The remote calls, the font files, the network and the imaging library
      are parameters: [ai_outcome] and [world].  So are the calls that a
      handler awaits on Telegram and on its state ([calls]), and what the
      interpreter lets [json.loads] decode ([Json.limits]).
    - The digit, letter and case tables are those of ASCII and of the
      Cyrillic rows; a statement that depends on them is made for texts
      written with these characters ([modelled]).
    - Recursion that is not structural takes fuel; the fuel given is proved
      to be enough ([loads_fuel_enough], [finditer_fuel], [sub_fuel]). *)

From Stdlib Require Import NArith ZArith List Bool Lia Ascii String.
From stdpp Require Import base option list strings gmap.

Local Open Scope N_scope.

(** ** Python strings *)

Module PyStr.

Abbreviation char := N (only parsing).
Abbreviation pystr := (list N) (only parsing).

(** UTF-8 decoding of the bytes of a Rocq string literal, so that Python
    literals can be written as they appear in the source: [u "руб"]. *)
Fixpoint bytes_of (s : string) : list N :=
  match s with
  | EmptyString => []
  | String a s' => N_of_ascii a :: bytes_of s'
  end.

Fixpoint utf8_decode (bs : list N) : pystr :=
  match bs with
  | [] => []
  | b :: r1 =>
    if b <? 0x80 then b :: utf8_decode r1
    else match r1 with
    | [] => [b]
    | b1 :: r2 =>
      if b <? 0xE0 then ((b - 0xC0) * 64 + (b1 - 0x80)) :: utf8_decode r2
      else match r2 with
      | [] => [b]
      | b2 :: r3 =>
        if b <? 0xF0 then
          ((b - 0xE0) * 4096 + (b1 - 0x80) * 64 + (b2 - 0x80)) :: utf8_decode r3
        else match r3 with
        | [] => [b]
        | b3 :: r4 =>
          ((b - 0xF0) * 262144 + (b1 - 0x80) * 4096 + (b2 - 0x80) * 64 + (b3 - 0x80))
            :: utf8_decode r4
        end
      end
    end
  end.

Definition u (s : string) : pystr := utf8_decode (bytes_of s).

(** A literal in which the apostrophe stands for the double quote (used for
    JSON texts). *)
Definition uq (s : string) : pystr :=
  map (fun c => if c =? 39 then 34 else c) (u s).

Arguments u : simpl never.
Arguments uq : simpl never.

Definition len (s : pystr) : nat := length s.

Fixpoint str_eqb (a b : pystr) : bool :=
  match a, b with
  | [], [] => true
  | x :: a', y :: b' => (x =? y) && str_eqb a' b'
  | _, _ => false
  end.

(** *** Character classes

    [is_space] is [str.isspace] (and the [\s] of a [str] pattern): the whole
    Unicode white-space set.  [is_digit] and [is_word] cover the ASCII digits
    and the Latin and Cyrillic letters; decimal digits and letters of other
    scripts are outside this model. *)
Definition in_range (lo hi c : N) : bool := (lo <=? c) && (c <=? hi).

Definition is_space (c : N) : bool :=
  in_range 0x09 0x0D c || in_range 0x1C 0x20 c || (c =? 0x85) || (c =? 0xA0)
  || (c =? 0x1680) || in_range 0x2000 0x200A c || (c =? 0x2028) || (c =? 0x2029)
  || (c =? 0x202F) || (c =? 0x205F) || (c =? 0x3000).

Definition is_digit (c : N) : bool := in_range 48 57 c.

Definition is_upper_ascii (c : N) : bool := in_range 65 90 c.
Definition is_lower_ascii (c : N) : bool := in_range 97 122 c.

Definition is_word (c : N) : bool :=
  is_digit c || is_upper_ascii c || is_lower_ascii c || (c =? 95)
  || in_range 0x400 0x481 c || in_range 0x48A 0x52F c.

(** [str.lower] and [str.upper] on one character: Basic Latin and the
    Cyrillic rows U+0400..U+045F; other characters are left as they are. *)
Definition lower_c (c : N) : N :=
  if is_upper_ascii c then c + 32
  else if in_range 0x410 0x42F c then c + 32
  else if in_range 0x400 0x40F c then c + 80
  else c.

Definition upper_c (c : N) : N :=
  if is_lower_ascii c then c - 32
  else if in_range 0x430 0x44F c then c - 32
  else if in_range 0x450 0x45F c then c - 80
  else c.

Definition lower (s : pystr) : pystr := map lower_c s.
Definition upper (s : pystr) : pystr := map upper_c s.

(** [str.capitalize]: first character upper-cased, the rest lower-cased. *)
Definition capitalize (s : pystr) : pystr :=
  match s with
  | [] => []
  | c :: r => upper_c c :: lower r
  end.

(** *** [strip], [split], [join], [replace], [find], [in] *)

Fixpoint lstrip_by (p : N -> bool) (s : pystr) : pystr :=
  match s with
  | c :: r => if p c then lstrip_by p r else s
  | [] => []
  end.

Definition rstrip_by (p : N -> bool) (s : pystr) : pystr :=
  rev (lstrip_by p (rev s)).

Definition strip_by (p : N -> bool) (s : pystr) : pystr :=
  rstrip_by p (lstrip_by p s).

(** [s.strip()] *)
Definition strip (s : pystr) : pystr := strip_by is_space s.

(** [s.strip(',')] *)
Definition strip_chr (c : N) (s : pystr) : pystr := strip_by (N.eqb c) s.

(** [s.split(c)] for a one-character separator: never an empty list. *)
Fixpoint split_chr (c : N) (s : pystr) : list pystr :=
  match s with
  | [] => [[]]
  | x :: r =>
    if x =? c then [] :: split_chr c r
    else match split_chr c r with
         | w :: ws => (x :: w) :: ws
         | [] => [[x]]
         end
  end.

(** [s.split()]: maximal runs of non-space characters.  [cur] is the word
    being read, in reverse. *)
Fixpoint split_ws_aux (cur : pystr) (s : pystr) : list pystr :=
  match s with
  | [] => match cur with [] => [] | _ => [rev cur] end
  | c :: r =>
    if is_space c
    then match cur with [] => split_ws_aux [] r | _ => rev cur :: split_ws_aux [] r end
    else split_ws_aux (c :: cur) r
  end.

Definition split_ws (s : pystr) : list pystr := split_ws_aux [] s.

(** [sep.join(parts)] *)
Fixpoint join (sep : pystr) (parts : list pystr) : pystr :=
  match parts with
  | [] => []
  | [p] => p
  | p :: ps => p ++ sep ++ join sep ps
  end.

(** [s.replace(a, b)] for a one-character [a]. *)
Definition replace_chr (a : N) (b : pystr) (s : pystr) : pystr :=
  flat_map (fun c => if c =? a then b else [c]) s.

Fixpoint starts_with (p s : pystr) : bool :=
  match p, s with
  | [], _ => true
  | x :: p', y :: s' => (x =? y) && starts_with p' s'
  | _ :: _, [] => false
  end.

Definition ends_with (p s : pystr) : bool := starts_with (rev p) (rev s).

(** [sub in s] *)
Fixpoint contains (sub s : pystr) : bool :=
  starts_with sub s ||
  match s with
  | [] => false
  | _ :: r => contains sub r
  end.

(** [s.find(c)] for one character; [None] is Python's [-1]. *)
Fixpoint find_chr (c : N) (s : pystr) : option nat :=
  match s with
  | [] => None
  | x :: r => if x =? c then Some 0%nat else S <$> find_chr c r
  end.

(** [s.rfind(c)] *)
Fixpoint rfind_chr (c : N) (s : pystr) : option nat :=
  match s with
  | [] => None
  | x :: r =>
    match rfind_chr c r with
    | Some i => Some (S i)
    | None => if x =? c then Some 0%nat else None
    end
  end.

(** [s[a:b]] for [0 <= a], [0 <= b]. *)
Definition slice (a b : nat) (s : pystr) : pystr := take (b - a) (drop a s).

(** Truthiness of a string. *)
Definition truthy (s : pystr) : bool := negb (str_eqb s []).

End PyStr.
Import PyStr.

(** ** Regular expressions

    The patterns of the source are written as terms of [re] and run by a
    backtracking matcher that follows Python's [re] module: alternatives in
    order, greedy repetition giving back one character at a time, lazy
    repetition growing one character at a time.  Repetition is over a
    character class, which is all the source's patterns use.  A pattern of
    the source has at most one capture group. *)

Module Re.

Inductive re : Type :=
| Eps                         (* empty pattern *)
| Cls (p : N -> bool)         (* one character of a class *)
| Cat (a b : re)              (* a b *)
| Or (a b : re)               (* a|b *)
| Star (p : N -> bool)        (* [p]*  greedy *)
| LazyStar (p : N -> bool)    (* [p]*? *)
| Grp (a : re)                (* ( a ) *)
| Bol                         (* ^ *)
| Eol                         (* $ *)
| Wb.                         (* \b *)

(** Derived forms. *)
Definition Opt (a : re) : re := Or a Eps.                  (* a? *)
Definition Plus (p : N -> bool) : re := Cat (Cls p) (Star p).  (* [p]+ *)
Definition Chr (c : N) : re := Cls (N.eqb c).
Fixpoint Lit (s : pystr) : re :=
  match s with
  | [] => Eps
  | [c] => Chr c
  | c :: r => Cat (Chr c) (Lit r)
  end.

(** The same under [re.IGNORECASE]: a character matches when its lower-case
    form does. *)
Definition ChrI (c : N) : re := Cls (fun x => lower_c x =? lower_c c).
Fixpoint LitI (s : pystr) : re :=
  match s with
  | [] => Eps
  | [c] => ChrI c
  | c :: r => Cat (ChrI c) (LitI r)
  end.
Definition one_of (s : pystr) (c : N) : bool := existsb (N.eqb c) s.
Definition one_ofI (s : pystr) (c : N) : bool :=
  one_of s c || one_of s (lower_c c) || one_of s (upper_c c).

(** Matcher state: the character before the current position, the rest of
    the subject, and the text of group 1 (empty while the group has not been
    closed). *)
Record mstate : Type := MState {
  ms_prev : option N;
  ms_rest : pystr;
  ms_grp : pystr
}.

Definition is_word_opt (o : option N) : bool :=
  match o with Some c => is_word c | None => false end.

Fixpoint star_greedy {A} (p : N -> bool) (prev : option N) (s g : pystr)
    (k : mstate -> option A) : option A :=
  match s with
  | c :: r =>
    if p c then
      match star_greedy p (Some c) r g k with
      | Some a => Some a
      | None => k (MState prev s g)
      end
    else k (MState prev s g)
  | [] => k (MState prev s g)
  end.

Fixpoint star_lazy {A} (p : N -> bool) (prev : option N) (s g : pystr)
    (k : mstate -> option A) : option A :=
  match k (MState prev s g) with
  | Some a => Some a
  | None =>
    match s with
    | c :: r => if p c then star_lazy p (Some c) r g k else None
    | [] => None
    end
  end.

(** [run a st k]: match [a] at [st], then continue with [k]; [None] makes the
    matcher backtrack into [a]. *)
Fixpoint run {A} (a : re) (st : mstate) (k : mstate -> option A) : option A :=
  match a with
  | Eps => k st
  | Cls p =>
    match ms_rest st with
    | c :: r => if p c then k (MState (Some c) r (ms_grp st)) else None
    | [] => None
    end
  | Cat a b => run a st (fun st' => run b st' k)
  | Or a b =>
    match run a st k with
    | Some x => Some x
    | None => run b st k
    end
  | Star p => star_greedy p (ms_prev st) (ms_rest st) (ms_grp st) k
  | LazyStar p => star_lazy p (ms_prev st) (ms_rest st) (ms_grp st) k
  | Grp a =>
    run a st (fun st' =>
      k (MState (ms_prev st') (ms_rest st')
           (take (length (ms_rest st) - length (ms_rest st')) (ms_rest st))))
  | Bol => match ms_prev st with None => k st | Some _ => None end
  | Eol =>
    match ms_rest st with
    | [] => k st
    | [10] => k st
    | _ => None
    end
  | Wb =>
    if xorb (is_word_opt (ms_prev st)) (is_word_opt (head (ms_rest st)))
    then k st else None
  end.

(** A match object: the text before the match, [group(0)], [group(1)], and
    the text after it. *)
Record rmatch : Type := RMatch {
  m_pre : pystr;
  m_text : pystr;
  m_grp : pystr;
  m_post : pystr
}.

Definition match_here (a : re) (prev : option N) (s : pystr) : option mstate :=
  run a (MState prev s []) Some.

(** Last character of [pre ++ t], given the character before [pre]. *)
Definition last_chr (prev : option N) (t : pystr) : option N :=
  match last t with Some c => Some c | None => prev end.

(** [re.search]: the leftmost position at which the pattern matches.  [pre]
    is the text already skipped, in reverse. *)
Fixpoint search_aux (a : re) (prev : option N) (pre s : pystr) : option rmatch :=
  match match_here a prev s with
  | Some st =>
    Some (RMatch (rev pre) (take (length s - length (ms_rest st)) s)
            (ms_grp st) (ms_rest st))
  | None =>
    match s with
    | c :: r => search_aux a (Some c) (c :: pre) r
    | [] => None
    end
  end.

Definition search_at (a : re) (prev : option N) (s : pystr) : option rmatch :=
  search_aux a prev [] s.

Definition search (a : re) (s : pystr) : option rmatch := search_at a None s.

(** All non-overlapping matches, left to right ([re.finditer]).  After an
    empty match the scan moves one character on.  [fuel] bounds the number of
    matches; [length s + 1] is always enough. *)
Fixpoint finditer_aux (fuel : nat) (a : re) (prev : option N) (s : pystr)
    : list rmatch :=
  match fuel with
  | O => []
  | S fuel' =>
    match search_at a prev s with
    | None => []
    | Some m =>
      match m_text m, m_post m with
      | [], [] => [m]
      | [], c :: r => m :: finditer_aux fuel' a (Some c) r
      | _ :: _, post =>
        m :: finditer_aux fuel' a (last_chr prev (m_pre m ++ m_text m)) post
      end
    end
  end.

Definition finditer (a : re) (s : pystr) : list rmatch :=
  finditer_aux (S (length s)) a None s.

(** [re.findall] for a pattern with one group, and for a pattern with none. *)
Definition findall_grp (a : re) (s : pystr) : list pystr := map m_grp (finditer a s).
Definition findall (a : re) (s : pystr) : list pystr := map m_text (finditer a s).

(** [re.sub(a, repl, s, count)]; [count = None] replaces every match. *)
Fixpoint sub_aux (fuel : nat) (a : re) (repl : pystr) (count : option nat)
    (prev : option N) (s : pystr) : pystr :=
  match fuel, count with
  | O, _ => s
  | _, Some O => s
  | S fuel', _ =>
    match search_at a prev s with
    | None => s
    | Some m =>
      let count' := pred <$> count in
      match m_text m, m_post m with
      | [], [] => m_pre m ++ repl
      | [], c :: r =>
        m_pre m ++ repl ++ c :: sub_aux fuel' a repl count' (Some c) r
      | _ :: _, post =>
        m_pre m ++ repl ++
          sub_aux fuel' a repl count' (last_chr prev (m_pre m ++ m_text m)) post
      end
    end
  end.

Definition sub (a : re) (repl : pystr) (count : option nat) (s : pystr) : pystr :=
  sub_aux (S (length s)) a repl count None s.

End Re.
Import Re.

(** ** Python values

    The values that [json.loads] returns and that the fields of a record
    hold.  [PNone] is [None].  A float is kept as the lexeme of the JSON text
    it was read from. *)

Module Py.

Set Warnings "-register-all".

Inductive pyval : Type :=
| PNone
| PBool (b : bool)
| PInt (z : Z)
| PFloat (lexeme : pystr)
| PStr (s : pystr)
| PList (l : list pyval)
| PDict (d : list (pystr * pyval)).

(** [bool(v)].  A float lexeme is zero when it has no non-zero digit before
    its exponent (underflow to zero is not modelled); [NaN] and the
    infinities are true. *)
Definition float_lexeme_truthy (lx : pystr) : bool :=
  let mantissa := take (length lx - length (lstrip_by (fun c => negb (one_of [101; 69] c)) lx)) lx in
  existsb (fun c => in_range 49 57 c || one_of [78; 73] c) mantissa.

Definition truthy (v : pyval) : bool :=
  match v with
  | PNone => false
  | PBool b => b
  | PInt z => negb (z =? 0)%Z
  | PFloat lx => float_lexeme_truthy lx
  | PStr s => PyStr.truthy s
  | PList l => match l with [] => false | _ => true end
  | PDict d => match d with [] => false | _ => true end
  end.

(** [a or b] *)
Definition por (a b : pyval) : pyval := if truthy a then a else b.

(** [d.get(k)] and [d.get(k, default)] on a dict value. *)
Fixpoint assoc (k : pystr) (d : list (pystr * pyval)) : option pyval :=
  match d with
  | [] => None
  | (k', v) :: r => if str_eqb k k' then Some v else assoc k r
  end.

(** [d[k] = v]: a present key keeps its place. *)
Fixpoint dict_set (k : pystr) (v : pyval) (d : list (pystr * pyval))
    : list (pystr * pyval) :=
  match d with
  | [] => [(k, v)]
  | (k', v') :: r => if str_eqb k k' then (k', v) :: r else (k', v') :: dict_set k v r
  end.

(** Decimal digits of a positive number, and [str(z)]. *)
Fixpoint digits_pos (fuel : nat) (n : N) (acc : pystr) : pystr :=
  match fuel with
  | O => acc
  | S f =>
    if n <? 10 then (48 + n) :: acc
    else digits_pos f (n / 10) ((48 + n mod 10) :: acc)
  end.

Definition str_of_N (n : N) : pystr := digits_pos (S (N.to_nat (N.log2 n))) n [].

Definition str_of_Z (z : Z) : pystr :=
  match z with
  | Z0 => [48]
  | Zpos p => str_of_N (Npos p)
  | Zneg p => 45 :: str_of_N (Npos p)
  end.

(** [str(v)].  Exact for [None], booleans, integers and strings.  A float is
    printed as its lexeme, and a list or dict in the shape of Python's [repr]
    with strings in single quotes and no escapes: close to, but not always,
    what Python prints for them. *)
Fixpoint py_repr (v : pyval) : pystr :=
  match v with
  | PNone => u "None"
  | PBool true => u "True"
  | PBool false => u "False"
  | PInt z => str_of_Z z
  | PFloat lx => lx
  | PStr s => [39] ++ s ++ [39]
  | PList l => [91] ++ join (u ", ") (map py_repr l) ++ [93]
  | PDict d =>
    [123] ++ join (u ", ")
      (map (fun kv => [39] ++ fst kv ++ [39] ++ u ": " ++ py_repr (snd kv)) d) ++ [125]
  end.

Definition py_str (v : pyval) : pystr :=
  match v with
  | PStr s => s
  | _ => py_repr v
  end.

Definition is_none (v : pyval) : bool :=
  match v with PNone => true | _ => false end.

(** [v == s] for a string literal [s]. *)
Definition eq_str (v : pyval) (s : pystr) : bool :=
  match v with PStr t => str_eqb t s | _ => false end.

End Py.
Import Py.

(** ** Exceptions

    A computation that may raise returns [res A]; [try ... except Exception]
    is [catch]. *)

Module Exn.

Inductive exn : Type :=
| TypeError
| AttributeError
| ValueError
| RecursionError
| JSONDecodeError     (* json.JSONDecodeError, a subclass of ValueError *)
| RequestError        (* the remote call failed *)
| ImageError.         (* raised inside the imaging library *)

Inductive res (A : Type) : Type :=
| Ok (a : A)
| Raise (e : exn).
Arguments Ok {A}.
Arguments Raise {A}.

#[export] Instance res_ret : MRet res := fun A a => Ok a.
#[export] Instance res_bind : MBind res := fun A B f m =>
  match m with
  | Ok a => f a
  | Raise e => Raise e
  end.

Definition catch {A} (m : res A) (handler : exn -> res A) : res A :=
  match m with
  | Ok a => Ok a
  | Raise e => handler e
  end.

End Exn.
Import Exn.

(** ** [json.loads]

    A recursive-descent reading of JSON text that follows the decoder of
    Python's [json] module: white space is space, tab, line feed and carriage
    return; strings are strict (no raw control character); a number without
    fraction and exponent is an [int]; [NaN], [Infinity] and [-Infinity] are
    accepted; a repeated key keeps its last value.

    Besides [json.JSONDecodeError] the decoder raises [RecursionError] when
    arrays and objects are nested deeper than the interpreter allows, and
    [ValueError] when an integer has more digits than [int] converts.  Both
    bounds, and whatever else makes the call raise, belong to the
    interpreter the program runs on ([limits]). *)

Module Json.

(** [max_depth]: how many arrays and objects inside one another the decoder
    can enter (the recursion limit less the calls already on the stack).
    [max_str_digits]: [sys.get_int_max_str_digits()], 0 for no limit; the
    conversion checks it for numbers of more than 640 digits.
    [refused]: the texts on which the call raises for another reason, with
    the exception raised: a decoding error met so near the recursion limit
    that the error object cannot be built, which is a [RecursionError], or a
    text for which there is no memory. *)
Record limits : Type := mkLimits {
  max_depth : nat;
  max_str_digits : nat;
  refused : pystr -> option exn
}.

Definition int_too_long (L : limits) (digits : pystr) : bool :=
  (640 <? length digits)%nat && (0 <? max_str_digits L)%nat
  && (max_str_digits L <? length digits)%nat.

Inductive pres (A : Type) : Type :=
| POk (a : A) (rest : pystr)
| PErr                (* json.JSONDecodeError *)
| PRaise (e : exn)    (* another exception *)
| PFuel.              (* the fuel of the model ran out *)
Arguments POk {A}.
Arguments PErr {A}.
Arguments PRaise {A}.
Arguments PFuel {A}.

Definition is_json_ws (c : N) : bool := one_of [32; 9; 10; 13] c.
Definition skip_ws (s : pystr) : pystr := lstrip_by is_json_ws s.

Definition hex_val (c : N) : option N :=
  if is_digit c then Some (c - 48)
  else if in_range 97 102 c then Some (c - 87)
  else if in_range 65 70 c then Some (c - 55)
  else None.

(** The four hexadecimal digits after a backslash-u. *)
Definition hex4 (a b c d : N) : option N :=
  match hex_val a, hex_val b, hex_val c, hex_val d with
  | Some x, Some y, Some z, Some w => Some (x * 4096 + y * 256 + z * 16 + w)
  | _, _, _, _ => None
  end.

(** [scanstring]: the text after the opening quote, up to the closing one.
    [acc] is the decoded string so far, in reverse.  A high surrogate
    followed by the escape of a low one is joined with it. *)
Fixpoint scanstring (acc : pystr) (s : pystr) : option (pystr * pystr) :=
  match s with
  | [] => None
  | c :: r =>
    if c =? 34 then Some (rev acc, r)
    else if c <? 32 then None
    else if c =? 92 then
      match r with
      | [] => None
      | e :: r' =>
        if e =? 117 then
          match r' with
          | a :: b :: c :: d :: r2 =>
            match hex4 a b c d with
            | Some hi =>
              match r2 with
              | x1 :: x2 :: r3 =>
                if (x1 =? 92) && (x2 =? 117) && in_range 0xD800 0xDBFF hi then
                  match r3 with
                  | a' :: b' :: c' :: d' :: r4 =>
                    match hex4 a' b' c' d' with
                    | Some lo =>
                      if in_range 0xDC00 0xDFFF lo
                      then scanstring
                             ((0x10000 + (hi - 0xD800) * 1024 + (lo - 0xDC00)) :: acc) r4
                      else scanstring (hi :: acc) r2
                    | None => None
                    end
                  | _ => None
                  end
                else scanstring (hi :: acc) r2
              | _ => scanstring (hi :: acc) r2
              end
            | None => None
            end
          | _ => None
          end
        else
          let esc (x : N) := scanstring (x :: acc) r' in
          if e =? 34 then esc 34
          else if e =? 92 then esc 92
          else if e =? 47 then esc 47
          else if e =? 98 then esc 8
          else if e =? 102 then esc 12
          else if e =? 110 then esc 10
          else if e =? 114 then esc 13
          else if e =? 116 then esc 9
          else None
      end
    else scanstring (c :: acc) r
  end.

(** Value of a run of decimal digits. *)
Definition digits_val (ds : pystr) : Z :=
  fold_left (fun a c => (a * 10 + Z.of_N (c - 48))%Z) ds 0%Z.

Definition span_digits (s : pystr) : pystr * pystr :=
  (take (length s - length (lstrip_by is_digit s)) s, lstrip_by is_digit s).

(** An optional leading character of the class [p]. *)
Definition opt_chr (p : N -> bool) (s : pystr) : pystr * pystr :=
  match s with
  | c :: r => if p c then ([c], r) else ([], s)
  | [] => ([], s)
  end.

(** The fraction: a dot and one or more digits, or nothing. *)
Definition span_fraction (s : pystr) : pystr * pystr :=
  match opt_chr (N.eqb 46) s with
  | ([], _) => ([], s)
  | (dot, r) =>
    match span_digits r with
    | ([], _) => ([], s)
    | (ds, r') => (dot ++ ds, r')
    end
  end.

(** The exponent: [e] or [E], an optional sign, one or more digits; or
    nothing. *)
Definition span_exponent (s : pystr) : pystr * pystr :=
  match opt_chr (one_of [101; 69]) s with
  | ([], _) => ([], s)
  | (e, r) =>
    let '(sg, r') := opt_chr (one_of [45; 43]) r in
    match span_digits r' with
    | ([], _) => ([], s)
    | (ds, r'') => (e ++ sg ++ ds, r'')
    end
  end.

(** The number at the head of [s]: an optional minus, then 0 or a run of
    digits that does not start with 0; then the optional fraction and the
    optional exponent.  Without fraction and exponent it is an [int], which
    [int] refuses to convert when it has too many digits.  [PErr]: there is
    no number at the head of [s]. *)
Definition scan_number (L : limits) (s : pystr) : pres pyval :=
  let '(sign, s1) := opt_chr (N.eqb 45) s in
  match s1 with
  | d :: r =>
    if is_digit d then
      let '(ip, s2) := if d =? 48 then ([d], r) else span_digits s1 in
      let '(fp, s3) := span_fraction s2 in
      let '(ep, s4) := span_exponent s3 in
      match fp, ep with
      | [], [] =>
        if int_too_long L ip then PRaise ValueError
        else POk (PInt (match sign with [] => digits_val ip | _ => - digits_val ip end)%Z) s4
      | _, _ => POk (PFloat (sign ++ ip ++ fp ++ ep)) s4
      end
    else PErr
  | [] => PErr
  end.

Definition expect (lit : pystr) (v : pyval) (s : pystr) : pres pyval :=
  if starts_with lit s then POk v (drop (length lit) s) else PErr.

(** [JSONObject] after the opening quote of a key: [scan] reads a value, [n]
    bounds the number of members, [d] is the dict so far. *)
Fixpoint scan_members (scan : pystr -> pres pyval) (n : nat) (d : list (pystr * pyval))
    (s : pystr) : pres pyval :=
  match n with
  | O => PFuel
  | S n' =>
    match scanstring [] s with
    | None => PErr
    | Some (key, s1) =>
      match skip_ws s1 with
      | [] => PErr
      | colon :: s2 =>
        if colon =? 58 then
          match scan (skip_ws s2) with
          | POk v s3 =>
            let d' := dict_set key v d in
            match skip_ws s3 with
            | [] => PErr
            | c :: s4 =>
              if c =? 125 then POk (PDict d') s4
              else if c =? 44 then
                match skip_ws s4 with
                | [] => PErr
                | q :: s5 => if q =? 34 then scan_members scan n' d' s5 else PErr
                end
              else PErr
            end
          | PErr => PErr
          | PRaise e => PRaise e
          | PFuel => PFuel
          end
        else PErr
      end
    end
  end.

(** [JSONArray] at an item: [acc] is the list so far, in reverse. *)
Fixpoint scan_items (scan : pystr -> pres pyval) (n : nat) (acc : list pyval)
    (s : pystr) : pres pyval :=
  match n with
  | O => PFuel
  | S n' =>
    match scan s with
    | POk v s1 =>
      match skip_ws s1 with
      | [] => PErr
      | c :: s2 =>
        if c =? 93 then POk (PList (rev (v :: acc))) s2
        else if c =? 44 then scan_items scan n' (v :: acc) (skip_ws s2)
        else PErr
      end
    | PErr => PErr
    | PRaise e => PRaise e
    | PFuel => PFuel
    end
  end.

(** [scan_once]: one value at the head of [s].  [depth] is the number of
    arrays and objects that can still be entered: the decoder raises
    [RecursionError] at the bracket of one too many, before it reads what the
    bracket opens. *)
Fixpoint scan_once (L : limits) (depth : nat) (s : pystr) : pres pyval :=
  match s with
  | [] => PErr
  | c :: r =>
    if c =? 34 then
      match scanstring [] r with
      | Some (str, r') => POk (PStr str) r'
      | None => PErr
      end
    else if c =? 123 then
      match depth with
      | O => PRaise RecursionError
      | S depth' =>
        match skip_ws r with
        | [] => PErr
        | c1 :: r' =>
          if c1 =? 125 then POk (PDict []) r'
          else if c1 =? 34 then scan_members (scan_once L depth') (length r) [] r'
          else PErr
        end
      end
    else if c =? 91 then
      match depth with
      | O => PRaise RecursionError
      | S depth' =>
        match skip_ws r with
        | [] => PErr
        | c1 :: r' =>
          if c1 =? 93 then POk (PList []) r'
          else scan_items (scan_once L depth') (S (length r)) [] (c1 :: r')
        end
      end
    else if c =? 110 then expect (u "null") PNone s
    else if c =? 116 then expect (u "true") (PBool true) s
    else if c =? 102 then expect (u "false") (PBool false) s
    else
      match scan_number L s with
      | PErr =>
        if c =? 78 then expect (u "NaN") (PFloat (u "NaN")) s
        else if c =? 73 then expect (u "Infinity") (PFloat (u "Infinity")) s
        else if c =? 45 then expect (u "-Infinity") (PFloat (u "-Infinity")) s
        else PErr
      | number => number
      end
  end.

(** [json.loads(s)].  A text that starts with a byte-order mark, or has
    anything but white space after the value, is an error. *)
Definition loads_res (L : limits) (s : pystr) : pres pyval :=
  if starts_with [0xFEFF] s then PErr
  else
    match scan_once L (max_depth L) (skip_ws s) with
    | POk v r => match skip_ws r with [] => POk v [] | _ => PErr end
    | other => other
    end.

Definition loads (L : limits) (s : pystr) : res pyval :=
  match refused L s with
  | Some e => Raise e
  | None =>
    match loads_res L s with
    | POk v _ => Ok v
    | PRaise e => Raise e
    | PErr | PFuel => Raise JSONDecodeError
    end
  end.

End Json.

(** ** bot/utils/helpers.py *)

Module Helpers.

(** The pattern of a fenced code block: three backquotes, an optional
    [json], white space, the block (group 1, as short as possible), three
    backquotes. *)
Definition any_char (c : N) : bool := true.

Definition code_block_pattern : re :=
  Cat (Lit (u "```"))
    (Cat (Opt (Lit (u "json")))
      (Cat (Star is_space)
        (Cat (Grp (LazyStar any_char)) (Lit (u "```"))))).

(** The [for match in matches] loop: the first block that parses; a block
    on which [json.loads] raises something else than [JSONDecodeError] ends
    the loop with that exception. *)
Fixpoint first_loadable (L : Json.limits) (matches : list pystr) : res (option pyval) :=
  match matches with
  | [] => Ok None
  | m :: r =>
    match Json.loads L (strip m) with
    | Ok v => Ok (Some v)
    | Raise JSONDecodeError => first_loadable L r
    | Raise e => Raise e
    end
  end.

(** [text[json_start:json_end]] when the guard of the third strategy holds. *)
Definition brace_slice (text : pystr) : option pystr :=
  match find_chr 123 text, rfind_chr 125 text with
  | Some json_start, Some last =>
    let json_end := S last in
    if (json_start <? json_end)%nat then Some (slice json_start json_end text) else None
  | _, _ => None
  end.

(** [extract_json_from_text]; the result [PNone] is Python's [None].  Each
    of the three [try] blocks catches [json.JSONDecodeError] only. *)
Definition extract_json_from_text (L : Json.limits) (text : pystr) : res pyval :=
  match Json.loads L text with
  | Ok v => Ok v
  | Raise JSONDecodeError =>
    found ← first_loadable L (findall_grp code_block_pattern text);
    match found with
    | Some v => Ok v
    | None =>
      match brace_slice text with
      | Some json_str =>
        match Json.loads L json_str with
        | Ok v => Ok v
        | Raise JSONDecodeError => Ok PNone
        | Raise e => Raise e
        end
      | None => Ok PNone
      end
    end
  | Raise e => Raise e
  end.

(** [d.get(k)] on the value [d]; a value without [get] raises. *)
Definition get (d : pyval) (k : pystr) (default : pyval) : res pyval :=
  match d with
  | PDict l => Ok (from_option id default (assoc k l))
  | _ => Raise AttributeError
  end.

(** [validate_product_data] *)
Definition validate_product_data (data : pyval) : res bool :=
  name ← get data (u "name") PNone;
  if truthy name then Ok true
  else
    product_name ← get data (u "product_name") PNone;
    Ok (truthy product_name).

(** [s[:n]] for any integer [n]. *)
Definition slice_to (n : Z) (s : pystr) : pystr :=
  if (0 <=? n)%Z then take (Z.to_nat n) s
  else take (length s - Z.to_nat (- n)) s.

(** [re.sub(r'\s+', ' ', text)] *)
Definition collapse_spaces (s : pystr) : pystr := sub (Plus is_space) (u " ") None s.

(** [sanitize_text]; [re.sub] raises on a true value that is not a string. *)
Definition sanitize_text (text : pyval) (max_length : option Z) : res pystr :=
  if negb (truthy text) then Ok []
  else
    match text with
    | PStr s =>
      let text := strip (collapse_spaces s) in
      match max_length with
      | Some n =>
        if negb (n =? 0)%Z && (n <? Z.of_nat (len text))%Z
        then Ok (slice_to (n - 3) text ++ u "...")
        else Ok text
      | None => Ok text
      end
    | _ => Raise TypeError
    end.

(** The number pattern of [format_price]: digits, an optional dot or comma,
    digits. *)
Definition number_pattern : re :=
  Cat (Plus is_digit) (Cat (Opt (Cls (one_of (u ".,")))) (Star is_digit)).

(** [format_price] *)
Definition format_price (price : pyval) : pystr :=
  if negb (truthy price) then []
  else
    let price := strip (py_str price) in
    if negb (PyStr.truthy price)
       || existsb (str_eqb (lower price)) [u "null"; u "none"; u "n/a"; u "не указана"]
    then []
    else
      match findall number_pattern price with
      | n0 :: _ =>
        let num := replace_chr 44 (u ".") n0 in
        if contains (u "₽") price || contains (u "руб") (lower price)
           || contains (u "rub") (lower price)
        then num ++ u "₽"
        else if contains (u "$") price || contains (u "usd") (lower price)
        then u "$" ++ num
        else if contains (u "€") price || contains (u "eur") (lower price)
        then u "€" ++ num
        else num ++ u "₽"
      | [] => price
      end.

End Helpers.
Import Helpers.

(** ** bot/ai/text_analyzer.py *)

Module TextAnalyzer.

(** The dataclass [ProductInfo]; every field defaults to [None]. *)
Record ProductInfo : Type := mkProductInfo {
  name : pyval;
  price : pyval;
  description : pyval;
  category : pyval;
  color : pyval;
  size : pyval;
  other_features : pyval
}.

(** [ProductInfo()] *)
Definition empty_info : ProductInfo :=
  mkProductInfo PNone PNone PNone PNone PNone PNone PNone.

Definition set_name (v : pyval) (p : ProductInfo) : ProductInfo :=
  mkProductInfo v (price p) (description p) (category p) (color p) (size p) (other_features p).
Definition set_price (v : pyval) (p : ProductInfo) : ProductInfo :=
  mkProductInfo (name p) v (description p) (category p) (color p) (size p) (other_features p).
Definition set_description (v : pyval) (p : ProductInfo) : ProductInfo :=
  mkProductInfo (name p) (price p) v (category p) (color p) (size p) (other_features p).
Definition set_category (v : pyval) (p : ProductInfo) : ProductInfo :=
  mkProductInfo (name p) (price p) (description p) v (color p) (size p) (other_features p).

(** [has_required_fields] *)
Definition has_required_fields (p : ProductInfo) : bool :=
  truthy (name p) && (truthy (price p) || truthy (description p)).

(** [to_dict] *)
Definition to_dict (p : ProductInfo) : gmap string pyval :=
  <["name" := name p]> (<["price" := price p]> (<["description" := description p]>
  (<["category" := category p]> (<["color" := color p]> (<["size" := size p]>
  (<["other_features" := other_features p]> ∅)))))).

(** [_parse_ai_response]; [response] is what the client returned, and
    [json.loads] raises on a value that is not a string. *)
Definition _parse_ai_response (L : Json.limits) (response : pyval) : res ProductInfo :=
  match response with
  | PStr text =>
    data ← extract_json_from_text L text;
    if truthy data then
      v ← get data (u "name") PNone; name ← sanitize_text v None;
      v ← get data (u "price") PNone; price ← Ok (format_price v);
      v ← get data (u "description") PNone; description ← sanitize_text v (Some 500%Z);
      v ← get data (u "category") PNone; category ← sanitize_text v None;
      v ← get data (u "color") PNone; color ← sanitize_text v None;
      v ← get data (u "size") PNone; size ← sanitize_text v None;
      other_features ← get data (u "other_features") (PDict []);
      Ok (mkProductInfo (PStr name) (PStr price) (PStr description) (PStr category)
            (PStr color) (PStr size) other_features)
    else Ok empty_info
  | _ => Raise TypeError
  end.

(** The five price patterns of [_extract_basic_info], under
    [re.IGNORECASE]. *)
Definition rub_class : N -> bool := one_ofI (u "₽рублейруб.").
Definition sep_class (c : N) : bool := one_of (u ":-") c || is_space c.
Definition cur_class : N -> bool := one_of (u "$€£").
Definition dot_comma : N -> bool := one_of (u ".,").

(** Each pattern is one group; it is shown with its outer parentheses left
    out and blanks between its parts. *)
Definition price_patterns : list re := [
  (* \d+ [\s]* [₽рублейруб\.]+ *)
  Grp (Cat (Plus is_digit) (Cat (Star is_space) (Plus rub_class)));
  (* цена [:\s-]* \d+ [\s]* [₽рублейруб\.]* *)
  Grp (Cat (LitI (u "цена")) (Cat (Star sep_class)
        (Cat (Plus is_digit) (Cat (Star is_space) (Star rub_class)))));
  (* [\$€£] \s* \d+ [\.,]? \d* *)
  Grp (Cat (Cls cur_class) (Cat (Star is_space)
        (Cat (Plus is_digit) (Cat (Opt (Cls dot_comma)) (Star is_digit)))));
  (* \d+ [\.,]? \d* \s* [\$€£] *)
  Grp (Cat (Plus is_digit) (Cat (Opt (Cls dot_comma))
        (Cat (Star is_digit) (Cat (Star is_space) (Cls cur_class)))));
  (* \d+ \s* (?:руб|рублей|₽) *)
  Grp (Cat (Plus is_digit) (Cat (Star is_space)
        (Or (LitI (u "руб")) (Or (LitI (u "рублей")) (LitI (u "₽"))))))
].

(** The [for pattern in price_patterns] loop: the first pattern that matches
    and whose match holds a number sets the price. *)
Fixpoint basic_price (patterns : list re) (text : pystr) : pyval :=
  match patterns with
  | [] => PNone
  | pattern :: rest =>
    match search pattern text with
    | Some price_match =>
      match findall (Plus is_digit) (m_text price_match) with
      | n0 :: _ => PStr (n0 ++ u "₽")
      | [] => basic_price rest text
      end
    | None => basic_price rest text
    end
  end.

(** [_extract_basic_info] *)
Definition _extract_basic_info (text : pystr) : ProductInfo :=
  let lines := split_chr 10 text in
  let product_info :=
    mkProductInfo
      (match lines with l0 :: _ => PStr l0 | [] => PStr (u "Product") end)
      PNone
      (if (1 <? length lines)%nat then PStr (join [10] (drop 1 lines)) else PStr text)
      PNone PNone PNone PNone in
  match basic_price price_patterns text with
  | PNone => product_info
  | p => set_price p product_info
  end.

(** The outcome of the remote call in the [try] block
    ([ai_client.analyze_text], [ai_client.analyze_image]): it raises, or
    returns the content of the first choice. *)
Inductive ai_outcome : Type :=
| AiRaises
| AiReturns (content : pyval).

Definition ai_call (o : ai_outcome) : res pyval :=
  match o with
  | AiRaises => Raise RequestError
  | AiReturns c => Ok c
  end.

(** [extract_product_info]: the body of the [try], and its handler. *)
Definition extract_product_info (L : Json.limits) (text : pystr) (ai : ai_outcome)
    : res ProductInfo :=
  catch
    (ai_response ← ai_call ai;
     product_info ← _parse_ai_response L ai_response;
     Ok product_info)
    (fun _ => Ok (_extract_basic_info text)).

End TextAnalyzer.
Import TextAnalyzer.

(** ** bot/ai/vision_analyzer.py *)

Module VisionAnalyzer.

(** [_parse_vision_response]: the price is kept as it came. *)
Definition _parse_vision_response (L : Json.limits) (response : pyval) : res ProductInfo :=
  match response with
  | PStr text =>
    data ← extract_json_from_text L text;
    if truthy data then
      p1 ← get data (u "price") PNone;
      price ← (if truthy p1 then Ok p1 else
               p2 ← get data (u "estimated_price_range") PNone;
               if truthy p2 then Ok p2 else get data (u "estimated_price") PNone);
      n1 ← get data (u "product_name") PNone;
      nm ← (if truthy n1 then Ok n1 else get data (u "name") PNone);
      name ← sanitize_text nm None;
      v ← get data (u "category") PNone; category ← sanitize_text v None;
      v ← get data (u "color") PNone; color ← sanitize_text v None;
      v ← get data (u "size") PNone; size ← sanitize_text v None;
      v ← get data (u "description") PNone; description ← sanitize_text v (Some 500%Z);
      f1 ← get data (u "features") PNone;
      other_features ← (if truthy f1 then Ok f1 else get data (u "other_features") (PDict []));
      Ok (mkProductInfo (PStr name) (if truthy price then price else PNone)
            (PStr description) (PStr category) (PStr color) (PStr size) other_features)
    else Ok empty_info
  | _ => Raise TypeError
  end.

(** [analyze_product_image]: any exception gives the empty record. *)
Definition analyze_product_image (L : Json.limits) (ai : ai_outcome) : res ProductInfo :=
  catch
    (ai_response ← ai_call ai;
     product_info ← _parse_vision_response L ai_response;
     Ok product_info)
    (fun _ => Ok empty_info).

End VisionAnalyzer.
Import VisionAnalyzer.

(** ** bot/ai/client.py: [create_ai_client]

    [api_key] is [Config.OPENROUTER_API_KEY], empty when it is not set. *)

Module Factory.

Definition create_ai_client (api_key : pystr) : res unit :=
  if PyStr.truthy api_key then Ok tt else Raise ValueError.

End Factory.
Import Factory.

(** ** The Telegram and state calls of a handler

    What the calls that a message handler awaits before it stores the record
    come to: each returns or raises. *)

Module Telegram.

Record calls : Type := mkCalls {
  sent_loading : res unit;   (* message.answer(BotMessages.PROCESSING_...) *)
  got_file : res pystr;      (* message.bot.get_file(photo.file_id): the file path *)
  saved_input : res unit;    (* state.update_data(photo_url=...), (original_text=...) *)
  saved_info : res unit      (* state.update_data(product_info=...) *)
}.

End Telegram.
Import Telegram.

(** ** [float(s)]

    [float_ok s] tells whether [float(s)] returns: after stripping white
    space, an optional sign and then [inf], [infinity] or [nan] in any case,
    or a decimal number (digits with single underscores between them, an
    optional fraction, an optional exponent).  Otherwise [float] raises
    [ValueError].  The white space that [float] strips is that of
    [str.strip] without the four separators U+001C..U+001F. *)

Module PyFloat.

Definition float_space (c : N) : bool := is_space c && negb (in_range 0x1C 0x1F c).

(** The rest of a digit part after its first digit. *)
Fixpoint digitpart_tail (s : pystr) : pystr :=
  match s with
  | c :: r =>
    if is_digit c then digitpart_tail r
    else if c =? 95 then
      match r with
      | d :: r' => if is_digit d then digitpart_tail r' else s
      | [] => s
      end
    else s
  | [] => []
  end.

Definition digitpart (s : pystr) : option pystr :=
  match s with
  | c :: r => if is_digit c then Some (digitpart_tail r) else None
  | [] => None
  end.

Definition drop_sign (s : pystr) : pystr :=
  match s with
  | c :: r => if one_of [43; 45] c then r else s
  | [] => []
  end.

Definition exponent_ok (s : pystr) : bool :=
  match s with
  | [] => true
  | e :: r =>
    if one_of [101; 69] e then
      match digitpart (drop_sign r) with
      | Some [] => true
      | _ => false
      end
    else false
  end.

Definition float_ok (s : pystr) : bool :=
  let s := drop_sign (strip_by float_space s) in
  if existsb (str_eqb (lower s)) [u "inf"; u "infinity"; u "nan"] then true
  else
    match digitpart s with
    | Some r =>
      match r with
      | 46 :: r' =>
        match digitpart r' with
        | Some r'' => exponent_ok r''
        | None => exponent_ok r'
        end
      | _ => exponent_ok r
      end
    | None =>
      match s with
      | 46 :: r' =>
        match digitpart r' with
        | Some r'' => exponent_ok r''
        | None => false
        end
      | _ => false
      end
    end.

End PyFloat.
Import PyFloat.

(** ** bot/handlers/description.py *)

Module Description.

Definition digit_or_space (c : N) : bool := is_digit c || is_space c.
Definition colon_or_space (c : N) : bool := (c =? 58) || is_space c.
Definition label_sep (c : N) : bool := one_of (u ":-") c || is_space c.
Definition not_comma_nl (c : N) : bool := negb (one_of [44; 10] c).

(** \d [\d\s]* (?:[.,]\d+)?   -- the number of the first two patterns *)
Definition amount : re :=
  Cat (Cls is_digit) (Cat (Star digit_or_space) (Opt (Cat (Cls dot_comma) (Plus is_digit)))).

(** \d{3,} *)
Definition digits3 : re :=
  Cat (Cls is_digit) (Cat (Cls is_digit) (Cat (Cls is_digit) (Star is_digit))).

(** The three patterns of [extract_price_from_text], under [re.IGNORECASE]. *)
Definition patterns : list re := [
  (* (amount) \s* (?:₽|руб\.?|рублей|рубля) *)
  Cat (Grp amount) (Cat (Star is_space)
    (Or (LitI (u "₽")) (Or (Cat (LitI (u "руб")) (Opt (Chr 46)))
       (Or (LitI (u "рублей")) (LitI (u "рубля"))))));
  (* (?:цена|стоимость) [:\s]* (amount) *)
  Cat (Or (LitI (u "цена")) (LitI (u "стоимость"))) (Cat (Star colon_or_space) (Grp amount));
  (* (?:^|,\s* ) (\d{3,}) \s* (?:,|$) *)
  Cat (Or Bol (Cat (Chr 44) (Star is_space)))
    (Cat (Grp digits3) (Cat (Star is_space) (Or (Chr 44) Eol)))
].

(** \b (\d{3,}) \b *)
Definition fallback_pattern : re := Cat Wb (Cat (Grp digits3) Wb).

(** [match.group(1).replace(' ', '').replace(',', '.')] *)
Definition normalize_amount (g : pystr) : pystr :=
  replace_chr 44 (u ".") (replace_chr 32 [] g).

(** The [for pattern in patterns] loop: a pattern whose number [float]
    refuses is passed over. *)
Fixpoint try_patterns (ps : list re) (text : pystr) : option pystr :=
  match ps with
  | [] => None
  | pattern :: rest =>
    match search pattern text with
    | Some m =>
      let price := normalize_amount (m_grp m) in
      if float_ok price then Some (price ++ u " ₽") else try_patterns rest text
    | None => try_patterns rest text
    end
  end.

(** [extract_price_from_text]; [PNone] is [None]. *)
Definition extract_price_from_text (text : pystr) : pyval :=
  if negb (PyStr.truthy text) then PNone
  else
    match try_patterns patterns text with
    | Some price => PStr price
    | None =>
      match findall_grp fallback_pattern text with
      | n0 :: _ => PStr (n0 ++ u " ₽")
      | [] => PNone
      end
    end.

(** The pattern that takes the price out of the working text (no flag):
    amount \s* (?:₽|руб\.?|рублей|рубля|р\.?|р\b)? *)
Definition price_removal : re :=
  Cat amount (Cat (Star is_space)
    (Opt (Or (Lit (u "₽")) (Or (Cat (Lit (u "руб")) (Opt (Chr 46)))
         (Or (Lit (u "рублей")) (Or (Lit (u "рубля"))
         (Or (Cat (Lit (u "р")) (Opt (Chr 46))) (Cat (Lit (u "р")) Wb)))))))).

(** категори[яю] [:\s\-]+ \s* ([^,\n]+) *)
Definition category_pattern : re :=
  Cat (LitI (u "категори")) (Cat (Cls (one_ofI (u "яю")))
    (Cat (Plus label_sep) (Cat (Star is_space) (Grp (Plus not_comma_nl))))).

(** категори[яю] [:\s\-]+ \s* [^,\n]+ [,]? \s* *)
Definition category_removal : re :=
  Cat (LitI (u "категори")) (Cat (Cls (one_ofI (u "яю")))
    (Cat (Plus label_sep) (Cat (Star is_space) (Cat (Plus not_comma_nl)
      (Cat (Opt (Chr 44)) (Star is_space)))))).

Fixpoint alt (l : list re) : re :=
  match l with
  | [] => Eps
  | [a] => a
  | a :: r => Or a (alt r)
  end.

Definition size_patterns : list re := [
  (* размер [:\s\-]+ ([^,\n]+) *)
  Cat (LitI (u "размер")) (Cat (Plus label_sep) (Grp (Plus not_comma_nl)));
  (* \b (xl|xxl|xxxl|xs|s|m|l) \b *)
  Cat Wb (Cat (Grp (alt (map LitI [u "xl"; u "xxl"; u "xxxl"; u "xs"; u "s"; u "m"; u "l"]))) Wb);
  (* \b (\d+ \s* (?:см|мм|м|x|х) \s* \d* ) *)
  Cat Wb (Grp (Cat (Plus is_digit) (Cat (Star is_space)
    (Cat (alt (map LitI [u "см"; u "мм"; u "м"; u "x"; u "х"]))
      (Cat (Star is_space) (Star is_digit))))));
  (* \b (большой|средний|маленький|огромный|мини) \b *)
  Cat Wb (Cat (Grp (alt (map LitI
    [u "большой"; u "средний"; u "маленький"; u "огромный"; u "мини"]))) Wb)
].

(** The [for pattern in size_patterns] loop: size and new working text. *)
Fixpoint find_size (ps : list re) (working_text : pystr) : pyval * pystr :=
  match ps with
  | [] => (PNone, working_text)
  | pattern :: rest =>
    match search pattern working_text with
    | Some m => (PStr (strip (m_grp m)), strip (sub pattern [] (Some 1%nat) working_text))
    | None => find_size rest working_text
    end
  end.

(** The colour vocabulary, in the order of the dict. *)
Definition colors : list (pystr * pystr) := [
  (u "красный", u "Красный"); (u "красная", u "Красный"); (u "красное", u "Красный");
  (u "синий", u "Синий"); (u "синяя", u "Синий"); (u "синее", u "Синий");
  (u "зелёный", u "Зелёный"); (u "зеленый", u "Зелёный");
  (u "зелёная", u "Зелёный"); (u "зеленая", u "Зелёный");
  (u "жёлтый", u "Жёлтый"); (u "желтый", u "Жёлтый");
  (u "белый", u "Белый"); (u "белая", u "Белый"); (u "белое", u "Белый");
  (u "чёрный", u "Чёрный"); (u "черный", u "Чёрный");
  (u "чёрная", u "Чёрный"); (u "черная", u "Чёрный");
  (u "розовый", u "Розовый"); (u "розовая", u "Розовый");
  (u "оранжевый", u "Оранжевый"); (u "оранжевая", u "Оранжевый");
  (u "фиолетовый", u "Фиолетовый"); (u "фиолетовая", u "Фиолетовый");
  (u "голубой", u "Голубой"); (u "голубая", u "Голубой");
  (u "серый", u "Серый"); (u "серая", u "Серый");
  (u "коричневый", u "Коричневый"); (u "коричневая", u "Коричневый");
  (u "бежевый", u "Бежевый"); (u "бежевая", u "Бежевый")
].

(** Taking a colour word out: [цвет\s+word], then [\bword\b], each
    everywhere and followed by [strip]. *)
Definition remove_color (color_word : pystr) (working_text : pystr) : pystr :=
  let t := strip (sub (Cat (LitI (u "цвет")) (Cat (Plus is_space) (LitI color_word)))
                    [] None working_text) in
  strip (sub (Cat Wb (Cat (LitI color_word) Wb)) [] None t).

Fixpoint find_color (cs : list (pystr * pystr)) (working_text : pystr) : pyval * pystr :=
  match cs with
  | [] => (PNone, working_text)
  | (color_word, color_name) :: rest =>
    if contains color_word (lower working_text)
    then (PStr color_name, remove_color color_word working_text)
    else find_color rest working_text
  end.

(** The three clean-up lines. *)
Definition cleanup (working_text : pystr) : pystr :=
  let t := sub (Cat (Star is_space) (Cat (Chr 44) (Star is_space))) (u ", ") None working_text in
  let t := strip (sub (Plus is_space) (u " ") None t) in
  strip (strip_chr 44 t).

Definition keywords : list pystr := [u "размер"; u "категори"; u "цвет"; u "букет"].

Definition has_keyword (p : pystr) : bool :=
  existsb (fun kw => contains kw (lower p)) keywords.

(** [extract_product_info_locally] *)
Definition extract_product_info_locally (text : pystr) : ProductInfo :=
  if negb (PyStr.truthy text) then empty_info
  else
    let text := strip text in
    let price := extract_price_from_text text in
    let working_text :=
      if truthy price then strip (sub price_removal [] (Some 1%nat) text) else text in
    let '(category, working_text) :=
      match search category_pattern working_text with
      | Some m => (PStr (capitalize (strip (m_grp m))),
                   strip (sub category_removal [] None working_text))
      | None => (PNone, working_text)
      end in
    let '(size, working_text) := find_size size_patterns working_text in
    let '(color, working_text) := find_color colors working_text in
    let working_text := cleanup working_text in
    let parts := filter (fun p => PyStr.truthy p) (map strip (split_chr 44 working_text)) in
    let '(name, description) :=
      if PyStr.truthy working_text then
        match parts with
        | p0 :: rest =>
          (PStr (capitalize p0),
           match filter (fun p => PyStr.truthy p && negb (has_keyword p)) rest with
           | [] => PNone
           | desc_parts => PStr (join (u ", ") desc_parts)
           end)
        | [] => (PNone, PNone)
        end
      else (PNone, PNone) in
    mkProductInfo name (if truthy price then price else PNone)
      description category color size PNone.

End Description.

(** ** bot/handlers/photo.py *)

Module Photo.

Import Description.

(** \d{2,} (?:[.,]\d+)? *)
Definition digits2_frac : re :=
  Cat (Cls is_digit) (Cat (Cls is_digit) (Cat (Star is_digit)
    (Opt (Cat (Cls dot_comma) (Plus is_digit))))).

(** The four patterns of this module's [extract_price_from_text]; they are
    run on the lower-cased, stripped text without a flag. *)
Definition patterns : list re := [
  (* (amount) \s* (?:₽|руб\.?|рублей|рубля|р\.?|р\b) *)
  Cat (Grp amount) (Cat (Star is_space)
    (Or (Lit (u "₽")) (Or (Cat (Lit (u "руб")) (Opt (Chr 46)))
       (Or (Lit (u "рублей")) (Or (Lit (u "рубля"))
       (Or (Cat (Lit (u "р")) (Opt (Chr 46))) (Cat (Lit (u "р")) Wb)))))));
  (* (?:цена|стоимость|price|cost) [:\s]* (amount) *)
  Cat (Or (Lit (u "цена")) (Or (Lit (u "стоимость")) (Or (Lit (u "price")) (Lit (u "cost")))))
    (Cat (Star colon_or_space) (Grp amount));
  (* (?:^|\s) (\d{2,}(?:[.,]\d+)?) \s* $ *)
  Cat (Or Bol (Cls is_space)) (Cat (Grp digits2_frac) (Cat (Star is_space) Eol));
  (* ^ (\d{2,}(?:[.,]\d+)?) (?:\s|$) *)
  Cat Bol (Cat (Grp digits2_frac) (Or (Cls is_space) Eol))
].

(** [extract_price_from_text] of photo.py *)
Definition extract_price_from_text (text : pystr) : pyval :=
  if negb (PyStr.truthy text) then PNone
  else
    match try_patterns patterns (strip (lower text)) with
    | Some price => PStr price
    | None => PNone
    end.

Definition size_patterns : list re := [
  (* \b (размер \s* [:\-]? \s* \w+) *)
  Cat Wb (Grp (Cat (Lit (u "размер")) (Cat (Star is_space)
    (Cat (Opt (Cls (one_of (u ":-")))) (Cat (Star is_space) (Plus is_word))))));
  (* \b (xl|xxl|xxxl|xs|s|m|l) \b *)
  Cat Wb (Cat (Grp (alt (map Lit [u "xl"; u "xxl"; u "xxxl"; u "xs"; u "s"; u "m"; u "l"]))) Wb);
  (* \b (\d+ \s* (?:см|мм|м|x|х) \s* \d* ) *)
  Cat Wb (Grp (Cat (Plus is_digit) (Cat (Star is_space)
    (Cat (alt (map Lit [u "см"; u "мм"; u "м"; u "x"; u "х"]))
      (Cat (Star is_space) (Star is_digit))))));
  (* \b (большой|средний|маленький) \b *)
  Cat Wb (Cat (Grp (alt (map Lit [u "большой"; u "средний"; u "маленький"]))) Wb)
].

(** The same four patterns as [re.sub] runs them, under [re.IGNORECASE]. *)
Definition size_patterns_ci : list re := [
  Cat Wb (Grp (Cat (LitI (u "размер")) (Cat (Star is_space)
    (Cat (Opt (Cls (one_of (u ":-")))) (Cat (Star is_space) (Plus is_word))))));
  Cat Wb (Cat (Grp (alt (map LitI [u "xl"; u "xxl"; u "xxxl"; u "xs"; u "s"; u "m"; u "l"]))) Wb);
  Cat Wb (Grp (Cat (Plus is_digit) (Cat (Star is_space)
    (Cat (alt (map LitI [u "см"; u "мм"; u "м"; u "x"; u "х"]))
      (Cat (Star is_space) (Star is_digit))))));
  Cat Wb (Cat (Grp (alt (map LitI [u "большой"; u "средний"; u "маленький"]))) Wb)
].

(** The size loop: the search is on the lower-cased text, the removal on the
    text itself and of every match. *)
Fixpoint find_size (ps : list (re * re)) (text_without_price : pystr) : pyval * pystr :=
  match ps with
  | [] => (PNone, text_without_price)
  | (pattern, pattern_ci) :: rest =>
    match search pattern (lower text_without_price) with
    | Some m => (PStr (strip (m_grp m)),
                 strip (sub pattern_ci [] None text_without_price))
    | None => find_size rest text_without_price
    end
  end.

Definition colors : list pystr := [
  u "красный"; u "синий"; u "зелёный"; u "зеленый"; u "жёлтый"; u "желтый";
  u "белый"; u "чёрный"; u "черный"; u "розовый"; u "оранжевый"; u "фиолетовый";
  u "голубой"; u "серый"; u "коричневый"; u "бежевый"
].

Fixpoint find_color (cs : list pystr) (text_without_price : pystr) : pyval * pystr :=
  match cs with
  | [] => (PNone, text_without_price)
  | color :: rest =>
    if contains color (lower text_without_price)
    then (PStr (capitalize color), remove_color color text_without_price)
    else find_color rest text_without_price
  end.

(** [s.split(',', 1)] *)
Fixpoint split_first (c : N) (s : pystr) : pystr * option pystr :=
  match s with
  | [] => ([], None)
  | x :: r =>
    if x =? c then ([], Some r)
    else let '(a, b) := split_first c r in (x :: a, b)
  end.

(** [extract_product_info_from_text]: the dict that it returns. *)
Definition extract_product_info_from_text (text : pystr) : gmap string pyval :=
  let result (name price description category color size : pyval) : gmap string pyval :=
    <["name" := name]> (<["price" := price]> (<["description" := description]>
    (<["category" := category]> (<["color" := color]> (<["size" := size]> ∅))))) in
  if negb (PyStr.truthy text) then result PNone PNone PNone PNone PNone PNone
  else
    let text := strip text in
    let price := extract_price_from_text text in
    let text_without_price :=
      if truthy price then strip (sub price_removal [] (Some 1%nat) text) else text in
    let '(category, text_without_price) :=
      match search category_pattern text_without_price with
      | Some m => (PStr (capitalize (strip (m_grp m))),
                   strip (sub category_removal [] None text_without_price))
      | None => (PNone, text_without_price)
      end in
    let '(size, text_without_price) :=
      find_size (zip size_patterns size_patterns_ci) text_without_price in
    let '(color, text_without_price) := find_color colors text_without_price in
    let text_without_price := cleanup text_without_price in
    let '(name, description) :=
      if PyStr.truthy text_without_price then
        let '(p0, p1) := split_first 44 text_without_price in
        (PStr (capitalize (strip p0)),
         match p1 with
         | Some desc =>
           match map strip (filter (fun p => PyStr.truthy (strip p) && negb (has_keyword p))
                              (split_chr 44 (strip desc))) with
           | [] => PNone
           | desc_parts => PStr (join (u ", ") desc_parts)
           end
         | None => PNone
         end)
      else (PNone, PNone) in
    result name (if truthy price then price else PNone) description category color size.

(** *** The two merge steps *)

(** [process_product_photo], the block under "the caption has priority over
    the analysis of the photo": [product_info] is the record from the photo,
    [caption_info] the one from the caption. *)
Definition merge_caption (product_info caption_info : ProductInfo) : ProductInfo :=
  let product_info :=
    if truthy (name caption_info) then set_name (name caption_info) product_info
    else product_info in
  let product_info :=
    if truthy (price caption_info) then set_price (price caption_info) product_info
    else product_info in
  let product_info :=
    if truthy (description caption_info) then
      if truthy (description product_info)
      then set_description
             (PStr (py_str (description product_info) ++ u ". "
                    ++ py_str (description caption_info))) product_info
      else set_description (description caption_info) product_info
    else product_info in
  if truthy (category caption_info) then set_category (category caption_info) product_info
  else product_info.

(** [process_product_photo] up to the record that it stores.  [caption] is
    [message.caption], [None] for a photo without one; [vision] and [text_ai]
    are the outcomes of the two remote calls.  The loading message is sent
    before the [try]; the rest is its body.  [Raise]: the handler ends
    without a stored record (in its [except] branch, or by raising). *)
Definition process_product_photo (L : Json.limits) (T : calls) (api_key : pystr)
    (caption : option pystr) (vision text_ai : ai_outcome) : res ProductInfo :=
  _ ← sent_loading T;
  let caption := from_option id [] caption in
  let caption_price := extract_price_from_text caption in
  _ ← got_file T;
  _ ← saved_input T;
  _ ← create_ai_client api_key;
  product_info ← analyze_product_image L vision;
  let product_info :=
    if truthy caption_price then set_price caption_price product_info else product_info in
  product_info ←
    (if PyStr.truthy caption && negb (truthy caption_price) then
       caption_info ← extract_product_info L caption text_ai;
       Ok (merge_caption product_info caption_info)
     else Ok product_info);
  _ ← saved_info T;
  Ok product_info.

(** [d.get(k)] and [d[k]] on a dict with string keys. *)
Definition dget (d : gmap string pyval) (k : string) (default : pyval) : pyval :=
  from_option id default (d !! k).

(** [add_text_to_photo_handler], the block "the user's text has priority":
    [product_dict] is the stored record, [extracted] the dict read from the
    user's text. *)
Definition merge_text (product_dict extracted : gmap string pyval) : gmap string pyval :=
  let upd (k : string) (d : gmap string pyval) : gmap string pyval :=
    if truthy (dget extracted k PNone) then <[k := dget extracted k PNone]> d else d in
  let product_dict := upd "name" product_dict in
  let product_dict := upd "price" product_dict in
  let product_dict :=
    if truthy (dget extracted "description" PNone) then
      let current_desc := dget product_dict "description" (PStr []) in
      if truthy current_desc && negb (eq_str current_desc (u "Не предоставлено"))
      then <["description" := PStr (py_str current_desc ++ u ". "
                                    ++ py_str (dget extracted "description" PNone))]> product_dict
      else <["description" := dget extracted "description" PNone]> product_dict
    else product_dict in
  let product_dict := upd "category" product_dict in
  let product_dict := upd "color" product_dict in
  upd "size" product_dict.

(** [add_text_to_photo_handler] up to the dict that it stores. *)
Definition add_text_to_photo_handler (user_text : pystr) (product_dict : gmap string pyval)
    : gmap string pyval :=
  merge_text product_dict (extract_product_info_from_text user_text).

End Photo.

(** ** bot/generator/templates and bot/generator/builder.py

    A card is the list of drawing calls made on the new image, in order.  The
    drawing calls themselves are taken to return, and the PNG encoding of the
    result is not modelled. *)

Module Templates.

Local Open Scope Z_scope.

Definition rgb : Type := Z * Z * Z.

(** [TemplateConfig] *)
Record TemplateConfig : Type := mkConfig {
  width : Z;
  height : Z;
  background_color : rgb;
  text_color : rgb;
  accent_color : rgb;
  font_name : pystr;
  title_font_size : Z;
  body_font_size : Z;
  price_font_size : Z
}.

Inductive font : Type :=
| TrueType (name : pystr) (size : Z)
| DefaultFont.

Inductive img_mode : Type := RGB | RGBA | LA | P | OtherMode.

(** A decoded picture: its size and mode; the pixels are left out. *)
Record image : Type := mkImage {
  img_width : Z;
  img_height : Z;
  mode : img_mode
}.

Inductive draw_op : Type :=
| Rectangle (x0 y0 x1 y1 : Z) (fill : rgb)
| Text (x y : Z) (text : pystr) (fill : rgb) (f : font)
| Paste (picture : image) (new_width new_height : Z) (flattened : bool) (x y : Z).

(** [Image.new('RGB', (w, h), color)] followed by the drawing calls. *)
Record canvas : Type := mkCanvas {
  c_width : Z;
  c_height : Z;
  c_background : rgb;
  c_ops : list draw_op
}.

(** What lies outside the program: the font files, the network, the decoders
    and the floating-point scaling of the photo. *)
Record world : Type := mkWorld {
  truetype_ok : pystr -> Z -> bool;           (* ImageFont.truetype returns *)
  requests_get : pystr -> res (Z * list N);   (* status code and content *)
  b64decode : pystr -> res (list N);
  image_open : list N -> res image;           (* Image.open *)
  scaled_size : image -> Z -> Z -> Z * Z;     (* new_width, new_height *)
  resize_ok : image -> Z -> Z -> bool         (* product_img.resize returns *)
}.

(** data:image/[^;]+;base64,(.+) *)
Definition data_url_pattern : re :=
  Cat (Lit (u "data:image/")) (Cat (Plus (fun c => negb (c =? 59)%N))
    (Cat (Lit (u ";base64,")) (Grp (Plus (fun c => negb (c =? 10)%N))))).

(** [download_image_sync]: every exception of the body is caught. *)
Definition download_image_sync (W : world) (url : pystr) : option image :=
  let body : res (option image) :=
    if starts_with (u "data:image") url then
      match match_here data_url_pattern None url with
      | Some st =>
        image_data ← b64decode W (ms_grp st);
        img ← image_open W image_data;
        Ok (Some img)
      | None => Ok None
      end
    else
      response ← requests_get W url;
      if (fst response =? 200) then
        img ← image_open W (snd response);
        Ok (Some img)
      else Ok None in
  match body with
  | Ok r => r
  | Raise _ => None
  end.

(** [_wrap_text], the same in the three templates.  The loop state is
    [(lines, current_line)].  [max_width] is a number of characters; the
    templates pass 40, 55 and 60. *)
Definition wrap_step (max_width : nat) (st : list pystr * list pystr) (word : pystr)
    : list pystr * list pystr :=
  let '(lines, current_line) := st in
  let current_line := current_line ++ [word] in
  if (max_width <? len (join (u " ") current_line))%nat
  then (lines ++ [join (u " ") (removelast current_line)], [word])
  else (lines, current_line).

Definition _wrap_text (text : pystr) (max_width : nat) : list pystr :=
  let words := split_ws text in
  let '(lines, current_line) := fold_left (wrap_step max_width) words ([], []) in
  match current_line with
  | [] => lines
  | _ => lines ++ [join (u " ") current_line]
  end.

(** The fonts: all three from the file, or all three the default. *)
Definition load_fonts (W : world) (cfg : TemplateConfig) : font * font * font :=
  if truetype_ok W (font_name cfg) (title_font_size cfg)
     && truetype_ok W (font_name cfg) (body_font_size cfg)
     && truetype_ok W (font_name cfg) (price_font_size cfg)
  then (TrueType (font_name cfg) (title_font_size cfg),
        TrueType (font_name cfg) (body_font_size cfg),
        TrueType (font_name cfg) (price_font_size cfg))
  else (DefaultFont, DefaultFont, DefaultFont).

Definition needs_flatten (m : img_mode) : bool :=
  match m with RGBA | LA | P => true | _ => false end.

(** The photo step: the drawing calls it adds, and the height of the photo
    as placed.  A true value that is not a string makes [url.startswith]
    raise inside [download_image_sync], which catches it. *)
Definition photo_step (W : world) (product_image_url : pyval)
    (target_width target_height y_pos : Z) (canvas_width : Z)
    : res (list draw_op * option Z) :=
  match product_image_url with
  | PStr url =>
    if PyStr.truthy url then
      match download_image_sync W url with
      | Some product_img =>
        let '(new_width, new_height) := scaled_size W product_img target_width target_height in
        if resize_ok W product_img new_width new_height then
          let x_pos := (canvas_width - new_width) / 2 in
          Ok ([Paste product_img new_width new_height (needs_flatten (mode product_img))
                 x_pos y_pos], Some new_height)
        else Raise ImageError
      | None => Ok ([], None)
      end
    else Ok ([], None)
  | _ => Ok ([], None)
  end.

(** A run of text lines drawn one under the other from [y_offset], [step]
    apart: the calls, and the offset after the last line. *)
Fixpoint draw_lines (lines : list pystr) (x y_offset step : Z) (fill : rgb) (f : font)
    : list draw_op * Z :=
  match lines with
  | [] => ([], y_offset)
  | line :: rest =>
    let '(ops, y) := draw_lines rest x (y_offset + step) step fill f in
    (Text x y_offset line fill f :: ops, y)
  end.

Definition white : rgb := (255, 255, 255).
Definition no_price : pystr := u "Цена не указана".

(** The size line: [f"{label}{size}"] at [y_offset + gap]. *)
Definition size_line (label : pystr) (size : pyval) (y_offset gap : Z) (fill : rgb) (f : font)
    : list draw_op :=
  if truthy size then [Text 40 (y_offset + gap) (label ++ py_str size) fill f] else [].

Definition minimal_config : TemplateConfig :=
  mkConfig 800 800 (255, 255, 255) (40, 40, 40) (0, 122, 255) (u "arial.ttf") 36 18 42.

Definition dark_config : TemplateConfig :=
  mkConfig 800 800 (20, 20, 30) (240, 240, 240) (255, 100, 100) (u "arial.ttf") 36 18 42.

Definition marketplace_config : TemplateConfig :=
  mkConfig 800 800 (245, 245, 250) (35, 35, 35) (0, 184, 148) (u "arial.ttf") 32 16 40.

(** [MinimalTemplate.render] *)
Definition minimal_render (W : world) (cfg : TemplateConfig)
    (product_name price description category : pystr) (size : pyval)
    (product_image_url : pyval) : res canvas :=
  let '(title_font, body_font, price_font) := load_fonts W cfg in
  let image_height := 350 in
  photo ← photo_step W product_image_url (width cfg - 80) image_height 20 (width cfg);
  let y_offset := image_height + 40 in
  let category_ops := [Text 40 y_offset (upper category) (accent_color cfg) body_font] in
  let y_offset := y_offset + 35 in
  let '(title_ops, y_offset) :=
    draw_lines (take 2 (_wrap_text product_name 40)) 40 y_offset 42 (text_color cfg) title_font in
  let y_offset := y_offset + 8 in
  let '(description_ops, y_offset) :=
    if PyStr.truthy description
    then draw_lines (_wrap_text description 55) 40 y_offset 28 (text_color cfg) body_font
    else ([], y_offset) in
  let size_ops := size_line (u "Размер: ") size y_offset 10 (text_color cfg) body_font in
  let box_y := height cfg - 80 in
  let price_text := if PyStr.truthy price then price else no_price in
  Ok (mkCanvas (width cfg) (height cfg) (background_color cfg)
        (fst photo ++ category_ops ++ title_ops ++ description_ops ++ size_ops ++
         [Rectangle 0 box_y (width cfg) (height cfg) (accent_color cfg);
          Text 40 (box_y + 18) price_text white price_font])).

(** [DarkTemplate.render] *)
Definition dark_render (W : world) (cfg : TemplateConfig)
    (product_name price description category : pystr) (size : pyval)
    (product_image_url : pyval) : res canvas :=
  let '(title_font, body_font, price_font) := load_fonts W cfg in
  let top_line := [Rectangle 0 0 (width cfg) 5 (accent_color cfg)] in
  let image_height := 350 in
  photo ← photo_step W product_image_url (width cfg - 80) image_height 20 (width cfg);
  let y_offset := image_height + 40 in
  let category_ops :=
    [Text 40 y_offset (u "◆ " ++ upper category) (accent_color cfg) body_font] in
  let y_offset := y_offset + 35 in
  let '(title_ops, y_offset) :=
    draw_lines (take 2 (_wrap_text product_name 40)) 40 y_offset 42 (text_color cfg) title_font in
  let y_offset := y_offset + 8 in
  let '(description_ops, y_offset) :=
    if PyStr.truthy description
    then draw_lines (_wrap_text description 55) 40 y_offset 28 (text_color cfg) body_font
    else ([], y_offset) in
  let size_ops := size_line (u "Размер: ") size y_offset 10 (text_color cfg) body_font in
  let price_y := height cfg - 80 in
  let price_text := if PyStr.truthy price then price else no_price in
  Ok (mkCanvas (width cfg) (height cfg) (background_color cfg)
        (top_line ++ fst photo ++ category_ops ++ title_ops ++ description_ops ++ size_ops ++
         [Text 40 price_y price_text (accent_color cfg) price_font;
          Rectangle 0 (height cfg - 5) (width cfg) (height cfg) (accent_color cfg)])).

(** [MarketplaceTemplate.render] *)
Definition marketplace_render (W : world) (cfg : TemplateConfig)
    (product_name price description category : pystr) (size : pyval)
    (product_image_url : pyval) : res canvas :=
  let '(title_font, body_font, price_font) := load_fonts W cfg in
  let image_height := 350 in
  photo ← photo_step W product_image_url (width cfg) image_height 0 (width cfg);
  let y_start := from_option id 0 (snd photo) in
  let y_offset := Z.max y_start image_height + 10 in
  let category_ops :=
    [Rectangle 0 y_offset (width cfg) (y_offset + 40) (accent_color cfg);
     Text 40 (y_offset + 8) (upper category) white body_font] in
  let y_offset := y_offset + 55 in
  let '(title_ops, y_offset) :=
    draw_lines (take 2 (_wrap_text product_name 40)) 40 y_offset 40 (text_color cfg) title_font in
  let y_offset := y_offset + 5 in
  let '(description_ops, y_offset) :=
    if PyStr.truthy description
    then draw_lines (_wrap_text description 60) 40 y_offset 25 (text_color cfg) body_font
    else ([], y_offset) in
  let size_ops := size_line (u "📏 Размер: ") size y_offset 5 (text_color cfg) body_font in
  let price_text := if PyStr.truthy price then price else no_price in
  Ok (mkCanvas (width cfg) (height cfg) (background_color cfg)
        (fst photo ++ category_ops ++ title_ops ++ description_ops ++ size_ops ++
         [Rectangle 0 (height cfg - 70) (width cfg) (height cfg) (accent_color cfg);
          Text 40 (height cfg - 55) price_text white price_font])).

(** The registry [TEMPLATES] and a template's [render] with its default
    configuration. *)
Inductive template : Type := Minimal | Dark | Marketplace.

Definition render (W : world) (t : template)
    (product_name price description category : pystr) (size : pyval)
    (product_image_url : pyval) : res canvas :=
  match t with
  | Minimal => minimal_render W minimal_config
  | Dark => dark_render W dark_config
  | Marketplace => marketplace_render W marketplace_config
  end product_name price description category size product_image_url.

(** The top of the price banner: where the banner's rectangle starts (minimal
    and marketplace) or where the price is written (dark). *)
Definition banner_top (t : template) : Z :=
  match t with
  | Minimal => height minimal_config - 80
  | Dark => height dark_config - 80
  | Marketplace => height marketplace_config - 70
  end.

(** [CardBuilder.build_card] up to the rendered card: the fall-back values,
    then [render]; a field that is not a string makes [render] raise. *)
Definition as_str (v : pyval) : res pystr :=
  match v with
  | PStr s => Ok s
  | _ => Raise TypeError
  end.

Definition build_card (W : world) (t : template) (product_info : ProductInfo)
    (product_image_url : pyval) : res canvas :=
  product_name ← as_str (por (name product_info) (PStr (u "Товар")));
  price ← as_str (por (price product_info) (PStr no_price));
  description ← as_str (por (description product_info) (PStr []));
  category ← as_str (por (category product_info) (PStr (u "Общая")));
  render W t product_name price description category (size product_info) product_image_url.

End Templates.

(** ** Exceptions by name

    The retry loops and the handlers meet exceptions that [Exn] does not
    name; [Builtin] carries the ones it does. *)

Module Exc.

Inductive pyexc : Type :=
| IndexError
| KeyError
| TimeoutError          (* asyncio.TimeoutError *)
| ApiError              (* Exception("API request failed ...") *)
| ClientError           (* any other exception raised by a request *)
| Builtin (e : exn).

Inductive outcome (A : Type) : Type :=
| Returns (a : A)
| Raises (e : pyexc).
Arguments Returns {A}.
Arguments Raises {A}.

#[export] Instance outcome_ret : MRet outcome := fun A a => Returns a.
#[export] Instance outcome_bind : MBind outcome := fun A B f m =>
  match m with
  | Returns a => f a
  | Raises e => Raises e
  end.

Definition lift {A} (r : res A) : outcome A :=
  match r with
  | Ok a => Returns a
  | Raise e => Raises (Builtin e)
  end.

(** [try: m  except Exception: handler] *)
Definition try_except {A} (m : outcome A) (handler : pyexc -> outcome A) : outcome A :=
  match m with
  | Returns a => Returns a
  | Raises e => handler e
  end.

(** [d.get(k, default)] *)
Definition dict_get (d : pyval) (k : pystr) (default : pyval) : outcome pyval :=
  lift (get d k default).

(** [v[k]] for a string key: a dict without the key raises [KeyError], a
    value that is not a dict raises [TypeError]. *)
Definition item (v : pyval) (k : pystr) : outcome pyval :=
  match v with
  | PDict d =>
    match assoc k d with
    | Some x => Returns x
    | None => Raises KeyError
    end
  | _ => Raises (Builtin TypeError)
  end.

(** [v[0]]: the keys of a dict read from JSON are strings, so a dict raises
    [KeyError]. *)
Definition first_item (v : pyval) : outcome pyval :=
  match v with
  | PList (x :: _) => Returns x
  | PList [] => Raises IndexError
  | PStr (c :: _) => Returns (PStr [c])
  | PStr [] => Raises IndexError
  | PDict _ => Raises KeyError
  | _ => Raises (Builtin TypeError)
  end.

(** [for x in v]: the elements of a list, the characters of a string, the
    keys of a dict; other values are not iterable. *)
Definition items (v : pyval) : outcome (list pyval) :=
  match v with
  | PList l => Returns l
  | PStr s => Returns (map (fun c => PStr [c]) s)
  | PDict d => Returns (map (fun kv => PStr (fst kv)) d)
  | _ => Raises (Builtin TypeError)
  end.

End Exc.
Import Exc.

(** ** The requests of the two API clients

    What one request of a retry loop comes to, and what the loop does besides
    asking: it sleeps. *)

Module Http.

Inductive reply : Type :=
| Json200 (result : pyval)   (* status 200, and [response.json()] returned *)
| RateLimited                (* status 429 *)
| OtherStatus                (* another status, and [response.text()] returned *)
| TimedOut                   (* asyncio.TimeoutError *)
| Failed.                    (* any other exception *)

Inductive event : Type :=
| Requested
| Slept (seconds : Z).

Definition max_retries : nat := 3.
Definition retry_delay : Z := 2.

(** The seconds slept in a trace, and its requests. *)
Definition seconds_of (e : event) : Z :=
  match e with
  | Slept s => s
  | Requested => 0
  end.

Definition slept (trace : list event) : Z := foldr (fun e acc => seconds_of e + acc)%Z 0%Z trace.

Definition is_request (e : event) : bool :=
  match e with
  | Requested => true
  | Slept _ => false
  end.

Definition requests (trace : list event) : nat :=
  length (filter (fun e => is_request e) trace).

End Http.
Import Http.

(** ** bot/ai/image_generator.py *)

Module ImageGenerator.

(** [url.startswith("data:image")] and the [return url] under it. *)
Definition data_image_url (url : pyval) : outcome (option pystr) :=
  match url with
  | PStr s => Returns (if starts_with (u "data:image") s then Some s else None)
  | _ => Raises (Builtin AttributeError)
  end.

(** [x.get("image_url", {}).get("url", "")], tested and returned. *)
Definition url_of (x : pyval) : outcome (option pystr) :=
  image_url ← dict_get x (u "image_url") (PDict []);
  url ← dict_get image_url (u "url") (PStr []);
  data_image_url url.

(** The loop over the [images] field. *)
Fixpoint scan_images (images : list pyval) : outcome (option pystr) :=
  match images with
  | [] => Returns None
  | img :: rest =>
    match img with
    | PDict _ =>
      found ← url_of img;
      match found with
      | Some url => Returns (Some url)
      | None => scan_images rest
      end
    | _ => scan_images rest
    end
  end.

(** The loop over a [content] that is a list of parts. *)
Fixpoint scan_parts (content : list pyval) : outcome (option pystr) :=
  match content with
  | [] => Returns None
  | part :: rest =>
    match part with
    | PDict d =>
      type ← dict_get part (u "type") PNone;
      if eq_str type (u "image_url") then
        found ← url_of part;
        match found with
        | Some url => Returns (Some url)
        | None => scan_parts rest
        end
      else
        match assoc (u "inline_data") d with
        | Some inline =>
          mime ← dict_get inline (u "mime_type") (PStr (u "image/png"));
          data ← dict_get inline (u "data") (PStr []);
          if truthy data
          then Returns (Some (u "data:" ++ py_str mime ++ u ";base64," ++ py_str data))
          else scan_parts rest
        | None => scan_parts rest
        end
    | _ => scan_parts rest
    end
  end.

(** data:image/ [^;]+ ;base64, [A-Za-z0-9+/=]+ *)
Definition is_base64 (c : N) : bool :=
  is_upper_ascii c || is_lower_ascii c || is_digit c || one_of (u "+/=") c.

Definition not_semicolon (c : N) : bool := negb (c =? 59).

Definition data_url_in_text : re :=
  Cat (Lit (u "data:image/")) (Cat (Plus not_semicolon)
    (Cat (Lit (u ";base64,")) (Plus is_base64))).

(** A [content] that is a string. *)
Definition from_text (content : pystr) : option pystr :=
  match (if contains (u "data:image") content then search data_url_in_text content
         else None) with
  | Some m => Some (m_text m)
  | None => if starts_with (u "data:image") content then Some content else None
  end.

(** [_extract_image_from_response]: the body of the [try]; any exception
    gives [None]. *)
Definition _extract_image_from_response (response : pyval) : option pystr :=
  let body : outcome (option pystr) :=
    choices ← dict_get response (u "choices") (PList []);
    if negb (truthy choices) then Returns None
    else
      first ← first_item choices;
      message ← dict_get first (u "message") (PDict []);
      images ← dict_get message (u "images") (PList []);
      found ← (if truthy images then l ← items images; scan_images l else Returns None);
      match found with
      | Some url => Returns (Some url)
      | None =>
        content ← dict_get message (u "content") PNone;
        match content with
        | PList parts => scan_parts parts
        | PStr s => Returns (from_text s)
        | _ => Returns None
        end
      end in
  match body with
  | Returns r => r
  | Raises _ => None
  end.

(** [_generate_image_via_chat]: the loop [for attempt in range(max_retries)]
    from [attempt] on, with [todo] rounds left; [replies] tells what each
    request comes to.  The result, and what was done on the way. *)
Fixpoint chat_attempts (replies : nat -> reply) (attempt todo : nat)
    : option pystr * list event :=
  match todo with
  | O => (None, [])
  | S todo' =>
    let next := chat_attempts replies (S attempt) todo' in
    let last := (attempt =? max_retries - 1)%nat in
    match replies attempt with
    | Json200 result => (_extract_image_from_response result, [Requested])
    | RateLimited =>
      (fst next, Requested :: Slept (retry_delay * 2 ^ Z.of_nat attempt) :: snd next)
    | OtherStatus =>
      if last then (None, [Requested]) else (fst next, Requested :: snd next)
    | TimedOut =>
      if (attempt <? max_retries - 1)%nat
      then (fst next, Requested :: Slept retry_delay :: snd next)
      else (fst next, Requested :: snd next)
    | Failed =>
      if last then (None, [Requested]) else (fst next, Requested :: snd next)
    end
  end.

Definition _generate_image_via_chat (replies : nat -> reply) : option pystr * list event :=
  chat_attempts replies 0 max_retries.

(** [generate_product_image]: an empty result counts as none.  The prompt is
    put together from the arguments with f-strings and [join], which return
    for any strings; what the requests come to is given by [replies]. *)
Definition generate_product_image (replies : nat -> reply) : option pystr * list event :=
  let '(image_data, trace) := _generate_image_via_chat replies in
  (match image_data with
   | Some url => if PyStr.truthy url then Some url else None
   | None => None
   end, trace).

End ImageGenerator.

(** ** bot/ai/client.py *)

Module Client.

(** [_make_request]: the loop from [attempt] on, with [todo] rounds left. *)
Fixpoint request_attempts (replies : nat -> reply) (attempt todo : nat)
    : outcome pyval * list event :=
  match todo with
  | O => (Raises ApiError, [])
  | S todo' =>
    let next := request_attempts replies (S attempt) todo' in
    let last := (attempt =? max_retries - 1)%nat in
    match replies attempt with
    | Json200 result => (Returns result, [Requested])
    | RateLimited =>
      (fst next, Requested :: Slept (retry_delay * 2 ^ Z.of_nat attempt) :: snd next)
    | OtherStatus =>
      if last then (Raises ApiError, [Requested])
      else (fst next, Requested :: Slept retry_delay :: snd next)
    | TimedOut =>
      if (attempt <? max_retries - 1)%nat
      then (fst next, Requested :: Slept retry_delay :: snd next)
      else (fst next, Requested :: snd next)
    | Failed =>
      if last then (Raises ClientError, [Requested])
      else (fst next, Requested :: Slept retry_delay :: snd next)
    end
  end.

Definition _make_request (replies : nat -> reply) : outcome pyval * list event :=
  request_attempts replies 0 max_retries.

(** [response["choices"][0]["message"]["content"]] *)
Definition first_choice_content (response : pyval) : outcome pyval :=
  choices ← item response (u "choices");
  choice ← first_item choices;
  message ← item choice (u "message");
  item message (u "content").

(** [analyze_text], [analyze_image] and [generate_completion]: the request,
    then the content of the first choice; an exception is raised again. *)
Definition analyze (replies : nat -> reply) : outcome pyval :=
  response ← fst (_make_request replies);
  first_choice_content response.

(** What the analysers see of the call.  The prompt texts and the payload
    settings are not part of this code; building the prompt and the payload
    is taken to return. *)
Definition remote_call (replies : nat -> reply) : ai_outcome :=
  match analyze replies with
  | Returns content => AiReturns content
  | Raises _ => AiRaises
  end.

End Client.

(** ** The handlers: from the message to the stored record, and from the
    stored record to the card *)

Module Handlers.

(** [ProductInfo] called with the entries of [product_dict] as keyword
    arguments: a key that is not a field raises [TypeError]; a field without
    a key is [None]. *)
Definition field_names : list string :=
  ["name"; "price"; "description"; "category"; "color"; "size"; "other_features"]%string.

Definition is_field (k : string) : bool := existsb (String.eqb k) field_names.

Definition ProductInfo_of (product_dict : gmap string pyval) : outcome ProductInfo :=
  if forallb (fun kv => is_field (fst kv)) (map_to_list product_dict)
  then Returns (mkProductInfo
                  (Photo.dget product_dict "name" PNone)
                  (Photo.dget product_dict "price" PNone)
                  (Photo.dget product_dict "description" PNone)
                  (Photo.dget product_dict "category" PNone)
                  (Photo.dget product_dict "color" PNone)
                  (Photo.dget product_dict "size" PNone)
                  (Photo.dget product_dict "other_features" PNone))
  else Raises (Builtin TypeError).

(** [process_text_description] of description.py up to the record that it
    stores.  [user_text] is [message.text], [None] for a message without
    text: the handler's filter is on the state only.

    On [None], [extract_product_info_locally] returns the empty record at
    its first test; [extract_product_info] raises ([text[:100]] raises in
    its [try], and [_extract_basic_info] raises in its handler); and
    [len(user_text)] raises in the fall-back. *)
Definition text_as_name (user_text : pystr) : pystr :=
  if (50 <? len user_text)%nat then take 50 user_text ++ u "..." else user_text.

Definition locally (user_text : option pystr) : ProductInfo :=
  match user_text with
  | Some text => Description.extract_product_info_locally text
  | None => empty_info
  end.

Definition analysed (L : Json.limits) (user_text : option pystr) (ai : ai_outcome)
    : outcome ProductInfo :=
  match user_text with
  | Some text => lift (extract_product_info L text ai)
  | None => Raises (Builtin AttributeError)
  end.

Definition fall_back (user_text : option pystr) : outcome ProductInfo :=
  match user_text with
  | Some text =>
    Returns (mkProductInfo (PStr (text_as_name text))
               (Description.extract_price_from_text text)
               PNone PNone PNone PNone PNone)
  | None => Raises (Builtin TypeError)
  end.

(** The text is saved and the loading message sent before the [try]; the
    rest is its body.  [Raises]: the handler ends without a stored record
    (in its [except] branch, or by raising). *)
Definition process_text_description (L : Json.limits) (T : calls) (api_key : pystr)
    (user_text : option pystr) (ai : ai_outcome) : outcome ProductInfo :=
  _ ← lift (saved_input T);
  _ ← lift (sent_loading T);
  let product_info := locally user_text in
  product_info ←
    (if negb (truthy (name product_info)) then
       try_except
         (_ ← lift (create_ai_client api_key);
          analysed L user_text ai)
         (fun _ => fall_back user_text)
     else Returns product_info);
  _ ← lift (saved_info T);
  Returns product_info.

(** [query.data.split("_")[i]] *)
Definition template_name_of (data : pystr) (i : nat) : outcome pystr :=
  match split_chr 95 data !! i with
  | Some template_name => Returns template_name
  | None => Raises IndexError
  end.

End Handlers.

(** ** Properties and examples named in the statements *)

Module Props.

Import Templates.

(** A price that ends in a currency marker. *)
Definition ends_with_marker (s : pystr) : bool :=
  ends_with (u "₽") s || ends_with (u "$") s || ends_with (u "€") s.

(** A price that carries a currency marker where the code puts one: the
    rouble sign at the end, the dollar or euro sign at the start. *)
Definition carries_marker (s : pystr) : bool :=
  ends_with (u "₽") s || starts_with (u "$") s || starts_with (u "€") s.

Definition has_digit (s : pystr) : bool := existsb is_digit s.

(** The interpreter's bounds in an ordinary run, and a handler whose
    Telegram and state calls all return. *)
Definition usual_limits : Json.limits := Json.mkLimits 900 4300 (fun _ => None).

Definition calls_ok : calls := mkCalls (Ok tt) (Ok (u "photos/file_0.jpg")) (Ok tt) (Ok tt).

(** The characters on which the character classes and the case mappings of
    this model are Python's: Basic Latin and the signs of Latin-1, the
    Cyrillic letters U+0400..U+045F, white space, general punctuation, the
    currency signs, the numero and trade mark signs, arrows, mathematical and
    technical signs, box drawing, shapes, dingbats without their circled
    digits, the variation selectors and the pictographs (emoji).  The letters
    and digits of other scripts are outside. *)
Definition modelled (c : N) : bool :=
  (c <=? 0xA9) || in_range 0xAB 0xB1 c || one_of [0xB4; 0xB6; 0xB7; 0xB8; 0xBB; 0xBF; 0xD7; 0xF7] c
  || in_range 0x400 0x45F c || is_space c
  || in_range 0x2000 0x206F c || in_range 0x20A0 0x20C0 c || (c =? 0x2116) || (c =? 0x2122)
  || in_range 0x2190 0x23FF c || in_range 0x2500 0x2775 c || in_range 0x2794 0x27BF c
  || in_range 0x2B00 0x2BFF c || in_range 0xFE00 0xFE0F c || in_range 0x1F300 0x1FAFF c.

(** The number that a price pattern caught: group 1 of the match without
    its blanks and with a dot for its comma. *)
Definition amount_of (m : rmatch) : pystr :=
  replace_chr 44 (u ".") (replace_chr 32 [] (m_grp m)).

(** A price pattern passes on a text with the match [m]: [re.search] finds
    [m], and [float] accepts its number.  It fails when it does not match or
    [float] refuses the number. *)
Definition passes (text : pystr) (pattern : re) (m : rmatch) : Prop :=
  search pattern text = Some m /\ float_ok (amount_of m) = true.

Definition fails (text : pystr) (pattern : re) : Prop :=
  search pattern text = None
  \/ exists m, search pattern text = Some m /\ float_ok (amount_of m) = false.

(** The description block of a template: its character budget, the distance
    between its lines, and the colour and the configuration it is drawn
    with. *)
Definition config_of (t : template) : TemplateConfig :=
  match t with
  | Minimal => minimal_config
  | Dark => dark_config
  | Marketplace => marketplace_config
  end.

Definition description_budget (t : template) : nat :=
  match t with Minimal | Dark => 55%nat | Marketplace => 60%nat end.

Definition line_step (t : template) : Z :=
  match t with Minimal | Dark => 28%Z | Marketplace => 25%Z end.

Definition body_font_of (W : world) (t : template) : font :=
  snd (fst (load_fonts W (config_of t))).

(** The row of the first line of the description block: [k] is the number
    of title lines drawn and [photo_height] the height of the pasted photo,
    if any. *)
Definition description_top (t : template) (k : nat) (photo_height : option Z) : Z :=
  match t with
  | Minimal | Dark => (350 + 40 + 35 + 42 * Z.of_nat k + 8)%Z
  | Marketplace =>
    (Z.max (from_option id 0 photo_height) 350 + 10 + 55 + 40 * Z.of_nat k + 5)%Z
  end.

(** The region that a photo takes when there is one: rows [top] to [bottom]
    of the card. *)
Definition photo_region (t : template) : Z * Z :=
  match t with
  | Minimal | Dark => (20, 370)%Z
  | Marketplace => (0, 350)%Z
  end.

(** The box that the photo is scaled into: its width and height. *)
Definition photo_box (t : template) : Z * Z :=
  match t with
  | Minimal | Dark => (720, 350)%Z
  | Marketplace => (800, 350)%Z
  end.

Definition is_paste (op : draw_op) : bool :=
  match op with Paste _ _ _ _ _ _ => true | _ => false end.

(** The drawing call stays clear of the rows [top] to [bottom]: a rectangle
    ends above or starts below them, a text starts below them. *)
Definition clear_of (region : Z * Z) (op : draw_op) : bool :=
  match op with
  | Rectangle _ y0 _ y1 _ => (y1 <? fst region)%Z || (snd region <=? y0)%Z
  | Text _ y _ _ _ => (snd region <=? y)%Z
  | Paste _ _ _ _ _ _ => false
  end.

(** A record whose text fields hold what their annotation says: a string or
    [None]. *)
Definition is_text (v : pyval) : bool :=
  match v with PNone | PStr _ => true | _ => false end.

Definition text_fields_typed (info : ProductInfo) : bool :=
  is_text (name info) && is_text (price info) && is_text (description info)
  && is_text (category info).

(** A world without network and without font files. *)
Definition offline_world : world :=
  mkWorld (fun _ _ => false) (fun _ => Raise RequestError) (fun _ => Raise TypeError)
    (fun _ => Raise ImageError) (fun _ w h => (w, h)) (fun _ _ _ => true).

(** A world in which every picture opens, and none can be resized: the file
    is read when [resize] asks for the pixels, and it is cut short. *)
Definition truncated_photo_world : world :=
  mkWorld (fun _ _ => false) (fun _ => Ok (200%Z, []))
    (fun _ => Ok []) (fun _ => Ok (mkImage 640 480 RGB)) (fun _ w h => (w, h))
    (fun _ _ _ => false).

(** The three backquotes of a fenced block, and a text without backquote. *)
Definition fence : pystr := u "```".
Definition no_backquote (s : pystr) : bool := forallb (fun c => negb (c =? 96)) s.

(** A reader of values whose fuel never runs out, and that never returns
    more text than it was given. *)
Definition scan_ok (scan : pystr -> Json.pres pyval) : Prop :=
  forall s,
    scan s <> Json.PFuel
    /\ forall v r, scan s = Json.POk v r -> (length r <= length s)%nat.

(** A text without the character [c]. *)
Definition lacks (c : N) (s : pystr) : bool := forallb (fun x => negb (x =? c)) s.

(** The pattern of a fenced block after its opening backquotes and its
    optional [json]. *)
Definition block_body : re :=
  Cat (Star is_space) (Cat (Grp (LazyStar any_char)) (Lit fence)).

(** Example inputs. *)
Definition sturdy_description : pystr := join (u " ") (repeat (u "сверхпрочный") 38).

Definition sneakers_text : pystr := u "Кеды, 3400 руб, синие".

Definition long_text : pystr := u "Стол, " ++ join (u " ") (repeat (u "прочный") 80).

Definition long_response : pyval :=
  PStr (uq "{'name': 'Стол', 'description': '" ++ join (u "  ") (repeat (u "прочный") 80)
        ++ uq "'}").

Definition long_record : ProductInfo :=
  mkProductInfo (PStr (u "Стол")) (PStr [])
    (PStr (take 497 (join (u " ") (repeat (u "прочный") 80)) ++ u "..."))
    (PStr []) (PStr []) (PStr []) (PDict []).

Definition priced_photo_response : pyval :=
  PStr (uq "{'product_name': 'Кеды', 'price': '1500'}").

(** A photo whose analysis names the product only, and answers of the text
    analyser to a caption. *)
Definition bare_photo_response : pyval := PStr (uq "{'product_name': 'Кеды'}").

Definition bare_photo_info : ProductInfo :=
  mkProductInfo (PStr (u "Кеды")) PNone (PStr []) (PStr []) (PStr []) (PStr []) (PDict []).

Definition comfy_caption_response : pyval := PStr (uq "{'description': 'удобные'}").

Definition comfy_caption_info : ProductInfo :=
  mkProductInfo (PStr []) (PStr []) (PStr (u "удобные")) (PStr []) (PStr []) (PStr [])
    (PDict []).

Definition blue_caption_response : pyval := PStr (uq "{'color': 'Синий'}").

Definition blue_caption_info : ProductInfo :=
  mkProductInfo (PStr []) (PStr []) (PStr []) (PStr []) (PStr (u "Синий")) (PStr [])
    (PDict []).

(** Texts around a JSON object. *)
Definition tiny_object : pystr := uq "{'a': 1}".

Definition two_blocks_text : pystr := uq "```x``` ```{'a': 1}``` and {b}".

Definition braces_prose_text : pystr := uq "Ответ {см. ниже}: {'a': 1}".

Definition fenced_text : pystr :=
  u "Вот данные: " ++ fence ++ u "json" ++ [10] ++ tiny_object ++ [10] ++ fence ++ u " готово".

Definition prose_text : pystr := u "Вот данные: " ++ tiny_object ++ u " - готово".

Definition dollar_response : pyval :=
  PStr (uq "{'name': 'Кеды', 'price': '$100'}").

(** The fields that [merge_caption] copies, and the keys that [merge_text]
    copies. *)
Definition caption_fields : list (ProductInfo -> pyval) :=
  [name; price; description; category].

Definition text_keys : list string :=
  ["name"; "price"; "description"; "category"; "color"; "size"]%string.

(** The state of the loop of [_wrap_text] is well formed for the budget
    [max_width] and the words [words]. *)
Definition good_line (max_width : nat) (words : list pystr) (line : pystr) : Prop :=
  (len line <= max_width)%nat \/ (In line words /\ (max_width < len line)%nat).

Definition wrap_inv (max_width : nat) (words : list pystr)
    (st : list pystr * list pystr) : Prop :=
  Forall (good_line max_width words) (fst st) /\
  (snd st = [] \/ (len (join (u " ") (snd st)) <= max_width)%nat
   \/ exists x, snd st = [x] /\ In x words).

(** The last statement of [_wrap_text]. *)
Definition wrap_finish (st : list pystr * list pystr) : list pystr :=
  match snd st with
  | [] => fst st
  | _ => fst st ++ [join (u " ") (snd st)]
  end.

Import Photo.

(** One key of [merge_text], and its description key. *)
Definition upd (e : gmap string pyval) (k : string) (d : gmap string pyval)
    : gmap string pyval :=
  if truthy (dget e k PNone) then <[k := dget e k PNone]> d else d.

Definition upd_description (e d : gmap string pyval) : gmap string pyval :=
  if truthy (dget e "description" PNone) then
    let current_desc := dget d "description" (PStr []) in
    if truthy current_desc && negb (eq_str current_desc (u "Не предоставлено"))
    then <["description" := PStr (py_str current_desc ++ u ". "
                                  ++ py_str (dget e "description" PNone))]> d
    else <["description" := dget e "description" PNone]> d
  else d.

End Props.
Import Props.

(** ** What a match consists of

    [den a prev t r g g']: the pattern [a] matches the text [t] when the
    character before it is [prev] and the text after it is [r]; group 1 holds
    [g] before the match and [g'] after it. *)

Module Denotation.

Fixpoint den (a : re) (prev : option N) (t r g g' : pystr) : Prop :=
  match a with
  | Eps => t = [] /\ g' = g
  | Cls p => exists c, t = [c] /\ p c = true /\ g' = g
  | Cat a b =>
    exists t1 t2 g1, t = t1 ++ t2 /\ den a prev t1 (t2 ++ r) g g1
      /\ den b (last_chr prev t1) t2 r g1 g'
  | Or a b => den a prev t r g g' \/ den b prev t r g g'
  | Star p | LazyStar p => forallb p t = true /\ g' = g
  | Grp a => (exists g1, den a prev t r g g1) /\ g' = t
  | Bol => t = [] /\ prev = None /\ g' = g
  | Eol => t = [] /\ (r = [] \/ r = [10]) /\ g' = g
  | Wb => t = [] /\ xorb (is_word_opt prev) (is_word_opt (head r)) = true /\ g' = g
  end.

(** Every run of characters of the class [p] replaced by [repl]: what
    [re.sub] does with the pattern [[p]+].  [in_run] tells that the
    character before was of the class. *)
Fixpoint squeeze (p : N -> bool) (repl : pystr) (in_run : bool) (s : pystr) : pystr :=
  match s with
  | [] => []
  | c :: r =>
    if p c then (if in_run then squeeze p repl true r else repl ++ squeeze p repl true r)
    else c :: squeeze p repl false r
  end.

Definition not_space (c : N) : bool := negb (is_space c).

(** A word as [split] gives it: not empty, and without white space. *)
Definition is_clean_word (w : pystr) : Prop := w <> [] /\ forallb not_space w = true.

(** A number as [format_price] writes it: digits, or digits, a dot and
    digits. *)
Definition is_number (num : pystr) : Prop :=
  exists d1 f, num = d1 ++ f /\ d1 <> [] /\ forallb is_digit d1 = true
    /\ (f = [] \/ exists d2, f = 46 :: d2 /\ forallb is_digit d2 = true).

(** The characters of a price that [format_price] writes: digits, the dot,
    and the rouble, dollar and euro signs. *)
Definition price_char (c : N) : bool :=
  is_digit c || (c =? 46) || (c =? 8381) || (c =? 36) || (c =? 8364).

(** The type of a value. *)
Definition is_str (v : pyval) : bool :=
  match v with PStr _ => true | _ => false end.

Definition is_dict (v : pyval) : bool :=
  match v with PDict _ => true | _ => false end.

(** A call returned; and the calls that a handler awaits before it stores
    the record all returned: for a photo, the loading message, the file, and
    the two writes to the state; for a text, the same without the file. *)
Definition returned {A} (r : res A) : bool :=
  match r with Ok _ => true | Raise _ => false end.

Definition photo_calls_return (T : calls) : bool :=
  returned (sent_loading T) && returned (got_file T) && returned (saved_input T)
  && returned (saved_info T).

Definition text_calls_return (T : calls) : bool :=
  returned (saved_input T) && returned (sent_loading T) && returned (saved_info T).

(** The request was answered with status 200 and a JSON body. *)
Definition answered (r : reply) : bool :=
  match r with Json200 _ => true | _ => false end.

End Denotation.
Import Denotation.

(** * Theorems *)

(** ** The definitions at work *)

Example loads_object :
  Json.loads usual_limits
    (uq "{'name': 'Кеды', 'tags': [1, 2.5, null, true], 'name': 'Кроссовки'}")
  = Ok (PDict [(u "name", PStr (u "Кроссовки"));
               (u "tags", PList [PInt 1; PFloat (u "2.5"); PNone; PBool true])]).
Proof. vm_compute. reflexivity. Qed.

Example loads_rejects_trailing_text :
  Json.loads usual_limits (uq "{'a': 1} и всё") = Raise JSONDecodeError.
Proof. vm_compute. reflexivity. Qed.

Example loads_nested_too_deep :
  Json.loads usual_limits (repeat 91 901) = Raise RecursionError
  /\ Json.loads usual_limits (repeat 91 900) = Raise JSONDecodeError.
Proof. split; vm_compute; reflexivity. Qed.

Example loads_integer_too_long :
  Json.loads usual_limits (repeat 49 4301) = Raise ValueError
  /\ Json.loads usual_limits (repeat 49 4301 ++ u ".5")
     = Ok (PFloat (repeat 49 4301 ++ u ".5")).
Proof. split; vm_compute; reflexivity. Qed.

Example findall_numbers :
  findall number_pattern (u "1 500,50 руб") = [u "1"; u "500,50"].
Proof. vm_compute. reflexivity. Qed.

Example format_price_rouble : format_price (PStr (u "3400 руб.")) = u "3400₽".
Proof. vm_compute. reflexivity. Qed.

Example format_price_integer : format_price (PInt 1500) = u "1500₽".
Proof. vm_compute. reflexivity. Qed.

Example format_price_word : format_price (PStr (u "договорная")) = u "договорная".
Proof. vm_compute. reflexivity. Qed.

Example price_with_blanks :
  Description.extract_price_from_text (u "Цена: 2 990,50") = PStr (u "2990.50 ₽").
Proof. vm_compute. reflexivity. Qed.

Example price_between_commas :
  Description.extract_price_from_text (u "Букет, 1200, розы") = PStr (u "1200 ₽").
Proof. vm_compute. reflexivity. Qed.

Example caption_price :
  Photo.extract_price_from_text (u "Кеды 1500р") = PStr (u "1500 ₽").
Proof. vm_compute. reflexivity. Qed.

Example locally_full :
  Description.extract_product_info_locally
    (u "Кеды, 3400 руб, синий, размер 42, категория: обувь, удобные")
  = mkProductInfo (PStr (u "Кеды")) (PStr (u "3400 ₽")) (PStr (u "удобные"))
      (PStr (u "Обувь")) (PStr (u "Синий")) (PStr (u "42")) PNone.
Proof. vm_compute. reflexivity. Qed.

Example wrap_title :
  Templates._wrap_text (u "Кроссовки беговые мужские летние дышащие") 20
  = [u "Кроссовки беговые"; u "мужские летние"; u "дышащие"].
Proof. vm_compute. reflexivity. Qed.

Example float_refuses_inner_tab : float_ok (u "34	00") = false.
Proof. vm_compute. reflexivity. Qed.


Import Templates.

(** ** The word wrap *)

Section WrapText.

Variable max_width : nat.
Variable words : list pystr.

Lemma join_single (sep x : pystr) : join sep [x] = x.
Proof. reflexivity. Qed.

Lemma inv_line_good (st : list pystr * list pystr) :
  wrap_inv max_width words st -> good_line max_width words (join (u " ") (snd st)).
Proof.
  intros [_ [H | [H | [x [H Hx]]]]].
  - rewrite H. left. simpl. lia.
  - now left.
  - rewrite H, join_single.
    destruct (le_lt_dec (len x) max_width); [now left | right; auto].
Qed.

Lemma wrap_step_inv (st : list pystr * list pystr) (word : pystr) :
  In word words -> wrap_inv max_width words st -> wrap_inv max_width words (wrap_step max_width st word).
Proof.
  intros Hw Hinv. pose proof (inv_line_good st Hinv) as Hgood.
  destruct st as [lines cur]. destruct Hinv as [Hl _]. simpl in *.
  unfold wrap_step.
  destruct (max_width <? len (join (u " ") (cur ++ [word])))%nat eqn:E.
  - split; simpl.
    + rewrite removelast_last. apply Forall_app. split; [assumption |].
      constructor; [assumption | constructor].
    + right. right. eauto.
  - split; simpl; [assumption |].
    right. left. apply Nat.ltb_ge in E. exact E.
Qed.

Lemma wrap_fold_inv (ws : list pystr) (st : list pystr * list pystr) :
  (forall x, In x ws -> In x words) -> wrap_inv max_width words st ->
  wrap_inv max_width words (fold_left (wrap_step max_width) ws st).
Proof.
  revert st. induction ws as [| x ws IH]; intros st Hin Hinv; simpl; [assumption |].
  apply IH.
  - intros y Hy. apply Hin. now right.
  - apply wrap_step_inv; [apply Hin; now left | assumption].
Qed.

End WrapText.

Lemma wrap_step_prefix (w : nat) (st : list pystr * list pystr) (word : pystr) :
  exists more, fst (wrap_step w st word) = fst st ++ more.
Proof.
  destruct st as [lines cur]. unfold wrap_step.
  destruct (w <? _)%nat; simpl; [eauto | exists []; now rewrite app_nil_r].
Qed.

Lemma wrap_fold_prefix (w : nat) (ws : list pystr) (st : list pystr * list pystr) :
  exists more, fst (fold_left (wrap_step w) ws st) = fst st ++ more.
Proof.
  revert st. induction ws as [| x ws IH]; intros st; simpl.
  - exists []. now rewrite app_nil_r.
  - destruct (IH (wrap_step w st x)) as [m1 H1].
    destruct (wrap_step_prefix w st x) as [m2 H2].
    exists (m2 ++ m1). rewrite H1, H2. now rewrite <- app_assoc.
Qed.

Lemma length_join_two (a b : pystr) :
  len (join (u " ") [a; b]) = (len a + 1 + len b)%nat.
Proof.
  unfold len. simpl. rewrite length_app. simpl. lia.
Qed.

Lemma wrap_text_unfold (text : pystr) (w : nat) :
  _wrap_text text w = wrap_finish (fold_left (wrap_step w) (split_ws text) ([], [])).
Proof.
  unfold _wrap_text, wrap_finish.
  destruct (fold_left (wrap_step w) (split_ws text) ([], [])) as [lines cur].
  destruct cur; reflexivity.
Qed.

Lemma wrap_step_overflow (w : nat) (lines cur : list pystr) (word : pystr) :
  (w < len (join (u " ") (cur ++ [word])))%nat ->
  wrap_step w (lines, cur) word = (lines ++ [join (u " ") cur], [word]).
Proof.
  intros H. unfold wrap_step. apply Nat.ltb_lt in H. rewrite H.
  now rewrite removelast_last.
Qed.

(** An over-long word alone in the current line is flushed as a line of its
    own, whatever follows. *)
Lemma wrap_long_word_flushed (w : nat) (w0 : pystr) (rest lines0 : list pystr) :
  (w < len w0)%nat ->
  exists tl,
    wrap_finish (fold_left (wrap_step w) rest (lines0, [w0])) = lines0 ++ w0 :: tl.
Proof.
  intros Hlong. destruct rest as [| x rest].
  - exists []. reflexivity.
  - cbn [fold_left]. rewrite wrap_step_overflow.
    2:{ change ([w0] ++ [x]) with [w0; x]. rewrite length_join_two. lia. }
    rewrite join_single.
    destruct (wrap_fold_prefix w rest (lines0 ++ [w0], [x])) as [more Hm].
    unfold wrap_finish.
    destruct (fold_left (wrap_step w) rest (lines0 ++ [w0], [x])) as [lines cur].
    cbn [fst snd] in *. subst lines. rewrite <- !app_assoc. cbn [app].
    destruct cur; eauto.
Qed.



(** ** The fuel of the JSON reader is enough *)

Import Json.

Local Open Scope N_scope.

Lemma lstrip_by_length (p : N -> bool) (s : pystr) :
  (length (lstrip_by p s) <= length s)%nat.
Proof.
  induction s as [| c s IH]; [reflexivity |]. cbn [lstrip_by].
  destruct (p c); cbn [length]; lia.
Qed.

Lemma skip_ws_length (s : pystr) : (length (skip_ws s) <= length s)%nat.
Proof. apply lstrip_by_length. Qed.

Lemma skip_ws_cons (s r : pystr) (c : N) :
  skip_ws s = c :: r -> (length r < length s)%nat.
Proof.
  intros H. pose proof (skip_ws_length s) as Hl.
  rewrite H in Hl. cbn [length] in Hl. lia.
Qed.

Lemma scanstring_shorter (n : nat) :
  forall s acc key r,
    (length s <= n)%nat -> scanstring acc s = Some (key, r) -> (length r < length s)%nat.
Proof.
  induction n as [| n IH]; intros s acc key r Hn H.
  - destruct s; [discriminate | cbn in Hn; lia].
  - destruct s as [| c s]; [discriminate |]. cbn [scanstring] in H.
    cbn [length] in *.
    destruct (c =? 34); [injection H as _ <-; lia |].
    destruct (c <? 32); [discriminate |].
    destruct (c =? 92).
    2:{ apply IH in H; lia. }
    destruct s as [| e s]; [discriminate |]. cbn [length] in *.
    destruct (e =? 117).
    2:{ repeat match type of H with
               | (if ?b then _ else _) = _ => destruct b
               end; try discriminate; apply IH in H; lia. }
    destruct s as [| a [| b [| c' [| d r2]]]]; try discriminate.
    cbn [length] in *.
    destruct (hex4 a b c' d) as [hi |]; [| discriminate].
    assert (Hplain : forall x, scanstring (x :: acc) r2 = Some (key, r) ->
                               (length r < S (S (S (S (S (S (length r2)))))))%nat).
    { intros x Hx. apply IH in Hx; lia. }
    destruct r2 as [| x1 [| x2 r3]]; try (apply Hplain in H; exact H).
    destruct ((x1 =? 92) && (x2 =? 117) && in_range 55296 56319 hi);
      [| apply Hplain in H; exact H].
    destruct r3 as [| a' [| b' [| c'' [| d' r4]]]]; try discriminate.
    destruct (hex4 a' b' c'' d') as [lo |]; [| discriminate].
    destruct (in_range 56320 57343 lo); [| apply Hplain in H; exact H].
    apply IH in H; cbn [length] in *; lia.
Qed.

Lemma span_digits_snd (s : pystr) : (length (snd (span_digits s)) <= length s)%nat.
Proof. unfold span_digits. cbn [snd]. apply lstrip_by_length. Qed.

Lemma opt_chr_snd (p : N -> bool) (s : pystr) :
  (length (snd (opt_chr p s)) <= length s)%nat.
Proof.
  unfold opt_chr. destruct s as [| c r]; [reflexivity |].
  destruct (p c); cbn [snd length]; lia.
Qed.

Lemma span_fraction_snd (s : pystr) : (length (snd (span_fraction s)) <= length s)%nat.
Proof.
  unfold span_fraction. pose proof (opt_chr_snd (N.eqb 46) s) as H1.
  destruct (opt_chr (N.eqb 46) s) as [[| dot ds] r]; [reflexivity |].
  pose proof (span_digits_snd r) as H2.
  destruct (span_digits r) as [[| x xs] r']; cbn [snd] in *; lia.
Qed.

Lemma span_exponent_snd (s : pystr) : (length (snd (span_exponent s)) <= length s)%nat.
Proof.
  unfold span_exponent. pose proof (opt_chr_snd (one_of [101; 69]) s) as H1.
  destruct (opt_chr (one_of [101; 69]) s) as [[| e es] r]; [reflexivity |].
  pose proof (opt_chr_snd (one_of [45; 43]) r) as H2.
  destruct (opt_chr (one_of [45; 43]) r) as [sg r'].
  pose proof (span_digits_snd r') as H3.
  destruct (span_digits r') as [[| x xs] r'']; cbn [snd] in *; lia.
Qed.

Lemma scan_number_shorter (L : limits) (s r : pystr) (v : pyval) :
  scan_number L s = POk v r -> (length r <= length s)%nat.
Proof.
  unfold scan_number. pose proof (opt_chr_snd (N.eqb 45) s) as H1.
  destruct (opt_chr (N.eqb 45) s) as [sign s1]. cbn [snd] in H1.
  destruct s1 as [| d t]; [discriminate |].
  destruct (is_digit d); [| discriminate].
  assert (H2 : Nat.le (length (snd (if d =? 48 then ([d], t) else span_digits (d :: t))))
                       (length (d :: t))).
  { destruct (d =? 48); [cbn; lia | apply span_digits_snd]. }
  destruct (if d =? 48 then ([d], t) else span_digits (d :: t)) as [ip s2].
  cbn [snd] in H2.
  pose proof (span_fraction_snd s2) as H3.
  destruct (span_fraction s2) as [fp s3]. cbn [snd] in H3.
  pose proof (span_exponent_snd s3) as H4.
  destruct (span_exponent s3) as [ep s4]. cbn [snd] in H4.
  destruct fp, ep; try destruct (int_too_long L ip); intros H;
    first [discriminate | injection H as _ <-; lia].
Qed.

Lemma scan_number_fuel (L : limits) (s : pystr) : scan_number L s <> PFuel.
Proof.
  unfold scan_number.
  destruct (opt_chr (N.eqb 45) s) as [sign s1].
  destruct s1 as [| d t]; [discriminate |].
  destruct (is_digit d); [| discriminate].
  destruct (if d =? 48 then ([d], t) else span_digits (d :: t)) as [ip s2].
  destruct (span_fraction s2) as [fp s3].
  destruct (span_exponent s3) as [ep s4].
  destruct fp, ep; try destruct (int_too_long L ip); discriminate.
Qed.

Lemma expect_shorter (lit s r : pystr) (v w : pyval) :
  expect lit v s = POk w r -> (length r <= length s)%nat.
Proof.
  unfold expect. destruct (starts_with lit s); [| discriminate].
  intros H. injection H as _ <-. rewrite length_drop. lia.
Qed.

Lemma expect_fuel (lit s : pystr) (v : pyval) : expect lit v s <> PFuel.
Proof. unfold expect. destruct (starts_with lit s); discriminate. Qed.

Lemma scan_members_ok (scan : pystr -> pres pyval) :
  scan_ok scan ->
  forall n d s,
    (length s < n)%nat ->
    scan_members scan n d s <> PFuel
    /\ forall v r, scan_members scan n d s = POk v r -> (length r <= length s)%nat.
Proof.
  intros Hscan. induction n as [| n IH]; intros d s Hn; [lia |].
  cbn [scan_members].
  destruct (scanstring [] s) as [[key s1] |] eqn:Ek; [| split; discriminate].
  apply (scanstring_shorter (length s)) in Ek; [| lia].
  destruct (skip_ws s1) as [| colon s2] eqn:E1; [split; discriminate |].
  apply skip_ws_cons in E1.
  destruct (colon =? 58); [| split; discriminate].
  pose proof (skip_ws_length s2) as Hws.
  destruct (Hscan (skip_ws s2)) as [Hf Hle].
  destruct (scan (skip_ws s2)) as [v s3 | | e |] eqn:Ev;
    [| split; discriminate | split; discriminate | contradiction].
  specialize (Hle v s3 eq_refl).
  destruct (skip_ws s3) as [| c3 s4] eqn:E3; [split; discriminate |].
  apply skip_ws_cons in E3.
  destruct (c3 =? 125).
  { split; [discriminate |]. intros v' r' H. injection H as _ <-. lia. }
  destruct (c3 =? 44); [| split; discriminate].
  destruct (skip_ws s4) as [| q s5] eqn:E5; [split; discriminate |].
  apply skip_ws_cons in E5.
  destruct (q =? 34); [| split; discriminate].
  destruct (IH (dict_set key v d) s5 ltac:(lia)) as [Hf' Hle'].
  split; [exact Hf' |]. intros v' r' H. apply Hle' in H. lia.
Qed.

Lemma scan_items_ok (scan : pystr -> pres pyval) :
  scan_ok scan ->
  forall n acc s,
    (length s < n)%nat ->
    scan_items scan n acc s <> PFuel
    /\ forall v r, scan_items scan n acc s = POk v r -> (length r <= length s)%nat.
Proof.
  intros Hscan. induction n as [| n IH]; intros acc s Hn; [lia |].
  cbn [scan_items].
  destruct (Hscan s) as [Hf Hle].
  destruct (scan s) as [v s1 | | e |] eqn:Ev;
    [| split; discriminate | split; discriminate | contradiction].
  specialize (Hle v s1 eq_refl).
  destruct (skip_ws s1) as [| c s2] eqn:E1; [split; discriminate |].
  apply skip_ws_cons in E1.
  destruct (c =? 93).
  { split; [discriminate |]. intros v' r' H. injection H as _ <-. lia. }
  destruct (c =? 44); [| split; discriminate].
  pose proof (skip_ws_length s2) as Hws.
  destruct (IH (v :: acc) (skip_ws s2) ltac:(lia)) as [Hf' Hle'].
  split; [exact Hf' |]. intros v' r' H. apply Hle' in H. lia.
Qed.

Lemma scan_once_ok (L : limits) (depth : nat) : scan_ok (scan_once L depth).
Proof.
  induction depth as [| f IH]; intros s;
    (destruct s as [| c r]; [split; discriminate |]); cbn [scan_once];
    (destruct (c =? 34);
     [ destruct (scanstring [] r) as [[str r'] |] eqn:E; [| split; discriminate];
       apply (scanstring_shorter (length r)) in E; [| lia];
       split; [discriminate |]; intros v r0 H; injection H as _ <-; cbn [length]; lia |]).
  1: destruct (c =? 123); [split; discriminate |];
     destruct (c =? 91); [split; discriminate |].
  2: destruct (c =? 123);
     [ destruct (skip_ws r) as [| c1 r1] eqn:E1; [split; discriminate |];
       apply skip_ws_cons in E1;
       destruct (c1 =? 125);
       [ split; [discriminate |]; intros v r0 H; injection H as _ <-; cbn [length]; lia |];
       destruct (c1 =? 34); [| split; discriminate];
       destruct (scan_members_ok (scan_once L f) IH (length r) [] r1 ltac:(lia))
         as [Hf Hle];
       split; [exact Hf |]; intros v r0 H; apply Hle in H; cbn [length]; lia |];
     destruct (c =? 91);
     [ destruct (skip_ws r) as [| c1 r1] eqn:E1; [split; discriminate |];
       apply skip_ws_cons in E1;
       destruct (c1 =? 93);
       [ split; [discriminate |]; intros v r0 H; injection H as _ <-; cbn [length]; lia |];
       destruct (scan_items_ok (scan_once L f) IH (S (length r)) [] (c1 :: r1))
         as [Hf Hle]; [cbn [length]; lia |];
       split; [exact Hf |]; intros v r0 H; apply Hle in H; cbn [length] in *; lia |].
  all: assert (Hexp : forall lit v,
            expect lit v (c :: r) <> PFuel
            /\ forall w r0, expect lit v (c :: r) = POk w r0 ->
                            (length r0 <= length (c :: r))%nat)
         by (intros lit v; split; [apply expect_fuel | intros w r0; apply expect_shorter]);
       (destruct (c =? 110); [apply Hexp |]);
       (destruct (c =? 116); [apply Hexp |]);
       (destruct (c =? 102); [apply Hexp |]);
       pose proof (scan_number_fuel L (c :: r)) as Hnf;
       pose proof (scan_number_shorter L (c :: r)) as Hns;
       destruct (scan_number L (c :: r)) as [v r' | | e |];
       [ split; [discriminate |]; intros w r0 H; injection H as <- <-; now apply (Hns r' v)
       | (destruct (c =? 78); [apply Hexp |]);
         (destruct (c =? 73); [apply Hexp |]);
         (destruct (c =? 45); [apply Hexp |]);
         split; discriminate
       | split; discriminate
       | contradiction ].
Qed.

(** The fuel of the model never runs out: [json.loads] returns a value or
    raises [json.JSONDecodeError], [RecursionError] or [ValueError]. *)
Lemma loads_fuel_enough (L : limits) (s : pystr) : loads_res L s <> PFuel.
Proof.
  unfold loads_res. destruct (starts_with [65279] s); [discriminate |].
  destruct (scan_once_ok L (max_depth L) (skip_ws s)) as [Hf _].
  destruct (scan_once L (max_depth L) (skip_ws s)); try discriminate; [| contradiction].
  destruct (skip_ws rest); discriminate.
Qed.

(** ** What the reader raises *)

Lemma scan_members_raises (scan : pystr -> pres pyval) (Q : exn -> Prop) :
  (forall s e, scan s = PRaise e -> Q e) ->
  forall n d s e, scan_members scan n d s = PRaise e -> Q e.
Proof.
  intros Hscan. induction n as [| n IH]; intros d s e; cbn [scan_members]; [discriminate |].
  destruct (scanstring [] s) as [[key s1] |]; [| discriminate].
  destruct (skip_ws s1) as [| colon s2]; [discriminate |].
  destruct (colon =? 58); [| discriminate].
  destruct (scan (skip_ws s2)) as [v s3 | | e' |] eqn:Ev; try discriminate.
  - destruct (skip_ws s3) as [| c3 s4]; [discriminate |].
    destruct (c3 =? 125); [discriminate |].
    destruct (c3 =? 44); [| discriminate].
    destruct (skip_ws s4) as [| q s5]; [discriminate |].
    destruct (q =? 34); [apply IH | discriminate].
  - intros H. injection H as <-. exact (Hscan _ _ Ev).
Qed.

Lemma scan_items_raises (scan : pystr -> pres pyval) (Q : exn -> Prop) :
  (forall s e, scan s = PRaise e -> Q e) ->
  forall n acc s e, scan_items scan n acc s = PRaise e -> Q e.
Proof.
  intros Hscan. induction n as [| n IH]; intros acc s e; cbn [scan_items]; [discriminate |].
  destruct (scan s) as [v s1 | | e' |] eqn:Ev; try discriminate.
  - destruct (skip_ws s1) as [| c s2]; [discriminate |].
    destruct (c =? 93); [discriminate |].
    destruct (c =? 44); [apply IH | discriminate].
  - intros H. injection H as <-. exact (Hscan _ _ Ev).
Qed.

Lemma scan_number_raises (L : limits) (s : pystr) (e : exn) :
  scan_number L s = PRaise e -> e = ValueError.
Proof.
  unfold scan_number.
  destruct (opt_chr (N.eqb 45) s) as [sign s1].
  destruct s1 as [| d t]; [discriminate |].
  destruct (is_digit d); [| discriminate].
  destruct (if d =? 48 then ([d], t) else span_digits (d :: t)) as [ip s2].
  destruct (span_fraction s2) as [fp s3].
  destruct (span_exponent s3) as [ep s4].
  destruct fp, ep; try destruct (int_too_long L ip); intros H;
    first [discriminate | now injection H as <-].
Qed.

Lemma expect_raises (lit s : pystr) (v : pyval) (e : exn) : expect lit v s <> PRaise e.
Proof. unfold expect. destruct (starts_with lit s); discriminate. Qed.

Lemma scan_once_raises (L : limits) (depth : nat) :
  forall s e, scan_once L depth s = PRaise e -> e = RecursionError \/ e = ValueError.
Proof.
  induction depth as [| f IH]; intros s e;
    (destruct s as [| c r]; [discriminate |]); cbn [scan_once];
    (destruct (c =? 34); [destruct (scanstring [] r) as [[str r'] |]; discriminate |]).
  1: destruct (c =? 123); [intros H; injection H as <-; now left |];
     destruct (c =? 91); [intros H; injection H as <-; now left |].
  2: destruct (c =? 123);
     [ destruct (skip_ws r) as [| c1 r1]; [discriminate |];
       destruct (c1 =? 125); [discriminate |];
       destruct (c1 =? 34); [| discriminate];
       intros H;
       exact (scan_members_raises _ (fun e => e = RecursionError \/ e = ValueError) IH _ _ _ _ H) |];
     destruct (c =? 91);
     [ destruct (skip_ws r) as [| c1 r1]; [discriminate |];
       destruct (c1 =? 93); [discriminate |];
       intros H;
       exact (scan_items_raises _ (fun e => e = RecursionError \/ e = ValueError) IH _ _ _ _ H) |].
  all: (destruct (c =? 110); [intros H; now apply expect_raises in H |]);
       (destruct (c =? 116); [intros H; now apply expect_raises in H |]);
       (destruct (c =? 102); [intros H; now apply expect_raises in H |]);
       pose proof (scan_number_raises L (c :: r)) as Hn;
       destruct (scan_number L (c :: r)) as [v r' | | e' |]; try discriminate;
       [ (destruct (c =? 78); [intros H; now apply expect_raises in H |]);
         (destruct (c =? 73); [intros H; now apply expect_raises in H |]);
         (destruct (c =? 45); [intros H; now apply expect_raises in H |]);
         discriminate
       | intros H; injection H as <-; right; now apply Hn ].
Qed.

(** [json.loads] returns a value, or raises [json.JSONDecodeError],
    [RecursionError], [ValueError], or what the interpreter refuses the text
    with. *)
Lemma loads_raises (L : limits) (s : pystr) (e : exn) :
  Json.loads L s = Raise e ->
  e = JSONDecodeError \/ e = RecursionError \/ e = ValueError \/ refused L s = Some e.
Proof.
  unfold Json.loads, loads_res. destruct (refused L s) as [e0 |].
  { intros H. injection H as <-. tauto. }
  destruct (starts_with [65279] s).
  { intros H. injection H as <-. now left. }
  pose proof (scan_once_raises L (max_depth L) (skip_ws s)) as Hr.
  destruct (scan_once L (max_depth L) (skip_ws s)) as [v r | | e' |].
  - destruct (skip_ws r); [discriminate |]. intros H. injection H as <-. now left.
  - intros H. injection H as <-. now left.
  - intros H. injection H as <-. right. destruct (Hr _ eq_refl); tauto.
  - intros H. injection H as <-. now left.
Qed.

(** ** [extract_json_from_text] *)

Lemma first_loadable_raises (L : limits) (matches : list pystr) (e : exn) :
  first_loadable L matches = Raise e -> e <> JSONDecodeError.
Proof.
  induction matches as [| m r IH]; cbn [first_loadable]; [discriminate |].
  destruct (Json.loads L (strip m)) as [v | e']; [discriminate |].
  destruct e'; try exact IH; intros H; injection H as <-; discriminate.
Qed.

(** What leaves [extract_json_from_text] is what [json.loads] raises besides
    [json.JSONDecodeError]. *)
Lemma extract_raises (L : limits) (text : pystr) (e : exn) :
  extract_json_from_text L text = Raise e -> e <> JSONDecodeError.
Proof.
  unfold extract_json_from_text.
  destruct (Json.loads L text) as [v | e1]; [discriminate |].
  destruct e1; try (intros H; injection H as <-; discriminate).
  destruct (first_loadable L (findall_grp code_block_pattern text)) as [[v |] | e2] eqn:E2;
    cbn [mbind res_bind].
  - discriminate.
  - destruct (brace_slice text) as [json_str |]; [| discriminate].
    destruct (Json.loads L json_str) as [v | e3]; [discriminate |].
    destruct e3; try discriminate; intros H; injection H as <-; discriminate.
  - intros H. injection H as <-. exact (first_loadable_raises _ _ _ E2).
Qed.

(** ** Strings and truth values *)

Lemma str_eqb_eq (a b : pystr) : str_eqb a b = true <-> a = b.
Proof.
  revert b. induction a as [| x a IH]; intros [| y b]; simpl; split; try easy.
  - intros H. apply andb_true_iff in H as [Hx Ha].
    apply N.eqb_eq in Hx. apply IH in Ha. now subst.
  - intros H. injection H as -> ->. rewrite N.eqb_refl. simpl. now apply IH.
Qed.

Lemma truthy_nonempty (s : pystr) : PyStr.truthy s = true <-> s <> [].
Proof. destruct s; simpl; split; easy. Qed.

(** ** The two merge steps *)

Import Photo.

Ltac case_truthy :=
  repeat match goal with
  | |- context [if truthy ?v then _ else _] => destruct (truthy v) eqn:?
  | |- context [if ?a && ?b then _ else _] => destruct (a && b) eqn:?
  end.

Lemma merge_caption_name (A B : ProductInfo) :
  name (merge_caption A B) = if truthy (name B) then name B else name A.
Proof. unfold merge_caption. case_truthy; reflexivity. Qed.

Lemma merge_caption_price (A B : ProductInfo) :
  price (merge_caption A B) = if truthy (price B) then price B else price A.
Proof. unfold merge_caption. case_truthy; reflexivity. Qed.

Lemma merge_caption_category (A B : ProductInfo) :
  category (merge_caption A B) = if truthy (category B) then category B else category A.
Proof. unfold merge_caption. case_truthy; reflexivity. Qed.

Lemma merge_caption_description (A B : ProductInfo) :
  description (merge_caption A B) =
    if truthy (description B) then
      if truthy (description A)
      then PStr (py_str (description A) ++ u ". " ++ py_str (description B))
      else description B
    else description A.
Proof.
  unfold merge_caption.
  destruct (truthy (name B)), (truthy (price B)), (truthy (category B)),
    (truthy (description B)); cbn; try reflexivity;
    destruct (truthy (description A)); reflexivity.
Qed.

Lemma truthy_joined (a b : pystr) : truthy (PStr (a ++ u ". " ++ b)) = true.
Proof. cbn. destruct a; reflexivity. Qed.

Lemma merge_caption_field (A B : ProductInfo) (f : ProductInfo -> pyval) :
  In f caption_fields ->
  (truthy (f A) || truthy (f B) = true -> truthy (f (merge_caption A B)) = true)
  /\ (truthy (f B) = false -> f (merge_caption A B) = f A).
Proof.
  intros Hf. cbn in Hf.
  destruct Hf as [<- | [<- | [<- | [<- | []]]]].
  - rewrite merge_caption_name. destruct (truthy (name B)) eqn:E; split; try easy.
    now rewrite orb_false_r.
  - rewrite merge_caption_price. destruct (truthy (price B)) eqn:E; split; try easy.
    now rewrite orb_false_r.
  - rewrite merge_caption_description.
    destruct (truthy (description B)) eqn:E; split; try easy.
    + intros _. destruct (truthy (description A)); [apply truthy_joined | exact E].
    + now rewrite orb_false_r.
  - rewrite merge_caption_category. destruct (truthy (category B)) eqn:E; split; try easy.
    now rewrite orb_false_r.
Qed.

Lemma merge_text_unfold (d e : gmap string pyval) :
  merge_text d e =
    upd e "size" (upd e "color" (upd e "category"
      (upd_description e (upd e "price" (upd e "name" d))))).
Proof. reflexivity. Qed.

Lemma upd_lookup_ne (e d : gmap string pyval) (k k' : string) :
  k <> k' -> upd e k d !! k' = d !! k'.
Proof. intros H. unfold upd. destruct (truthy _); [now rewrite lookup_insert_ne | easy]. Qed.

Lemma upd_lookup_eq (e d : gmap string pyval) (k : string) :
  upd e k d !! k = if truthy (dget e k PNone) then Some (dget e k PNone) else d !! k.
Proof. unfold upd. destruct (truthy _); [now rewrite lookup_insert_eq | easy]. Qed.

Lemma upd_description_lookup_ne (e d : gmap string pyval) (k' : string) :
  "description"%string <> k' -> upd_description e d !! k' = d !! k'.
Proof.
  intros H. unfold upd_description. cbv zeta.
  destruct (truthy _); [| easy]. destruct (_ && _); now rewrite lookup_insert_ne.
Qed.

Lemma merge_text_description (d e : gmap string pyval) :
  merge_text d e !! "description"%string =
    if truthy (dget e "description" PNone) then
      let current_desc := dget d "description" (PStr []) in
      if truthy current_desc && negb (eq_str current_desc (u "Не предоставлено"))
      then Some (PStr (py_str current_desc ++ u ". " ++ py_str (dget e "description" PNone)))
      else Some (dget e "description" PNone)
    else d !! "description"%string.
Proof.
  rewrite merge_text_unfold, !upd_lookup_ne by easy.
  assert (Hcur : dget (upd e "price" (upd e "name" d)) "description" (PStr [])
                 = dget d "description" (PStr [])).
  { unfold dget. now rewrite !upd_lookup_ne by easy. }
  unfold upd_description. cbv zeta. rewrite Hcur.
  destruct (truthy (dget e "description" PNone)).
  - destruct (_ && _); now rewrite lookup_insert_eq.
  - now rewrite !upd_lookup_ne by easy.
Qed.

Lemma merge_text_plain_key (d e : gmap string pyval) (k : string) :
  In k ["name"; "price"; "category"; "color"; "size"]%string ->
  merge_text d e !! k = if truthy (dget e k PNone) then Some (dget e k PNone) else d !! k.
Proof.
  intros Hk. rewrite merge_text_unfold. cbn in Hk.
  destruct Hk as [<- | [<- | [<- | [<- | [<- | []]]]]];
    repeat first [ rewrite upd_lookup_eq; destruct (truthy _) eqn:?; [reflexivity |]
                 | rewrite upd_lookup_ne by easy
                 | rewrite upd_description_lookup_ne by easy
                 | reflexivity ].
Qed.

Lemma merge_text_key (d e : gmap string pyval) (k : string) :
  In k text_keys ->
  (truthy (dget d k PNone) || truthy (dget e k PNone) = true ->
   truthy (dget (merge_text d e) k PNone) = true)
  /\ (truthy (dget e k PNone) = false -> merge_text d e !! k = d !! k).
Proof.
  intros Hk.
  assert (Hcase : k = "description"%string
                  \/ In k ["name"; "price"; "category"; "color"; "size"]%string).
  { cbn in Hk. cbn. intuition. }
  destruct Hcase as [-> | Hplain].
  - unfold dget at 3. rewrite merge_text_description. cbv zeta.
    destruct (truthy (dget e "description" PNone)) eqn:E; split; try easy.
    + intros _. destruct (_ && _); cbn [from_option id]; [apply truthy_joined | exact E].
    + now rewrite orb_false_r.
  - unfold dget at 3. rewrite (merge_text_plain_key d e k Hplain).
    destruct (truthy (dget e k PNone)) eqn:E; split; try easy.
    now rewrite orb_false_r.
Qed.

(** C3, as amended.  In both merge steps a field that the step copies is
    populated (true) in the result whenever it is populated on either side,
    and a field whose priority-side value is null or empty keeps the value
    it had: [merge_caption] copies the name, the price, the description and
    the category; [merge_text] copies these and the colour and the size. *)
Theorem C3_merge_keeps_populated_fields
    (A B : ProductInfo) (f : ProductInfo -> pyval)
    (d e : gmap string pyval) (k : string) :
  In f caption_fields -> In k text_keys ->
  ((truthy (f A) || truthy (f B) = true -> truthy (f (merge_caption A B)) = true)
   /\ (truthy (f B) = false -> f (merge_caption A B) = f A))
  /\ ((truthy (dget d k PNone) || truthy (dget e k PNone) = true ->
       truthy (dget (merge_text d e) k PNone) = true)
      /\ (truthy (dget e k PNone) = false -> merge_text d e !! k = d !! k)).
Proof.
  intros Hf Hk. split; [now apply merge_caption_field | now apply merge_text_key].
Qed.

(** C8, as amended.  When both descriptions are non-empty strings (and, in
    [merge_text], the stored one is not the placeholder), the merged
    description is the primary one, a full stop and a blank, and the
    secondary one. *)
Theorem C8_descriptions_concatenated
    (A B : ProductInfo) (d e : gmap string pyval) (a b : pystr) :
  a <> [] -> b <> [] ->
  (description A = PStr a -> description B = PStr b ->
   description (merge_caption A B) = PStr (a ++ u ". " ++ b))
  /\ (d !! "description"%string = Some (PStr a) ->
      e !! "description"%string = Some (PStr b) ->
      a <> u "Не предоставлено" ->
      merge_text d e !! "description"%string = Some (PStr (a ++ u ". " ++ b))).
Proof.
  intros Ha Hb. apply truthy_nonempty in Ha, Hb. split.
  - intros HA HB. rewrite merge_caption_description, HA, HB. cbn [truthy py_str].
    now rewrite Ha, Hb.
  - intros Hd He Hne. rewrite merge_text_description. unfold dget. rewrite Hd, He.
    cbn [from_option id truthy py_str eq_str]. rewrite Ha, Hb. cbn [andb].
    destruct (str_eqb a (u "Не предоставлено")) eqn:E; [| reflexivity].
    apply str_eqb_eq in E. contradiction.
Qed.

Lemma C3_merge_keeps_populated_fields_witness :
  In description caption_fields /\ In "color"%string text_keys
  /\ truthy (description (merge_caption bare_photo_info comfy_caption_info)) = true
  /\ merge_text (to_dict bare_photo_info) (to_dict comfy_caption_info) !! "color"%string
     = to_dict bare_photo_info !! "color"%string.
Proof.
  assert (Hf : In description caption_fields) by (cbn; tauto).
  assert (Hk : In "color"%string text_keys) by (cbn; tauto).
  split; [exact Hf |]. split; [exact Hk |].
  pose proof (C3_merge_keeps_populated_fields bare_photo_info comfy_caption_info description
                (to_dict bare_photo_info) (to_dict comfy_caption_info) "color" Hf Hk)
    as [[Hpop _] [_ Hkeep]].
  split; [apply Hpop; reflexivity | apply Hkeep; reflexivity].
Defined.

(** C3 as stated fails.  The photo analysis failed and left every field
    null; the answer of the text analyser to the caption has the empty string
    as its name, which is not null, and a colour.  In the merged record the
    name is null, because an empty value counts as absent, and the colour is
    null, because [process_product_photo] does not copy the colour. *)
Lemma C3_counterexample :
  analyze_product_image usual_limits AiRaises = Ok empty_info
  /\ _parse_ai_response usual_limits blue_caption_response = Ok blue_caption_info
  /\ process_product_photo usual_limits calls_ok (u "sk-or-v1") (Some (u "синие кеды"))
       AiRaises (AiReturns blue_caption_response)
     = Ok (merge_caption empty_info blue_caption_info)
  /\ name blue_caption_info <> PNone
  /\ name (merge_caption empty_info blue_caption_info) = PNone
  /\ color blue_caption_info <> PNone
  /\ color (merge_caption empty_info blue_caption_info) = PNone.
Proof.
  repeat split; try (vm_compute; reflexivity); discriminate.
Qed.

Lemma C8_descriptions_concatenated_witness :
  u "удобные" <> [] /\ u "лёгкие" <> []
  /\ description (merge_caption comfy_caption_info
                    (set_description (PStr (u "лёгкие")) comfy_caption_info))
     = PStr (u "удобные" ++ u ". " ++ u "лёгкие").
Proof.
  assert (Ha : u "удобные" <> []) by discriminate.
  assert (Hb : u "лёгкие" <> []) by discriminate.
  split; [exact Ha |]. split; [exact Hb |].
  exact (proj1 (C8_descriptions_concatenated comfy_caption_info
                  (set_description (PStr (u "лёгкие")) comfy_caption_info)
                  ∅ ∅ (u "удобные") (u "лёгкие") Ha Hb) eq_refl eq_refl).
Defined.

(** C8 as stated fails.  The photo analysis gives the empty string as its
    description, which is not null; the merged description is the caption's
    alone, not the two joined by a full stop.  And [merge_text] replaces the
    placeholder description instead of joining it. *)
Lemma C8_counterexample :
  _parse_vision_response usual_limits bare_photo_response = Ok bare_photo_info
  /\ _parse_ai_response usual_limits comfy_caption_response = Ok comfy_caption_info
  /\ description bare_photo_info <> PNone
  /\ description comfy_caption_info <> PNone
  /\ description (merge_caption bare_photo_info comfy_caption_info) = PStr (u "удобные")
  /\ PStr (u "удобные")
     <> PStr (py_str (description bare_photo_info) ++ u ". "
              ++ py_str (description comfy_caption_info))
  /\ merge_text (<["description" := PStr (u "Не предоставлено")]> ∅)
       (<["description" := PStr (u "удобные")]> ∅) !! "description"%string
     = Some (PStr (u "удобные")).
Proof.
  repeat split; try (vm_compute; reflexivity); discriminate.
Qed.

(** ** The text analyser *)

Ltac case_res :=
  repeat match goal with
  | |- context [match ?x with Ok _ => _ | Raise _ => _ end] => destruct x eqn:?
  end.

Lemma basic_info_name (text : pystr) : name (_extract_basic_info text) <> PNone.
Proof.
  unfold _extract_basic_info.
  destruct (split_chr 10 text); destruct (basic_price price_patterns text); cbn; discriminate.
Qed.

(** C4, as amended.  [extract_product_info] always returns a record.  When
    the remote call raises, the record is the one that [_extract_basic_info]
    reads from the text, whose name is never null.  When the call returns a
    text in which no JSON is found, the record is the all-null one.  When
    [json.loads] raises on the answer something else than
    [json.JSONDecodeError] (arrays nested too deep, an integer of too many
    digits), [extract_json_from_text] does not catch it, and the record is
    again the one of [_extract_basic_info]. *)
Theorem C4_extract_product_info_returns (L : Json.limits) (text : pystr) (ai : ai_outcome) :
  exists r,
    extract_product_info L text ai = Ok r
    /\ (ai = AiRaises -> r = _extract_basic_info text /\ name r <> PNone)
    /\ (forall s, ai = AiReturns (PStr s) -> extract_json_from_text L s = Ok PNone ->
        r = empty_info)
    /\ (forall s e, ai = AiReturns (PStr s) -> extract_json_from_text L s = Raise e ->
        e <> JSONDecodeError
        /\ r = _extract_basic_info text /\ name r <> PNone).
Proof.
  unfold extract_product_info. destruct ai as [| content]; cbn [ai_call mbind res_bind catch].
  - eexists. split; [reflexivity |]. split; [| split; discriminate].
    intros _. split; [reflexivity | apply basic_info_name].
  - destruct (_parse_ai_response L content) as [r |] eqn:E; cbn [catch].
    + exists r. split; [reflexivity |]. split; [discriminate |]. split.
      * intros s Hs Hnone. injection Hs as ->.
        cbn [_parse_ai_response] in E. rewrite Hnone in E. cbn in E. congruence.
      * intros s e' Hs Hraise. injection Hs as ->.
        cbn [_parse_ai_response] in E. rewrite Hraise in E. discriminate.
    + eexists. split; [reflexivity |]. split; [discriminate |]. split.
      * intros s Hs Hnone. injection Hs as ->.
        cbn [_parse_ai_response] in E. rewrite Hnone in E. cbn in E. discriminate.
      * intros s e' Hs Hraise. split; [exact (extract_raises _ _ _ Hraise) |].
        split; [reflexivity | apply basic_info_name].
Qed.

Lemma C4_extract_product_info_returns_witness :
  exists r,
    extract_product_info usual_limits (u "Кеды 3400 руб")
      (AiReturns (PStr (u "Не могу помочь"))) = Ok r
    /\ r = empty_info.
Proof.
  destruct (C4_extract_product_info_returns usual_limits (u "Кеды 3400 руб")
              (AiReturns (PStr (u "Не могу помочь")))) as [r [Hr [_ [Hnull _]]]].
  exists r. split; [exact Hr |].
  apply (Hnull (u "Не могу помочь")); [reflexivity | vm_compute; reflexivity].
Defined.

(** C4 as stated fails: when the remote call raises, the record that comes
    back holds the first line of the text as its name, the text as its
    description and the price read from it; and so it does when the answer
    is a run of opening brackets longer than the decoder can follow. *)
Lemma C4_counterexample :
  extract_product_info usual_limits (u "Кеды 3400 руб") AiRaises
    = Ok (mkProductInfo (PStr (u "Кеды 3400 руб")) (PStr (u "3400₽"))
            (PStr (u "Кеды 3400 руб")) PNone PNone PNone PNone)
  /\ mkProductInfo (PStr (u "Кеды 3400 руб")) (PStr (u "3400₽"))
       (PStr (u "Кеды 3400 руб")) PNone PNone PNone PNone <> empty_info
  /\ extract_json_from_text usual_limits (repeat 91 2000) = Raise RecursionError
  /\ extract_product_info usual_limits (u "Кеды 3400 руб") (AiReturns (PStr (repeat 91 2000)))
     = Ok (mkProductInfo (PStr (u "Кеды 3400 руб")) (PStr (u "3400₽"))
             (PStr (u "Кеды 3400 руб")) PNone PNone PNone PNone).
Proof.
  split; [vm_compute; reflexivity |]. split; [discriminate |].
  split; vm_compute; reflexivity.
Qed.

(** ** Prefixes and suffixes *)

Lemma starts_with_app (p s : pystr) : starts_with p (p ++ s) = true.
Proof. induction p as [| x p IH]; cbn; [reflexivity |]. now rewrite N.eqb_refl. Qed.

Lemma ends_with_app (p s : pystr) : ends_with p (s ++ p) = true.
Proof. unfold ends_with. rewrite rev_app_distr. apply starts_with_app. Qed.

Lemma ends_with_app_r (p a b : pystr) : ends_with p b = true -> ends_with p (a ++ b) = true.
Proof.
  unfold ends_with. rewrite rev_app_distr. generalize (rev p) (rev b) (rev a).
  intros x. induction x as [| c x IH]; intros y z H; [reflexivity |].
  destruct y as [| d y]; [discriminate |]. cbn in *.
  apply andb_true_iff in H as [-> H]. cbn. now apply IH.
Qed.

(** ** The matcher never misses a digit *)

Definition total_k {A} (k : mstate -> option A) : Prop := forall st, k st <> None.

Lemma star_greedy_total {A} (p : N -> bool) (s : pystr) :
  forall prev g (k : mstate -> option A), total_k k -> star_greedy p prev s g k <> None.
Proof.
  induction s as [| c r IH]; intros prev g k Hk; cbn; [apply Hk |].
  destruct (p c); [| apply Hk].
  destruct (star_greedy p (Some c) r g k) eqn:E; [discriminate |].
  now apply IH in E.
Qed.

Lemma number_pattern_at_digit (prev : option N) (c : N) (r : pystr) :
  is_digit c = true -> match_here number_pattern prev (c :: r) <> None.
Proof.
  intros Hc. unfold match_here, number_pattern, Plus, Opt. cbn [run ms_rest ms_prev ms_grp].
  rewrite Hc. apply star_greedy_total. intros [pv rs gp].
  cbn [run ms_rest ms_prev ms_grp].
  assert (Hk : forall pv' rs' gp', star_greedy is_digit pv' rs' gp' (@Some mstate) <> None).
  { intros. apply star_greedy_total. intros ?; discriminate. }
  destruct rs as [| x rest]; [apply Hk |].
  destruct (one_of (u ".,") x); [| apply Hk].
  match goal with |- match ?e with _ => _ end <> None => destruct e eqn:E end;
    [discriminate | apply Hk].
Qed.

Lemma search_number_none (s : pystr) :
  forall prev pre, search_aux number_pattern prev pre s = None -> has_digit s = false.
Proof.
  induction s as [| c r IH]; intros prev pre H; [reflexivity |].
  cbn [search_aux] in H.
  destruct (match_here number_pattern prev (c :: r)) eqn:E; [discriminate |].
  cbn. destruct (is_digit c) eqn:Hc.
  - exfalso. now apply (number_pattern_at_digit prev c r Hc).
  - cbn. exact (IH _ _ H).
Qed.

Lemma findall_number_nil (s : pystr) : findall number_pattern s = [] -> has_digit s = false.
Proof.
  unfold findall, finditer. cbn [finditer_aux]. unfold search_at.
  destruct (search_aux number_pattern None [] s) as [m |] eqn:E.
  - destruct (m_text m); [destruct (m_post m) |]; discriminate.
  - intros _. exact (search_number_none s _ _ E).
Qed.

(** ** The price *)

Lemma format_price_shape (v : pyval) :
  format_price v = [] \/ carries_marker (format_price v) = true
  \/ has_digit (format_price v) = false.
Proof.
  unfold format_price.
  destruct (negb (truthy v)); [now left |].
  destruct (_ || _); [now left |].
  destruct (findall number_pattern (strip (py_str v))) as [| n0 ns] eqn:E.
  - right. right. now apply findall_number_nil.
  - right. left. unfold carries_marker.
    repeat match goal with
    | |- context [if ?c then _ else _] => destruct c
    end;
    rewrite ?ends_with_app, ?starts_with_app, ?orb_true_r; reflexivity.
Qed.

Lemma try_patterns_some (ps : list re) (text p : pystr) :
  Description.try_patterns ps text = Some p ->
  exists before pattern after m,
    p = amount_of m ++ u " ₽" /\ ps = before ++ pattern :: after
    /\ Forall (fails text) before /\ passes text pattern m.
Proof.
  induction ps as [| pattern ps IH]; cbn [Description.try_patterns]; [discriminate |].
  intros H.
  assert (Hrest : fails text pattern -> Description.try_patterns ps text = Some p ->
                  exists before pattern' after m,
                    p = amount_of m ++ u " ₽" /\ pattern :: ps = before ++ pattern' :: after
                    /\ Forall (fails text) before /\ passes text pattern' m).
  { intros Hfail H'. destruct (IH H') as [before [q [after [m [Hp [Hps [Hb Hq]]]]]]].
    exists (pattern :: before), q, after, m.
    split; [exact Hp |]. split; [now rewrite Hps |]. split; [now constructor | exact Hq]. }
  destruct (search pattern text) as [m |] eqn:Es; [| apply Hrest; [now left | exact H]].
  destruct (float_ok (Description.normalize_amount (m_grp m))) eqn:Ef.
  - injection H as <-. exists [], pattern, ps, m.
    split; [reflexivity |]. split; [reflexivity |]. split; [constructor |].
    split; [exact Es | exact Ef].
  - apply Hrest; [right; eauto | exact H].
Qed.

Lemma try_patterns_none (ps : list re) (text : pystr) :
  Description.try_patterns ps text = None <-> Forall (fails text) ps.
Proof.
  induction ps as [| pattern ps IH]; cbn [Description.try_patterns].
  { split; [constructor | reflexivity]. }
  split.
  - destruct (search pattern text) as [m |] eqn:Es.
    + destruct (float_ok (Description.normalize_amount (m_grp m))) eqn:Ef; [discriminate |].
      intros H. constructor; [right; eauto | now apply IH].
    + intros H. constructor; [now left | now apply IH].
  - intros H. inversion H as [| ? ? [Hnone | [m [Hm Hf]]] Hrest]; subst.
    + rewrite Hnone. now apply IH.
    + rewrite Hm. unfold amount_of in Hf. unfold Description.normalize_amount.
      rewrite Hf. now apply IH.
Qed.

(** The first pattern that passes gives the price. *)
Lemma try_patterns_first (before after : list re) (pattern : re) (text : pystr) (m : rmatch) :
  Forall (fails text) before -> passes text pattern m ->
  Description.try_patterns (before ++ pattern :: after) text = Some (amount_of m ++ u " ₽").
Proof.
  intros Hb [Hm Hf]. induction Hb as [| q before [Hnone | [m' [Hm' Hf']]] _ IH];
    cbn [app Description.try_patterns].
  - rewrite Hm. unfold amount_of in Hf. unfold Description.normalize_amount. now rewrite Hf.
  - now rewrite Hnone.
  - rewrite Hm'. unfold amount_of in Hf'. unfold Description.normalize_amount.
    now rewrite Hf'.
Qed.

Lemma description_price_shape (text : pystr) :
  Description.extract_price_from_text text = PNone
  \/ exists num, Description.extract_price_from_text text = PStr (num ++ u " ₽").
Proof.
  unfold Description.extract_price_from_text.
  destruct (negb (PyStr.truthy text)); [now left |].
  destruct (Description.try_patterns Description.patterns text) as [p |] eqn:E.
  - right. destruct (try_patterns_some _ _ _ E) as [? [? [? [m [-> _]]]]]. eauto.
  - destruct (findall_grp Description.fallback_pattern text); [now left | right; eauto].
Qed.

Lemma photo_price_shape (text : pystr) :
  Photo.extract_price_from_text text = PNone
  \/ exists num, Photo.extract_price_from_text text = PStr (num ++ u " ₽").
Proof.
  unfold Photo.extract_price_from_text.
  destruct (negb (PyStr.truthy text)); [now left |].
  destruct (Description.try_patterns Photo.patterns (strip (lower text))) as [p |] eqn:E.
  - right. destruct (try_patterns_some _ _ _ E) as [? [? [? [m [-> _]]]]]. eauto.
  - now left.
Qed.

Lemma basic_price_shape (ps : list re) (text : pystr) :
  basic_price ps text = PNone \/ exists num, basic_price ps text = PStr (num ++ u "₽").
Proof.
  induction ps as [| pattern ps IH]; cbn [basic_price]; [now left |].
  destruct (search pattern text) as [m |]; [| exact IH].
  destruct (findall (Plus is_digit) (m_text m)); [exact IH | right; eauto].
Qed.

Lemma truthy_price (num : pystr) : truthy (PStr (num ++ u " ₽")) = true.
Proof. cbn. destruct num; reflexivity. Qed.

Lemma locally_price (text : pystr) :
  text <> [] ->
  price (Description.extract_product_info_locally text)
    = Description.extract_price_from_text (strip text).
Proof.
  intros Hne. apply truthy_nonempty in Hne.
  unfold Description.extract_product_info_locally. rewrite Hne. cbn [negb].
  cbv zeta.
  repeat match goal with
  | |- context [let '(_, _) := ?e in _] => destruct e
  end.
  cbn [price].
  destruct (description_price_shape (strip text)) as [-> | [num ->]]; [reflexivity |].
  now rewrite truthy_price.
Qed.

(** C1, as amended.  A price set by the heuristic extractors (the two
    [extract_price_from_text] and [_extract_basic_info]) is a string that
    ends in the rouble sign.  A price set by the text parser of the AI
    answer is a string that is empty, or carries a currency marker (the
    rouble sign at its end, the dollar or euro sign at its start), or holds
    no digit. *)
Theorem C1_price_marker :
  (forall text,
     price (Description.extract_product_info_locally text) = PNone
     \/ exists p, price (Description.extract_product_info_locally text) = PStr p
          /\ ends_with (u "₽") p = true)
  /\ (forall text,
        Photo.extract_price_from_text text = PNone
        \/ exists p, Photo.extract_price_from_text text = PStr p
             /\ ends_with (u "₽") p = true)
  /\ (forall text,
        price (_extract_basic_info text) = PNone
        \/ exists p, price (_extract_basic_info text) = PStr p
             /\ ends_with (u "₽") p = true)
  /\ (forall L response r,
        _parse_ai_response L response = Ok r ->
        price r = PNone
        \/ exists p, price r = PStr p
             /\ (p = [] \/ carries_marker p = true \/ has_digit p = false)).
Proof.
  repeat split.
  - intros text. destruct text as [| c text]; [now left |].
    rewrite locally_price by discriminate.
    destruct (description_price_shape (strip (c :: text))) as [-> | [num ->]]; [now left |].
    right. eexists. split; [reflexivity |].
    apply ends_with_app_r. reflexivity.
  - intros text.
    destruct (photo_price_shape text) as [-> | [num ->]]; [now left |].
    right. eexists. split; [reflexivity |]. apply ends_with_app_r. reflexivity.
  - intros text. unfold _extract_basic_info. cbv zeta.
    destruct (basic_price_shape price_patterns text) as [-> | [num ->]]; [now left |].
    right. eexists. split; [reflexivity |]. apply ends_with_app.
  - intros L response r H. unfold _parse_ai_response in H.
    destruct response; try discriminate.
    destruct (extract_json_from_text L s) as [data | e]; [| discriminate].
    cbn [mbind res_bind] in H.
    destruct (truthy data); [| injection H as <-; now left].
    unfold mbind, res_bind in H. cbn beta iota in H. revert H.
    case_res; try discriminate.
    intros H. injection H as <-. cbn [price]. right. eexists. split; [reflexivity |].
    apply format_price_shape.
Qed.

Lemma C1_price_marker_witness :
  _parse_ai_response usual_limits dollar_response
    = Ok (mkProductInfo (PStr (u "Кеды")) (PStr (u "$100")) (PStr []) (PStr [])
            (PStr []) (PStr []) (PDict []))
  /\ (PStr (u "$100") = PNone
      \/ exists p, PStr (u "$100") = PStr p
           /\ (p = [] \/ carries_marker p = true \/ has_digit p = false)).
Proof.
  assert (H : _parse_ai_response usual_limits dollar_response
              = Ok (mkProductInfo (PStr (u "Кеды")) (PStr (u "$100")) (PStr []) (PStr [])
                      (PStr []) (PStr []) (PDict []))) by (vm_compute; reflexivity).
  split; [exact H |].
  exact (proj2 (proj2 (proj2 C1_price_marker)) _ _ _ H).
Defined.

(** C1 as stated fails: the vision parser keeps the price as the AI wrote it,
    here a bare number; and [format_price] writes the dollar sign before the
    number, so the price of the text parser ends in a digit. *)
Lemma C1_counterexample :
  _parse_vision_response usual_limits priced_photo_response
    = Ok (mkProductInfo (PStr (u "Кеды")) (PStr (u "1500")) (PStr []) (PStr [])
            (PStr []) (PStr []) (PDict []))
  /\ ends_with_marker (u "1500") = false
  /\ _parse_ai_response usual_limits dollar_response
       = Ok (mkProductInfo (PStr (u "Кеды")) (PStr (u "$100")) (PStr []) (PStr [])
               (PStr []) (PStr []) (PDict []))
  /\ ends_with_marker (u "$100") = false.
Proof. repeat split; vm_compute; reflexivity. Qed.

(** ** The length of the description *)

Lemma sanitize_text_capped (s t : pystr) :
  sanitize_text (PStr s) (Some 500%Z) = Ok t ->
  (len t <= 500)%nat
  /\ ((500 < len (strip (collapse_spaces s)))%nat ->
      t = take 497 (strip (collapse_spaces s)) ++ u "...").
Proof.
  destruct s as [| c s].
  - intros H. injection H as <-. split; [cbn; lia | vm_compute; lia].
  - unfold sanitize_text. change (negb (truthy (PStr (c :: s)))) with false. cbn match.
    set (text := strip (collapse_spaces (c :: s))).
    destruct (negb (500 =? 0)%Z && (500 <? Z.of_nat (len text))%Z) eqn:E.
    + intros H. injection H as <-. split; [| reflexivity].
      unfold len. rewrite length_app. unfold slice_to. cbn [Z.leb Z.sub Z.add Z.compare].
      change (0 <=? 500 - 3)%Z with true. cbn match.
      rewrite length_take. change (length (u "...")) with 3%nat. lia.
    + intros H. injection H as <-. cbn [negb andb Z.eqb] in E.
      apply Z.ltb_ge in E. unfold len in *. split; lia.
Qed.

Lemma sanitize_text_description (v : pyval) (t : pystr) :
  sanitize_text v (Some 500%Z) = Ok t -> (len t <= 500)%nat.
Proof.
  destruct v; try (cbn; intros H; first [discriminate | injection H as <-; cbn; lia]);
    try (unfold sanitize_text; destruct (negb _); intros H;
         first [discriminate | injection H as <-; cbn; lia]).
  apply sanitize_text_capped.
Qed.

(** C2, as amended.  In a record made by one of the two parsers of AI
    answers the description is at most 500 characters long; [sanitize_text]
    cuts a longer text (after collapsing its white space) to its first 497
    characters and three dots. *)
Theorem C2_ai_description_capped (L : Json.limits) (response : pyval) (r : ProductInfo) :
  _parse_ai_response L response = Ok r \/ _parse_vision_response L response = Ok r ->
  (description r = PNone
   \/ exists d, description r = PStr d /\ (len d <= 500)%nat)
  /\ (forall s t,
        sanitize_text (PStr s) (Some 500%Z) = Ok t ->
        (len t <= 500)%nat
        /\ ((500 < len (strip (collapse_spaces s)))%nat ->
            t = take 497 (strip (collapse_spaces s)) ++ u "...")).
Proof.
  intros H. split; [| apply sanitize_text_capped].
  destruct H as [H | H].
  - unfold _parse_ai_response in H. destruct response; try discriminate.
    destruct (extract_json_from_text L s) as [data | e]; [| discriminate].
    cbn [mbind res_bind] in H.
    destruct (truthy data); [| injection H as <-; now left].
    unfold mbind, res_bind in H. cbn beta iota in H. revert H.
    case_res; try discriminate.
    intros H. injection H as <-. cbn [description]. right. eexists.
    split; [reflexivity |].
    match goal with
    | E : sanitize_text _ (Some 500%Z) = Ok _ |- _ => exact (sanitize_text_description _ _ E)
    end.
  - unfold _parse_vision_response in H. destruct response; try discriminate.
    destruct (extract_json_from_text L s) as [data | e]; [| discriminate].
    cbn [mbind res_bind] in H.
    destruct (truthy data); [| injection H as <-; now left].
    unfold mbind, res_bind in H. cbn beta iota in H. revert H.
    case_res; try discriminate.
    intros H. injection H as <-. cbn [description]. right. eexists.
    split; [reflexivity |].
    match goal with
    | E : sanitize_text _ (Some 500%Z) = Ok _ |- _ => exact (sanitize_text_description _ _ E)
    end.
Qed.

Lemma C2_ai_description_capped_witness :
  (_parse_ai_response usual_limits long_response = Ok long_record
   \/ _parse_vision_response usual_limits long_response = Ok long_record)
  /\ (description long_record = PNone
      \/ exists d, description long_record = PStr d /\ (len d <= 500)%nat).
Proof.
  assert (H : _parse_ai_response usual_limits long_response = Ok long_record
              \/ _parse_vision_response usual_limits long_response = Ok long_record).
  { left. vm_compute. reflexivity. }
  split; [exact H |].
  exact (proj1 (C2_ai_description_capped usual_limits long_response long_record H)).
Defined.

(** C2 as stated fails: the heuristic extractor joins what is left of the
    text into the description without a cap (here 639 characters), and the
    merge step joins two descriptions, each within the cap, into one of 1002
    characters. *)
Lemma C2_counterexample :
  (exists d, description (Description.extract_product_info_locally long_text) = PStr d
             /\ len d = 639%nat)
  /\ (exists d, description (Photo.merge_caption long_record long_record) = PStr d
                /\ len d = 1002%nat).
Proof.
  split; eexists; (split; [vm_compute; reflexivity | vm_compute; reflexivity]).
Qed.

(** ** The layout *)

Local Open Scope Z_scope.

Lemma draw_lines_In (lines : list pystr) (x step : Z) (fill : rgb) (f : font) :
  forall (y : Z) (i : nat) (line : pystr),
    lines !! i = Some line ->
    In (Text x (y + step * Z.of_nat i) line fill f) (fst (draw_lines lines x y step fill f)).
Proof.
  induction lines as [| l lines IH]; intros y i line H; [discriminate |].
  cbn [draw_lines]. specialize (IH (y + step)).
  destruct (draw_lines lines x (y + step) step fill f) as [ops y'] eqn:E.
  cbn [fst] in *. destruct i as [| i].
  - injection H as ->. left. f_equal. lia.
  - right. cbn in H. specialize (IH i line H).
    replace (y + step * Z.of_nat (S i)) with (y + step + step * Z.of_nat i) by lia.
    exact IH.
Qed.

Lemma draw_lines_snd (lines : list pystr) (x step : Z) (fill : rgb) (f : font) :
  forall y, snd (draw_lines lines x y step fill f) = y + step * Z.of_nat (length lines).
Proof.
  induction lines as [| l lines IH]; intros y; cbn [draw_lines length].
  - cbn. lia.
  - specialize (IH (y + step)).
    destruct (draw_lines lines x (y + step) step fill f) as [ops y'].
    cbn [snd] in *. lia.
Qed.

Lemma draw_lines_clear (region : Z * Z) (lines : list pystr) (x step : Z) (fill : rgb)
    (f : font) :
  0 <= step ->
  forall y, snd region <= y ->
    Forall (fun op => is_paste op = false /\ clear_of region op = true)
           (fst (draw_lines lines x y step fill f)).
Proof.
  intros Hstep. induction lines as [| l lines IH]; intros y Hy; cbn [draw_lines].
  - constructor.
  - specialize (IH (y + step) ltac:(lia)).
    destruct (draw_lines lines x (y + step) step fill f) as [ops y'].
    cbn [fst] in *. constructor; [| exact IH].
    split; [reflexivity |]. cbn. now apply Z.leb_le.
Qed.

Lemma draw_lines_pair (lines : list pystr) (x y step : Z) (fill : rgb) (f : font) :
  draw_lines lines x y step fill f
    = (fst (draw_lines lines x y step fill f), y + step * Z.of_nat (length lines)).
Proof.
  rewrite <- (draw_lines_snd lines x step fill f y).
  now destruct (draw_lines lines x y step fill f).
Qed.

Lemma photo_step_no_photo (W : world) (tw th y cw : Z) (url : pystr) :
  download_image_sync W url = None ->
  photo_step W (PStr url) tw th y cw = Ok ([], None).
Proof.
  intros H. unfold photo_step. rewrite H. now destruct (PyStr.truthy url).
Qed.

Ltac exec_title :=
  match goal with
  | |- context [draw_lines (take 2 ?l) ?x ?y ?s ?fl ?f] =>
    let E := fresh "Etitle" in
    let ops := fresh "title_ops" in
    let y1 := fresh "y1" in
    destruct (draw_lines (take 2 l) x y s fl f) as [ops y1] eqn:E;
    apply (f_equal snd) in E; rewrite draw_lines_snd in E; cbn [snd] in E; subst y1
  end.

Lemma render_ops (W : world) (t : template) (product_name price description category : pystr)
    (size product_image_url : pyval) (c : canvas) :
  render W t product_name price description category size product_image_url = Ok c ->
  exists photo_ops photo_height before after,
    photo_step W product_image_url
      (match t with Marketplace => 800 | _ => 720 end) 350
      (match t with Marketplace => 0 | _ => 20 end) 800 = Ok (photo_ops, photo_height)
    /\ c_ops c = before ++
         (if PyStr.truthy description
          then fst (draw_lines (_wrap_text description (description_budget t)) 40
                      (description_top t (length (take 2 (_wrap_text product_name 40)))
                         photo_height)
                      (line_step t) (text_color (config_of t)) (body_font_of W t))
          else []) ++ after.
Proof.
  unfold render, body_font_of.
  destruct t; cbn [config_of description_budget line_step description_top];
    [unfold minimal_render | unfold dark_render | unfold marketplace_render];
    (destruct (load_fonts W _) as [[title_font body_font] price_font];
     cbn [fst snd width height text_color accent_color background_color
          minimal_config dark_config marketplace_config];
     change (800 - 80) with 720;
     match goal with
     | |- context [photo_step ?a ?b ?c ?d ?e ?f] =>
       destruct (photo_step a b c d e f) as [[photo_ops photo_height] |] eqn:Ephoto
     end; unfold mbind, res_bind; cbn beta iota; [| discriminate];
     cbn [fst snd]; exec_title;
     intros Hcanvas; exists photo_ops, photo_height;
     destruct (PyStr.truthy description);
     [ match type of Hcanvas with
       | context [draw_lines (_wrap_text description ?w) ?x ?y ?s ?fl ?f] =>
         rewrite (draw_lines_pair (_wrap_text description w) x y s fl f) in Hcanvas
       end
     | ];
     cbn beta iota in Hcanvas; injection Hcanvas as <-; cbn [c_ops fst]).
  1,2: eexists (photo_ops ++ _ :: title_ops), _; (split; [reflexivity |]);
       rewrite <- app_assoc; reflexivity.
  1,2: eexists (_ :: photo_ops ++ _ :: title_ops), _; (split; [reflexivity |]);
       cbn [app]; rewrite <- app_assoc; reflexivity.
  1,2: eexists (photo_ops ++ _ :: _ :: title_ops), _; (split; [reflexivity |]);
       rewrite <- app_assoc; reflexivity.
Qed.

(** C6, as amended.  Every line of the wrapped description is drawn: line
    [i] at [line_step] times [i] below the first, wherever the price banner
    starts.  From the fourteenth line on, a description line is written at
    or below the top of the price banner, in each of the three templates. *)
Theorem C6_description_lines_all_drawn
    (W : world) (t : template) (product_name price description category : pystr)
    (size product_image_url : pyval) (c : canvas) :
  render W t product_name price description category size product_image_url = Ok c ->
  description <> [] ->
  exists photo_height,
    let top := description_top t (length (take 2 (_wrap_text product_name 40))) photo_height in
    (forall (i : nat) (line : pystr),
       _wrap_text description (description_budget t) !! i = Some line ->
       In (Text 40 (top + line_step t * Z.of_nat i) line
             (text_color (config_of t)) (body_font_of W t)) (c_ops c))
    /\ (forall (i : nat) (line : pystr),
          _wrap_text description (description_budget t) !! i = Some line ->
          (13 <= i)%nat ->
          exists y, banner_top t <= y
            /\ In (Text 40 y line (text_color (config_of t)) (body_font_of W t)) (c_ops c)).
Proof.
  intros Hrender Hne.
  destruct (render_ops _ _ _ _ _ _ _ _ _ Hrender)
    as [photo_ops [photo_height [before [after [_ Hops]]]]].
  apply truthy_nonempty in Hne. rewrite Hne in Hops.
  exists photo_height. cbv zeta.
  assert (Hall : forall (i : nat) (line : pystr),
            _wrap_text description (description_budget t) !! i = Some line ->
            In (Text 40 (description_top t (length (take 2 (_wrap_text product_name 40)))
                           photo_height + line_step t * Z.of_nat i) line
                  (text_color (config_of t)) (body_font_of W t)) (c_ops c)).
  { intros i line Hi. rewrite Hops. apply in_or_app. right. apply in_or_app. left.
    now apply draw_lines_In. }
  split; [exact Hall |].
  intros i line Hi Hlate. eexists. split; [| exact (Hall i line Hi)].
  destruct t; cbn [banner_top description_top line_step height minimal_config dark_config
                   marketplace_config]; lia.
Qed.


Lemma C6_description_lines_all_drawn_witness :
  exists c,
    render offline_world Minimal (u "Кеды") (u "3400 ₽") sturdy_description (u "Обувь")
      PNone PNone = Ok c
    /\ sturdy_description <> []
    /\ exists photo_height,
         forall (i : nat) (line : pystr),
           _wrap_text sturdy_description 55 !! i = Some line ->
           In (Text 40 (description_top Minimal
                          (length (take 2 (_wrap_text (u "Кеды") 40))) photo_height
                        + 28 * Z.of_nat i) line (40, 40, 40) DefaultFont) (c_ops c).
Proof.
  eexists. split; [vm_compute; reflexivity |].
  split; [discriminate |].
  match goal with
  | |- context [c_ops ?c] =>
    destruct (C6_description_lines_all_drawn offline_world Minimal (u "Кеды") (u "3400 ₽")
                sturdy_description (u "Обувь") PNone PNone c)
      as [photo_height [Hall _]]
  end.
  - vm_compute. reflexivity.
  - discriminate.
  - exists photo_height. exact Hall.
Defined.

(** C6 as stated fails: in the dark template the tenth line of a description
    of 493 characters is written at row 727, below the top of the price
    banner at row 720, and after it only the price and the footer line are
    drawn, so nothing covers it.  The minimal template writes the same line
    at the same row. *)
Lemma C6_counterexample :
  len sturdy_description = 493%nat
  /\ _wrap_text sturdy_description 55 !! 9%nat = Some (u "сверхпрочный сверхпрочный")
  /\ banner_top Dark = 720 /\ banner_top Minimal = 720
  /\ (exists before,
        render offline_world Dark (u "Кеды") (u "3400 ₽") sturdy_description (u "Обувь")
          PNone PNone
        = Ok (mkCanvas 800 800 (20, 20, 30)
                (before ++
                 [Text 40 727 (u "сверхпрочный сверхпрочный") (240, 240, 240) DefaultFont;
                  Text 40 720 (u "3400 ₽") (255, 100, 100) DefaultFont;
                  Rectangle 0 795 800 800 (255, 100, 100)])))
  /\ (exists c,
        render offline_world Minimal (u "Кеды") (u "3400 ₽") sturdy_description (u "Обувь")
          PNone PNone = Ok c
        /\ In (Text 40 727 (u "сверхпрочный сверхпрочный") (40, 40, 40) DefaultFont)
              (c_ops c)).
Proof.
  split; [vm_compute; reflexivity |].
  split; [vm_compute; reflexivity |].
  split; [reflexivity |]. split; [reflexivity |]. split.
  - eexists (_ :: _ :: _ :: _ :: _ :: _ :: _ :: _ :: _ :: _ :: _ :: _ :: []).
    vm_compute. reflexivity.
  - eexists. split; [vm_compute; reflexivity |].
    vm_compute. do 11 right. left. reflexivity.
Qed.

(** ** Rendering without a photo *)

Lemma size_line_clear (region : Z * Z) (label : pystr) (size : pyval) (y gap : Z)
    (fill : rgb) (f : font) :
  snd region <= y + gap ->
  Forall (fun op => is_paste op = false /\ clear_of region op = true)
         (size_line label size y gap fill f).
Proof.
  intros H. unfold size_line. destruct (truthy size); constructor; [| constructor].
  split; [reflexivity |]. cbn. now apply Z.leb_le.
Qed.

Ltac solve_clear :=
  repeat first
    [ apply Forall_app; split
    | apply draw_lines_clear; cbn [snd]; lia
    | apply size_line_clear; cbn [snd]; lia
    | constructor ].

Lemma render_without_photo_clear (W : world) (t : template)
    (product_name price description category : pystr) (size : pyval) :
  exists c,
    render W t product_name price description category size PNone = Ok c
    /\ Forall (fun op => is_paste op = false /\ clear_of (photo_region t) op = true) (c_ops c).
Proof.
  unfold render.
  destruct t; cbn [photo_region];
    [unfold minimal_render | unfold dark_render | unfold marketplace_render];
    (destruct (load_fonts W _) as [[title_font body_font] price_font];
     cbn [photo_step]; unfold mbind, res_bind; cbn beta iota; cbn [fst snd from_option];
     cbn [width height text_color accent_color background_color
          minimal_config dark_config marketplace_config];
     match goal with
     | |- context [draw_lines (take 2 ?l) ?x ?y ?s ?fl ?f] =>
       rewrite (draw_lines_pair (take 2 l) x y s fl f)
     end;
     cbn beta iota;
     destruct (PyStr.truthy description);
     [ match goal with
       | |- context [draw_lines (_wrap_text description ?w) ?x ?y ?s ?fl ?f] =>
         rewrite (draw_lines_pair (_wrap_text description w) x y s fl f)
       end
     | ];
     cbn beta iota;
     eexists; (split; [reflexivity |]); cbn [c_ops]; solve_clear).
Qed.

Lemma as_str_por (v : pyval) (default : pystr) :
  is_text v = true -> exists s, as_str (por v (PStr default)) = Ok s.
Proof.
  destruct v; try discriminate; intros _; unfold por; cbn [truthy].
  - eexists. reflexivity.
  - destruct (PyStr.truthy s); eexists; reflexivity.
Qed.



(** ** The fuel of [finditer] and [sub] is enough *)

Local Open Scope nat_scope.

Lemma star_greedy_reaches {A} (p : N -> bool) (s : pystr) :
  forall prev g (k : mstate -> option A) (r : A),
    star_greedy p prev s g k = Some r ->
    exists st', length (ms_rest st') <= length s /\ k st' = Some r.
Proof.
  induction s as [| c s IH]; intros prev g k r H; cbn [star_greedy] in H.
  - eexists. split; [| exact H]. reflexivity.
  - destruct (p c).
    + destruct (star_greedy p (Some c) s g k) eqn:E.
      * injection H as <-. destruct (IH _ _ _ _ E) as [st' [Hl Hk]].
        exists st'. split; [cbn [length]; lia | exact Hk].
      * eexists. split; [| exact H]. reflexivity.
    + eexists. split; [| exact H]. reflexivity.
Qed.

Lemma star_lazy_reaches {A} (p : N -> bool) (s : pystr) :
  forall prev g (k : mstate -> option A) (r : A),
    star_lazy p prev s g k = Some r ->
    exists st', length (ms_rest st') <= length s /\ k st' = Some r.
Proof.
  induction s as [| c s IH]; intros prev g k r H; cbn [star_lazy] in H.
  - destruct (k (MState prev [] g)) eqn:E; [| discriminate].
    injection H as <-. eexists. split; [| exact E]. reflexivity.
  - destruct (k (MState prev (c :: s) g)) eqn:E.
    + injection H as <-. eexists. split; [| exact E]. reflexivity.
    + destruct (p c); [| discriminate].
      destruct (IH _ _ _ _ H) as [st' [Hl Hk]].
      exists st'. split; [cbn [length]; lia | exact Hk].
Qed.

(** Whatever a pattern matches, the continuation is run on a suffix. *)
Lemma run_reaches {A} (a : re) :
  forall (st : mstate) (k : mstate -> option A) (r : A),
    run a st k = Some r ->
    exists st', length (ms_rest st') <= length (ms_rest st) /\ k st' = Some r.
Proof.
  induction a as [| p | a IHa b IHb | a IHa b IHb | p | p | a IHa | | |];
    intros st k r H; cbn [run] in H.
  - exists st. split; [reflexivity | exact H].
  - destruct (ms_rest st) as [| c rest] eqn:E; [discriminate |].
    destruct (p c); [| discriminate].
    eexists. split; [| exact H]. cbn [ms_rest length]. lia.
  - destruct (IHa _ _ _ H) as [st1 [H1 Hk1]].
    destruct (IHb _ _ _ Hk1) as [st2 [H2 Hk2]].
    exists st2. split; [lia | exact Hk2].
  - destruct (run a st k) eqn:E.
    + injection H as <-. exact (IHa _ _ _ E).
    + exact (IHb _ _ _ H).
  - exact (star_greedy_reaches _ _ _ _ _ _ H).
  - exact (star_lazy_reaches _ _ _ _ _ _ H).
  - destruct (IHa _ _ _ H) as [st1 [H1 Hk1]].
    eexists. split; [| exact Hk1]. exact H1.
  - destruct (ms_prev st); [discriminate |]. exists st. split; [reflexivity | exact H].
  - exists st. split; [reflexivity |].
    destruct (ms_rest st) as [| c [| d rest]]; try exact H.
    + destruct c as [| q]; [discriminate |].
      repeat (destruct q; try discriminate). exact H.
    + destruct c as [| q]; [discriminate |]. repeat (destruct q; try discriminate).
  - exists st. split; [reflexivity |].
    destruct (xorb _ _); [exact H | discriminate].
Qed.

Lemma search_aux_post (a : re) (s : pystr) :
  forall prev pre m,
    search_aux a prev pre s = Some m ->
    length (m_post m) <= length s
    /\ (m_text m <> [] -> length (m_post m) < length s).
Proof.
  induction s as [| c s IH]; intros prev pre m H; cbn [search_aux] in H.
  - destruct (match_here a prev []) as [st |] eqn:E; [| discriminate].
    injection H as <-. cbn [m_post m_text].
    destruct (run_reaches a _ _ _ E) as [st' [Hl Hk]]. injection Hk as ->.
    cbn [ms_rest length] in *. split; [lia |]. intros Hne. exfalso. apply Hne.
    now destruct (0 - length (ms_rest st))%nat.
  - destruct (match_here a prev (c :: s)) as [st |] eqn:E.
    + injection H as <-. cbn [m_post m_text].
      destruct (run_reaches a _ _ _ E) as [st' [Hl Hk]]. injection Hk as ->.
      cbn [ms_rest] in Hl. split; [exact Hl |]. intros Hne.
      destruct (Nat.eq_dec (length (ms_rest st)) (length (c :: s))) as [Heq | Hneq]; [| lia].
      exfalso. apply Hne. rewrite Heq, Nat.sub_diag. reflexivity.
    + destruct (IH _ _ _ H) as [H1 H2]. cbn [length]. split; [lia |].
      intros Hne. specialize (H2 Hne). lia.
Qed.

Lemma finditer_fuel (a : re) (fuel : nat) :
  forall fuel' prev s,
    length s < fuel -> length s < fuel' ->
    finditer_aux fuel a prev s = finditer_aux fuel' a prev s.
Proof.
  induction fuel as [| fuel IH]; intros fuel' prev s H H'; [lia |].
  destruct fuel' as [| fuel']; [lia |]. cbn [finditer_aux]. unfold search_at.
  destruct (search_aux a prev [] s) as [m |] eqn:E; [| reflexivity].
  destruct (search_aux_post a s _ _ _ E) as [H1 H2].
  destruct (m_text m) as [| t ts] eqn:Et.
  - destruct (m_post m) as [| c r] eqn:Ep; [reflexivity |].
    cbn [length] in H1. f_equal. apply IH; lia.
  - specialize (H2 ltac:(discriminate)). f_equal. apply IH; lia.
Qed.

Lemma sub_fuel (a : re) (repl : pystr) (fuel : nat) :
  forall fuel' count prev s,
    length s < fuel -> length s < fuel' ->
    sub_aux fuel a repl count prev s = sub_aux fuel' a repl count prev s.
Proof.
  induction fuel as [| fuel IH]; intros fuel' count prev s H H'; [lia |].
  destruct fuel' as [| fuel']; [lia |]. cbn [sub_aux].
  destruct count as [[| n] |]; [reflexivity | |]; unfold search_at;
    (destruct (search_aux a prev [] s) as [m |] eqn:E; [| reflexivity];
     destruct (search_aux_post a s _ _ _ E) as [H1 H2];
     destruct (m_text m) as [| t ts] eqn:Et;
     [ destruct (m_post m) as [| c r] eqn:Ep; [reflexivity |];
       cbn [length] in H1; do 3 f_equal; apply IH; lia
     | specialize (H2 ltac:(discriminate)); do 2 f_equal; apply IH; lia ]).
Qed.

(** ** The matcher on literals and runs *)

Local Open Scope N_scope.

Lemma last_chr_cons (prev : option N) (c : N) (l : pystr) :
  last_chr prev (c :: l) = last_chr (Some c) l.
Proof.
  unfold last_chr. destruct l as [| d l]; [reflexivity |].
  change (last (c :: d :: l)) with (last (d :: l)).
  destruct (last (d :: l)) eqn:E; [reflexivity |].
  exfalso. revert E. generalize d. induction l as [| x l IH]; intros d'; cbn; [discriminate |].
  apply IH.
Qed.

Lemma run_Lit {A} (l r g : pystr) (prev : option N) (k : mstate -> option A) :
  run (Lit l) (MState prev (l ++ r) g) k = k (MState (last_chr prev l) r g).
Proof.
  revert prev. induction l as [| c l IH]; intros prev; [reflexivity |].
  rewrite last_chr_cons. destruct l as [| d l].
  - cbn. now rewrite N.eqb_refl.
  - change (Lit (c :: d :: l)) with (Cat (Chr c) (Lit (d :: l))).
    cbn [run ms_rest ms_grp app Chr]. rewrite N.eqb_refl. apply IH.
Qed.

Lemma run_Lit_mismatch {A} (c d : N) (l r g : pystr) (prev : option N)
    (k : mstate -> option A) :
  c <> d -> run (Lit (c :: l)) (MState prev (d :: r) g) k = None.
Proof.
  intros H. apply N.eqb_neq in H.
  destruct l; cbn; now rewrite H.
Qed.

Lemma run_Cat {A} (a b : re) (st : mstate) (k : mstate -> option A) :
  run (Cat a b) st k = run a st (fun st' => run b st' k).
Proof. reflexivity. Qed.

Lemma run_Or {A} (a b : re) (st : mstate) (k : mstate -> option A) :
  run (Or a b) st k = match run a st k with Some x => Some x | None => run b st k end.
Proof. reflexivity. Qed.

(** A greedy run over [ws] stops where the class stops, when what follows
    matches there. *)
Lemma star_greedy_max {A} (p : N -> bool) (ws s g : pystr) (k : mstate -> option A) (a : A) :
  forall prev,
    forallb p ws = true ->
    k (MState (last_chr prev ws) s g) = Some a ->
    (match s with c :: _ => p c = false | [] => True end) ->
    star_greedy p prev (ws ++ s) g k = Some a.
Proof.
  induction ws as [| w ws IH]; intros prev Hws Hk Hs.
  - cbn [app]. destruct s as [| c s']; cbn; [exact Hk |]. now rewrite Hs.
  - cbn in Hws. apply andb_true_iff in Hws as [Hw Hws].
    cbn [app star_greedy]. rewrite Hw.
    rewrite last_chr_cons in Hk.
    now rewrite (IH (Some w) Hws Hk Hs).
Qed.

(** A lazy run stops at the first place where what follows matches. *)
Lemma star_lazy_first {A} (p : N -> bool) (x r g : pystr) (k : mstate -> option A) (a : A) :
  forall prev,
    forallb p x = true ->
    (forall x1 c x2, x = x1 ++ c :: x2 ->
       k (MState (last_chr prev x1) (c :: x2 ++ r) g) = None) ->
    k (MState (last_chr prev x) r g) = Some a ->
    star_lazy p prev (x ++ r) g k = Some a.
Proof.
  induction x as [| c x IH]; intros prev Hp Hfail Hk.
  - cbn [app]. destruct r; cbn; cbn in Hk; now rewrite Hk.
  - cbn in Hp. apply andb_true_iff in Hp as [Hc Hp].
    cbn [app star_lazy].
    pose proof (Hfail [] c x eq_refl) as H0.
    change (last_chr prev []) with prev in H0. change ((c :: x) ++ r) with (c :: x ++ r).
    rewrite H0, Hc.
    rewrite last_chr_cons in Hk.
    apply IH; [exact Hp | | exact Hk].
    intros x1 d x2 Hx. rewrite <- (last_chr_cons prev c x1).
    apply (Hfail (c :: x1) d x2). now rewrite Hx.
Qed.

(** ** A fenced block *)

Lemma fence_mismatch {A} (c : N) (r g : pystr) (prev : option N) (k : mstate -> option A) :
  negb (c =? 96) = true -> run (Lit fence) (MState prev (c :: r) g) k = None.
Proof.
  intros H. apply negb_true_iff, N.eqb_neq in H.
  apply (run_Lit_mismatch 96 c). congruence.
Qed.

Lemma search_skips_no_backquote (pre s : pystr) :
  forall prev acc,
    no_backquote pre = true ->
    search_aux code_block_pattern prev acc (pre ++ s)
      = search_aux code_block_pattern (last_chr prev pre) (rev pre ++ acc) s.
Proof.
  induction pre as [| c pre IH]; intros prev acc H; [reflexivity |].
  cbn in H. apply andb_true_iff in H as [Hc H].
  cbn [app search_aux].
  assert (E : match_here code_block_pattern prev (c :: pre ++ s) = None).
  { unfold match_here, code_block_pattern. cbn [run]. now apply fence_mismatch. }
  rewrite E, IH by exact H. rewrite last_chr_cons. cbn [rev]. now rewrite <- app_assoc.
Qed.

Lemma space_not_backquote (ws : pystr) : forallb is_space ws = true -> no_backquote ws = true.
Proof.
  unfold no_backquote. induction ws as [| c ws IH]; [reflexivity |]. cbn [forallb].
  intros H. apply andb_true_iff in H as [Hc H]. rewrite (IH H), andb_true_r.
  destruct (c =? 96) eqn:E; [| reflexivity].
  apply N.eqb_eq in E. subst c. discriminate Hc.
Qed.

Lemma no_backquote_app (a b : pystr) :
  no_backquote (a ++ b) = no_backquote a && no_backquote b.
Proof. unfold no_backquote. apply forallb_app. Qed.

Lemma no_backquote_split (x x1 x2 : pystr) (c : N) :
  no_backquote x = true -> x = x1 ++ c :: x2 -> negb (c =? 96) = true.
Proof.
  intros H ->. rewrite no_backquote_app in H. apply andb_true_iff in H as [_ H].
  cbn in H. now apply andb_true_iff in H as [H _].
Qed.

Lemma take_app_exact (x r : pystr) : take (length (x ++ r) - length r) (x ++ r) = x.
Proof.
  rewrite length_app. replace (length x + length r - length r)%nat with (length x) by lia.
  now rewrite take_app_length.
Qed.

(** The block, from its white space on: the greedy run takes the white
    space, the lazy run the text up to the closing backquotes. *)
Lemma match_block_body (prev : option N) (ws1 body ws2 post : pystr) :
  forallb is_space ws1 = true -> forallb is_space ws2 = true ->
  no_backquote (123 :: body) = true ->
  run block_body (MState prev (ws1 ++ (123 :: body) ++ ws2 ++ fence ++ post) []) Some
    = Some (MState (Some 96) post ((123 :: body) ++ ws2)).
Proof.
  intros H1 H2 Hbq. unfold block_body. cbn [run ms_prev ms_rest ms_grp].
  apply star_greedy_max; [exact H1 | | reflexivity].
  cbn [run ms_prev ms_rest ms_grp].
  rewrite (app_assoc (123 :: body) ws2 (fence ++ post)).
  apply star_lazy_first.
  - clear. induction (_ ++ _); [reflexivity | assumption].
  - intros x1 c x2 Hx. cbn [ms_prev ms_rest].
    apply fence_mismatch.
    apply (no_backquote_split ((123 :: body) ++ ws2) x1 x2 c); [| exact Hx].
    rewrite no_backquote_app, Hbq. now rewrite space_not_backquote.
  - cbn [ms_prev ms_rest]. rewrite run_Lit. rewrite take_app_exact. reflexivity.
Qed.

Lemma match_fenced (prev : option N) (tag ws1 body ws2 post : pystr) :
  tag = [] \/ tag = u "json" ->
  forallb is_space ws1 = true -> forallb is_space ws2 = true ->
  no_backquote (123 :: body) = true ->
  match_here code_block_pattern prev
      (fence ++ tag ++ ws1 ++ (123 :: body) ++ ws2 ++ fence ++ post)
    = Some (MState (Some 96) post ((123 :: body) ++ ws2)).
Proof.
  intros Htag H1 H2 Hbq. unfold match_here.
  change code_block_pattern with (Cat (Lit fence) (Cat (Opt (Lit (u "json"))) block_body)).
  rewrite run_Cat, run_Lit, run_Cat. unfold Opt. rewrite run_Or.
  destruct Htag as [-> | ->].
  - cbn [app].
    assert (E : forall A (k : mstate -> option A) pv g,
               run (Lit (u "json")) (MState pv (ws1 ++ (123 :: body) ++ ws2 ++ fence ++ post) g) k
               = None).
    { intros A k pv g. destruct ws1 as [| w ws1].
      - apply (run_Lit_mismatch 106 123). discriminate.
      - cbn in H1. apply andb_true_iff in H1 as [Hw _].
        apply (run_Lit_mismatch 106 w). intros <-. discriminate Hw. }
    rewrite E. cbn [run]. now apply match_block_body.
  - rewrite run_Lit. now rewrite match_block_body.
Qed.

(** The first block that [findall] returns. *)
Lemma findall_fenced (pre tag ws1 body ws2 post : pystr) :
  no_backquote pre = true ->
  tag = [] \/ tag = u "json" ->
  forallb is_space ws1 = true -> forallb is_space ws2 = true ->
  no_backquote (123 :: body) = true ->
  exists rest,
    findall_grp code_block_pattern
      (pre ++ fence ++ tag ++ ws1 ++ (123 :: body) ++ ws2 ++ fence ++ post)
    = ((123 :: body) ++ ws2) :: rest.
Proof.
  intros Hpre Htag H1 H2 Hbq. unfold findall_grp, finditer.
  cbn [finditer_aux]. unfold search_at.
  rewrite search_skips_no_backquote by exact Hpre.
  assert (Hs : exists r0, fence ++ tag ++ ws1 ++ (123 :: body) ++ ws2 ++ fence ++ post
                          = 96 :: r0) by (eexists; reflexivity).
  destruct Hs as [r0 Hr0].
  pose proof (match_fenced (last_chr None pre) tag ws1 body ws2 post Htag H1 H2 Hbq) as Hm.
  rewrite Hr0 in Hm |- *. cbn [search_aux]. rewrite Hm.
  cbn [m_text m_post m_pre ms_rest ms_grp].
  assert (Ht : exists t0 ts, take (length (96 :: r0) - length post) (96 :: r0) = t0 :: ts).
  { assert (Hlen : (length post < length (96%N :: r0))%nat).
    { rewrite <- Hr0. rewrite !length_app. cbn. lia. }
    destruct (length (96%N :: r0) - length post)%nat eqn:E; [lia |].
    cbn. eauto. }
  destruct Ht as [t0 [ts ->]]. cbn [map m_grp]. eauto.
Qed.

(** ** [strip] around an object *)

Lemma lstrip_by_all (p : N -> bool) (ws s : pystr) :
  forallb p ws = true -> lstrip_by p (ws ++ s) = lstrip_by p s.
Proof.
  induction ws as [| w ws IH]; [reflexivity |]. cbn.
  intros H. apply andb_true_iff in H as [-> H]. now apply IH.
Qed.

Lemma forallb_rev_true (p : N -> bool) (l : pystr) :
  forallb p l = true -> forallb p (rev l) = true.
Proof.
  induction l as [| c l IH]; [reflexivity |]. cbn [forallb rev].
  intros H. apply andb_true_iff in H as [Hc H].
  rewrite forallb_app, (IH H). cbn. now rewrite Hc.
Qed.

Lemma strip_object (body ws2 : pystr) :
  forallb is_space ws2 = true ->
  strip (([123] ++ body ++ [125]) ++ ws2) = [123] ++ body ++ [125].
Proof.
  intros H. unfold strip, strip_by, rstrip_by.
  change (lstrip_by is_space (([123] ++ body ++ [125]) ++ ws2))
    with (([123] ++ body ++ [125]) ++ ws2).
  rewrite rev_app_distr, lstrip_by_all by (now apply forallb_rev_true).
  rewrite app_assoc, rev_app_distr. cbn [rev app lstrip_by].
  change (is_space 125) with false. cbn match.
  cbn [rev]. rewrite rev_app_distr, rev_involutive. reflexivity.
Qed.

(** ** The braces *)

Lemma find_chr_app (c : N) (pre r : pystr) :
  lacks c pre = true -> find_chr c (pre ++ c :: r) = Some (length pre).
Proof.
  unfold lacks. induction pre as [| x pre IH]; cbn [forallb app find_chr length].
  - intros _. now rewrite N.eqb_refl.
  - intros H. apply andb_true_iff in H as [Hx H]. apply negb_true_iff in Hx.
    rewrite Hx, (IH H). reflexivity.
Qed.

Lemma rfind_chr_lacks (c : N) (post : pystr) : lacks c post = true -> rfind_chr c post = None.
Proof.
  unfold lacks. induction post as [| x post IH]; cbn [forallb rfind_chr]; [reflexivity |].
  intros H. apply andb_true_iff in H as [Hx H]. apply negb_true_iff in Hx.
  now rewrite (IH H), Hx.
Qed.

Lemma rfind_chr_app (c : N) (l post : pystr) :
  lacks c post = true -> rfind_chr c (l ++ c :: post) = Some (length l).
Proof.
  intros H. induction l as [| x l IH]; cbn [app rfind_chr length].
  - now rewrite (rfind_chr_lacks c post H), N.eqb_refl.
  - now rewrite IH.
Qed.

Lemma brace_slice_embedded (pre body post : pystr) :
  lacks 123 pre = true -> lacks 125 post = true ->
  brace_slice (pre ++ ([123] ++ body ++ [125]) ++ post) = Some ([123] ++ body ++ [125]).
Proof.
  intros Hpre Hpost. unfold brace_slice.
  assert (E1 : pre ++ ([123] ++ body ++ [125]) ++ post
               = pre ++ 123 :: (body ++ [125] ++ post)).
  { cbn [app]. rewrite <- ?app_assoc. reflexivity. }
  assert (E2 : pre ++ ([123] ++ body ++ [125]) ++ post
               = (pre ++ [123] ++ body) ++ 125 :: post).
  { cbn [app]. rewrite <- ?app_assoc. reflexivity. }
  rewrite E1 at 1. rewrite find_chr_app by exact Hpre.
  rewrite E2 at 1. rewrite rfind_chr_app by exact Hpost.
  assert (Hlt : Nat.ltb (length pre) (S (length (pre ++ [123] ++ body))) = true).
  { apply Nat.ltb_lt. rewrite length_app. lia. }
  rewrite Hlt. f_equal. unfold slice. rewrite E1, drop_app_length.
  replace (Nat.sub (S (length (pre ++ [123] ++ body))) (length pre))
    with (length (123 :: body ++ [125])).
  2:{ rewrite !length_app. cbn [length]. rewrite length_app. cbn [length]. lia. }
  assert (E3 : 123 :: body ++ [125] ++ post = (123 :: body ++ [125]) ++ post).
  { cbn [app]. now rewrite <- app_assoc. }
  rewrite E3. now rewrite take_app_length.
Qed.

(** ** [extract_json_from_text] *)

Lemma extract_direct (L : Json.limits) (text : pystr) (v : pyval) :
  Json.loads L text = Ok v -> extract_json_from_text L text = Ok v.
Proof. intros H. unfold extract_json_from_text. now rewrite H. Qed.

Lemma extract_direct_raises (L : Json.limits) (text : pystr) (e : exn) :
  Json.loads L text = Raise e -> e <> JSONDecodeError ->
  extract_json_from_text L text = Raise e.
Proof.
  intros H Hne. unfold extract_json_from_text. rewrite H.
  destruct e; try reflexivity. contradiction.
Qed.

Lemma extract_fenced (L : Json.limits) (text : pystr) (v : pyval) :
  Json.loads L text = Raise JSONDecodeError ->
  first_loadable L (findall_grp code_block_pattern text) = Ok (Some v) ->
  extract_json_from_text L text = Ok v.
Proof. intros H1 H2. unfold extract_json_from_text. now rewrite H1, H2. Qed.

Lemma extract_fenced_raises (L : Json.limits) (text : pystr) (e : exn) :
  Json.loads L text = Raise JSONDecodeError ->
  first_loadable L (findall_grp code_block_pattern text) = Raise e ->
  extract_json_from_text L text = Raise e.
Proof. intros H1 H2. unfold extract_json_from_text. now rewrite H1, H2. Qed.

Lemma extract_braces (L : Json.limits) (text s : pystr) (v : pyval) :
  Json.loads L text = Raise JSONDecodeError ->
  first_loadable L (findall_grp code_block_pattern text) = Ok None ->
  brace_slice text = Some s -> Json.loads L s = Ok v ->
  extract_json_from_text L text = Ok v.
Proof.
  intros H1 H2 H3 H4. unfold extract_json_from_text.
  rewrite H1, H2. cbn [mbind res_bind]. now rewrite H3, H4.
Qed.

Lemma extract_braces_raises (L : Json.limits) (text s : pystr) (e : exn) :
  Json.loads L text = Raise JSONDecodeError ->
  first_loadable L (findall_grp code_block_pattern text) = Ok None ->
  brace_slice text = Some s -> Json.loads L s = Raise e -> e <> JSONDecodeError ->
  extract_json_from_text L text = Raise e.
Proof.
  intros H1 H2 H3 H4 Hne. unfold extract_json_from_text.
  rewrite H1, H2. cbn [mbind res_bind]. rewrite H3, H4.
  destruct e; try reflexivity. contradiction.
Qed.

Lemma extract_none (L : Json.limits) (text : pystr) :
  Json.loads L text = Raise JSONDecodeError ->
  first_loadable L (findall_grp code_block_pattern text) = Ok None ->
  brace_slice text = None
  \/ (exists s, brace_slice text = Some s /\ Json.loads L s = Raise JSONDecodeError) ->
  extract_json_from_text L text = Ok PNone.
Proof.
  intros H1 H2 H3. unfold extract_json_from_text. rewrite H1, H2. cbn [mbind res_bind].
  destruct H3 as [-> | [s [-> ->]]]; reflexivity.
Qed.




(** * Further properties of the code *)

(** ** The matcher is sound for [den] *)

Lemma last_chr_app (prev : option N) (a b : pystr) :
  last_chr prev (a ++ b) = last_chr (last_chr prev a) b.
Proof.
  revert prev. induction a as [| c a IH]; intros prev; [reflexivity |].
  cbn [app]. rewrite !last_chr_cons. apply IH.
Qed.

Lemma star_greedy_sound {A} (p : N -> bool) (s : pystr) :
  forall prev g (k : mstate -> option A) (x : A),
    star_greedy p prev s g k = Some x ->
    exists t r, s = t ++ r /\ forallb p t = true
      /\ k (MState (last_chr prev t) r g) = Some x.
Proof.
  induction s as [| c s IH]; intros prev g k x H; cbn [star_greedy] in H.
  - exists [], []. auto.
  - destruct (p c) eqn:Ep.
    + destruct (star_greedy p (Some c) s g k) eqn:E.
      * injection H as ->. destruct (IH _ _ _ _ E) as (t & r & -> & Ht & Hk).
        exists (c :: t), r. cbn [forallb]. rewrite Ep, Ht, last_chr_cons. auto.
      * exists [], (c :: s). auto.
    + exists [], (c :: s). auto.
Qed.

Lemma star_lazy_sound {A} (p : N -> bool) (s : pystr) :
  forall prev g (k : mstate -> option A) (x : A),
    star_lazy p prev s g k = Some x ->
    exists t r, s = t ++ r /\ forallb p t = true
      /\ k (MState (last_chr prev t) r g) = Some x.
Proof.
  induction s as [| c s IH]; intros prev g k x H; cbn [star_lazy] in H.
  - destruct (k (MState prev [] g)) eqn:E; [| discriminate].
    injection H as ->. exists [], []. auto.
  - destruct (k (MState prev (c :: s) g)) eqn:E.
    + injection H as ->. exists [], (c :: s). auto.
    + destruct (p c) eqn:Ep; [| discriminate].
      destruct (IH _ _ _ _ H) as (t & r & -> & Ht & Hk).
      exists (c :: t), r. cbn [forallb]. rewrite Ep, Ht, last_chr_cons. auto.
Qed.

Lemma run_sound {A} (a : re) :
  forall (st : mstate) (k : mstate -> option A) (x : A),
    run a st k = Some x ->
    exists t r g',
      ms_rest st = t ++ r /\ den a (ms_prev st) t r (ms_grp st) g'
      /\ k (MState (last_chr (ms_prev st) t) r g') = Some x.
Proof.
  induction a as [| p | a IHa b IHb | a IHa b IHb | p | p | a IHa | | |];
    intros [prev s g] k x H; cbn [run ms_rest ms_prev ms_grp] in *.
  - exists [], s, g. repeat split; exact H.
  - destruct s as [| c s]; [discriminate |]. destruct (p c) eqn:Ep; [| discriminate].
    exists [c], s, g. split; [reflexivity |]. split; [| exact H]. exists c. auto.
  - destruct (IHa _ _ _ H) as (t1 & r1 & g1 & Hs & Ha & Hk).
    destruct (IHb _ _ _ Hk) as (t2 & r2 & g2 & Hs2 & Hb & Hk2).
    cbn [ms_rest ms_prev ms_grp] in *. subst r1. subst s.
    exists (t1 ++ t2), r2, g2. rewrite <- app_assoc, last_chr_app.
    split; [reflexivity |]. split; [| exact Hk2].
    exists t1, t2, g1. repeat split; [exact Ha | exact Hb].
  - destruct (run a (MState prev s g) k) eqn:E.
    + injection H as ->. destruct (IHa _ _ _ E) as (t & r & g' & Hs & Hd & Hk).
      exists t, r, g'. cbn [ms_rest ms_prev ms_grp] in *.
      split; [exact Hs |]. split; [left; exact Hd | exact Hk].
    + destruct (IHb _ _ _ H) as (t & r & g' & Hs & Hd & Hk).
      exists t, r, g'. cbn [ms_rest ms_prev ms_grp] in *.
      split; [exact Hs |]. split; [right; exact Hd | exact Hk].
  - destruct (star_greedy_sound _ _ _ _ _ _ H) as (t & r & -> & Ht & Hk).
    exists t, r, g. repeat split; [exact Ht | exact Hk].
  - destruct (star_lazy_sound _ _ _ _ _ _ H) as (t & r & -> & Ht & Hk).
    exists t, r, g. repeat split; [exact Ht | exact Hk].
  - destruct (IHa _ _ _ H) as (t & r & g' & Hs & Ha & Hk).
    cbn [ms_rest ms_prev ms_grp] in *. subst s.
    rewrite take_app_exact in Hk.
    exists t, r, t. split; [reflexivity |]. split; [| exact Hk].
    split; [exists g'; exact Ha | reflexivity].
  - destruct prev; [discriminate |]. exists [], s, g. repeat split; exact H.
  - exists [], s, g. split; [reflexivity |].
    destruct s as [| c [| d s]]; try discriminate.
    + repeat split; [now left | exact H].
    + destruct c; try discriminate. repeat (destruct p; try discriminate).
      repeat split; [now right | exact H].
    + destruct c; try discriminate. repeat (destruct p; try discriminate).
  - destruct (xorb _ _) eqn:E; [| discriminate]. exists [], s, g.
    repeat split; [exact E | exact H].
Qed.

Lemma match_here_sound (a : re) (prev : option N) (s : pystr) (st : mstate) :
  match_here a prev s = Some st ->
  exists t,
    s = t ++ ms_rest st /\ take (length s - length (ms_rest st)) s = t
    /\ den a prev t (ms_rest st) [] (ms_grp st).
Proof.
  unfold match_here. intros E.
  destruct (run_sound _ _ _ _ E) as (t & r & g' & Hs & Hd & Hk).
  cbn [ms_rest ms_prev ms_grp] in *. injection Hk as <-. cbn [ms_rest ms_grp].
  exists t. subst s. rewrite take_app_exact. auto.
Qed.

(** A match found by [re.search] is a match: the subject is the text
    skipped, the match and the rest, and the match is in [den]. *)
Lemma search_aux_sound (a : re) (s : pystr) :
  forall prev pre m,
    search_aux a prev pre s = Some m ->
    exists skipped,
      s = skipped ++ m_text m ++ m_post m
      /\ m_pre m = rev pre ++ skipped
      /\ den a (last_chr prev skipped) (m_text m) (m_post m) [] (m_grp m).
Proof.
  assert (Hhere : forall prev pre s st,
            match_here a prev s = Some st ->
            let m := RMatch (rev pre) (take (length s - length (ms_rest st)) s)
                       (ms_grp st) (ms_rest st) in
            exists skipped,
              s = skipped ++ m_text m ++ m_post m
              /\ m_pre m = rev pre ++ skipped
              /\ den a (last_chr prev skipped) (m_text m) (m_post m) [] (m_grp m)).
  { intros prev pre s0 st E. destruct (match_here_sound _ _ _ _ E) as (t & Hs & Ht & Hd).
    cbn [m_text m_post m_pre m_grp]. exists []. rewrite Ht, app_nil_r. auto. }
  induction s as [| c s IH]; intros prev pre m H; cbn [search_aux] in H.
  - destruct (match_here a prev []) as [st |] eqn:E; [| discriminate].
    injection H as <-. exact (Hhere _ _ _ _ E).
  - destruct (match_here a prev (c :: s)) as [st |] eqn:E.
    + injection H as <-. exact (Hhere _ _ _ _ E).
    + destruct (IH _ _ _ H) as (skipped & Hs & Hpre & Hd).
      exists (c :: skipped). rewrite last_chr_cons. split; [now rewrite Hs at 1 |].
      split; [| exact Hd]. rewrite Hpre. cbn [rev]. now rewrite <- app_assoc.
Qed.

Lemma search_sound (a : re) (s : pystr) (m : rmatch) :
  search a s = Some m ->
  s = m_pre m ++ m_text m ++ m_post m
  /\ den a (last_chr None (m_pre m)) (m_text m) (m_post m) [] (m_grp m).
Proof.
  intros H. destruct (search_aux_sound _ _ _ _ _ H) as (skipped & Hs & Hpre & Hd).
  cbn [rev app] in Hpre. subst skipped. auto.
Qed.

(** The first element of [finditer] is what [search] finds. *)
Lemma finditer_head (a : re) (s : pystr) (m : rmatch) (rest : list rmatch) :
  finditer a s = m :: rest -> search a s = Some m.
Proof.
  unfold finditer, search. cbn [finditer_aux].
  destruct (search_at a None s) as [m' |]; [| discriminate].
  destruct (m_text m'), (m_post m'); intros H; injection H as -> _; reflexivity.
Qed.

Lemma findall_head (a : re) (s n0 : pystr) (rest : list pystr) :
  findall a s = n0 :: rest -> exists m, search a s = Some m /\ m_text m = n0.
Proof.
  unfold findall. destruct (finditer a s) as [| m ms] eqn:E; [discriminate |].
  intros H. injection H as <- _. exists m. split; [now apply finditer_head in E | reflexivity].
Qed.

Lemma findall_grp_head (a : re) (s n0 : pystr) (rest : list pystr) :
  findall_grp a s = n0 :: rest -> exists m, search a s = Some m /\ m_grp m = n0.
Proof.
  unfold findall_grp. destruct (finditer a s) as [| m ms] eqn:E; [discriminate |].
  intros H. injection H as <- _. exists m. split; [now apply finditer_head in E | reflexivity].
Qed.

Lemma search_findall (a : re) (s : pystr) (m : rmatch) :
  search a s = Some m -> exists rest, findall a s = m_text m :: rest.
Proof.
  unfold findall, finditer, search. cbn [finditer_aux]. intros ->.
  destruct (m_text m) eqn:Et, (m_post m); eexists; cbn [map]; rewrite ?Et; reflexivity.
Qed.

Lemma search_findall_grp (a : re) (s : pystr) (m : rmatch) :
  search a s = Some m -> exists rest, findall_grp a s = m_grp m :: rest.
Proof.
  unfold findall_grp, finditer, search. cbn [finditer_aux]. intros ->.
  destruct (m_text m), (m_post m); eexists; cbn [map]; reflexivity.
Qed.

(** Literals and [[p]+] in [den]. *)
Lemma den_Lit (l : pystr) :
  forall prev t r g g', den (Lit l) prev t r g g' -> t = l /\ g' = g.
Proof.
  induction l as [| c l IH]; intros prev t r g g' H.
  - exact H.
  - destruct l as [| d l].
    + destruct H as (c' & -> & Hc & ->). apply N.eqb_eq in Hc. now subst.
    + destruct H as (t1 & t2 & g1 & -> & (c' & -> & Hc & ->) & H2).
      apply N.eqb_eq in Hc. subst c'. destruct (IH _ _ _ _ _ H2) as [-> ->]. auto.
Qed.

Lemma den_Plus (p : N -> bool) (prev : option N) (t r g g' : pystr) :
  den (Plus p) prev t r g g' -> t <> [] /\ forallb p t = true /\ g' = g.
Proof.
  intros (t1 & t2 & g1 & -> & (c & -> & Hc & ->) & (Ht & ->)).
  cbn [app forallb]. rewrite Hc, Ht. auto.
Qed.

(** ** Strings: strip, split and the collapsing of white space *)

Lemma lstrip_by_decomp (p : N -> bool) (s : pystr) :
  exists a, s = a ++ lstrip_by p s /\ forallb p a = true.
Proof.
  induction s as [| c s (a & Hs & Ha)]; [now exists [] |].
  cbn [lstrip_by]. destruct (p c) eqn:Ep.
  - exists (c :: a). cbn [app forallb]. rewrite Ep, Ha. now rewrite Hs at 1.
  - now exists [].
Qed.

Lemma lstrip_by_head (p : N -> bool) (s : pystr) :
  match lstrip_by p s with c :: _ => p c = false | [] => True end.
Proof.
  induction s as [| c s IH]; [exact I |].
  cbn [lstrip_by]. destruct (p c) eqn:Ep; [exact IH | exact Ep].
Qed.

Lemma lstrip_by_id (p : N -> bool) (s : pystr) :
  match s with c :: _ => p c = false | [] => True end -> lstrip_by p s = s.
Proof. destruct s as [| c s]; [reflexivity |]. cbn [lstrip_by]. now intros ->. Qed.

Lemma lstrip_by_idem (p : N -> bool) (s : pystr) :
  lstrip_by p (lstrip_by p s) = lstrip_by p s.
Proof. apply lstrip_by_id, lstrip_by_head. Qed.

Lemma lstrip_by_app_keep (p : N -> bool) (a b : pystr) :
  lstrip_by p a <> [] -> lstrip_by p (a ++ b) = lstrip_by p a ++ b.
Proof.
  induction a as [| c a IH]; [now intros [] |].
  cbn [lstrip_by app]. destruct (p c); [exact IH | reflexivity].
Qed.

Lemma rstrip_by_app_keep (p : N -> bool) (x y : pystr) :
  rstrip_by p y <> [] -> rstrip_by p (x ++ y) = x ++ rstrip_by p y.
Proof.
  unfold rstrip_by. intros H. rewrite rev_app_distr, lstrip_by_app_keep.
  - now rewrite rev_app_distr, rev_involutive.
  - intros E. apply H. now rewrite E.
Qed.

Lemma rstrip_by_app_drop (p : N -> bool) (x y : pystr) :
  forallb p y = true -> rstrip_by p (x ++ y) = rstrip_by p x.
Proof.
  unfold rstrip_by. intros H. rewrite rev_app_distr, lstrip_by_all; [reflexivity |].
  now apply forallb_rev_true.
Qed.

Lemma rstrip_by_keeps (p : N -> bool) (w : pystr) :
  forallb (fun c => negb (p c)) w = true -> rstrip_by p w = w.
Proof.
  unfold rstrip_by. intros H. apply forallb_rev_true in H.
  rewrite lstrip_by_id; [apply rev_involutive |].
  destruct (rev w) as [| c r]; [exact I |]. cbn [forallb] in H.
  apply andb_true_iff in H as [H _]. now apply negb_true_iff in H.
Qed.

Lemma strip_by_all (p : N -> bool) (s : pystr) : forallb p s = true -> strip_by p s = [].
Proof.
  intros H. unfold strip_by. rewrite <- (app_nil_r s), lstrip_by_all by exact H. reflexivity.
Qed.

(** *** [split] *)

Lemma split_ws_aux_word (w : pystr) :
  forall cur s, forallb not_space w = true ->
    split_ws_aux cur (w ++ s) = split_ws_aux (rev w ++ cur) s.
Proof.
  induction w as [| c w IH]; intros cur s H; [reflexivity |].
  cbn [forallb] in H. apply andb_true_iff in H as [Hc Hw].
  cbn [app split_ws_aux]. unfold not_space in Hc. apply negb_true_iff in Hc. rewrite Hc.
  rewrite IH by exact Hw. cbn [rev]. now rewrite <- app_assoc.
Qed.

Lemma split_ws_spaces (ws s : pystr) :
  forallb is_space ws = true -> split_ws (ws ++ s) = split_ws s.
Proof.
  unfold split_ws. induction ws as [| c ws IH]; intros H; [reflexivity |].
  cbn [forallb] in H. apply andb_true_iff in H as [Hc Hw].
  cbn [app split_ws_aux]. rewrite Hc. now apply IH.
Qed.

Lemma split_ws_lstrip (s : pystr) : split_ws (lstrip_by is_space s) = split_ws s.
Proof.
  destruct (lstrip_by_decomp is_space s) as (a & Hs & Ha).
  rewrite Hs at 2. now rewrite split_ws_spaces.
Qed.

Lemma split_ws_aux_clean (s : pystr) :
  forall cur, forallb not_space cur = true -> Forall is_clean_word (split_ws_aux cur s).
Proof.
  assert (Hrev : forall cur, cur <> [] -> forallb not_space cur = true ->
                   is_clean_word (rev cur)).
  { intros cur Hne Hc. split; [| now apply forallb_rev_true].
    intros E. apply Hne. apply (f_equal (@rev N)) in E. now rewrite rev_involutive in E. }
  induction s as [| c s IH]; intros cur Hcur; cbn [split_ws_aux].
  - destruct cur; constructor; [| constructor]. now apply Hrev.
  - destruct (is_space c) eqn:Ec.
    + destruct cur as [| x cur]; [now apply IH |].
      constructor; [now apply Hrev | now apply IH].
    + apply IH. cbn [forallb]. unfold not_space at 1. now rewrite Ec.
Qed.

Lemma split_ws_clean (s : pystr) : Forall is_clean_word (split_ws s).
Proof. now apply split_ws_aux_clean. Qed.

Lemma join_cons (sep w : pystr) (ws : list pystr) :
  ws <> [] -> join sep (w :: ws) = w ++ sep ++ join sep ws.
Proof. destruct ws; [now intros [] | reflexivity]. Qed.

(** Splitting what was joined with single blanks gives the words back. *)
Lemma split_ws_join (ws : list pystr) :
  Forall is_clean_word ws -> split_ws (join (u " ") ws) = ws.
Proof.
  induction ws as [| w ws IH]; intros H; [reflexivity |].
  inversion H as [| ? ? [Hne Hw] Hws]; subst.
  destruct ws as [| w2 ws].
  - cbn [join]. unfold split_ws. rewrite <- (app_nil_r w) at 1.
    rewrite split_ws_aux_word by exact Hw. rewrite app_nil_r. cbn [split_ws_aux].
    destruct (rev w) eqn:E; [| now rewrite <- E, rev_involutive].
    apply (f_equal (@rev N)) in E. rewrite rev_involutive in E. contradiction.
  - rewrite join_cons by discriminate. unfold split_ws.
    rewrite split_ws_aux_word by exact Hw. rewrite app_nil_r.
    change (u " " ++ join (u " ") (w2 :: ws)) with (32 :: join (u " ") (w2 :: ws)).
    cbn [split_ws_aux]. change (is_space 32) with true. cbn iota.
    destruct (rev w) eqn:E.
    + apply (f_equal (@rev N)) in E. rewrite rev_involutive in E. contradiction.
    + rewrite <- E, rev_involutive. f_equal. now apply IH.
Qed.

(** *** [re.sub] of [[p]+] *)

Lemma squeeze_true_lstrip (p : N -> bool) (repl s : pystr) :
  squeeze p repl true s = squeeze p repl false (lstrip_by p s).
Proof.
  induction s as [| c s IH]; [reflexivity |].
  cbn [squeeze lstrip_by]. destruct (p c) eqn:Ep; [exact IH |].
  cbn [squeeze]. now rewrite Ep.
Qed.

Lemma squeeze_keeps (p : N -> bool) (repl w s : pystr) :
  forallb (fun c => negb (p c)) w = true ->
  squeeze p repl false (w ++ s) = w ++ squeeze p repl false s.
Proof.
  induction w as [| c w IH]; intros H; [reflexivity |].
  cbn [forallb] in H. apply andb_true_iff in H as [Hc Hw]. apply negb_true_iff in Hc.
  cbn [app squeeze]. rewrite Hc. f_equal. now apply IH.
Qed.

Lemma star_greedy_Some (p : N -> bool) (s : pystr) :
  forall prev g, exists prev',
    star_greedy p prev s g Some = Some (MState prev' (lstrip_by p s) g).
Proof.
  induction s as [| c s IH]; intros prev g; cbn [star_greedy lstrip_by].
  - now exists prev.
  - destruct (p c); [| now exists prev].
    destruct (IH (Some c) g) as [prev' ->]. now exists prev'.
Qed.

Lemma search_plus (p : N -> bool) (s : pystr) :
  forall prev pre,
    (search_aux (Plus p) prev pre s = None /\ forallb (fun c => negb (p c)) s = true)
    \/ exists a c r,
         s = a ++ c :: r /\ forallb (fun c => negb (p c)) a = true /\ p c = true
         /\ search_aux (Plus p) prev pre s
            = Some (RMatch (rev pre ++ a)
                      (take (length (c :: r) - length (lstrip_by p r)) (c :: r))
                      [] (lstrip_by p r)).
Proof.
  unfold Plus. induction s as [| c s IH]; intros prev pre.
  - left. split; reflexivity.
  - cbn [search_aux]. unfold match_here. cbn [run ms_rest ms_prev ms_grp].
    destruct (p c) eqn:Ep.
    + right. exists [], c, s. destruct (star_greedy_Some p s (Some c) []) as [prev' ->].
      cbn [ms_rest ms_grp]. rewrite app_nil_r. auto.
    + destruct (IH (Some c) (c :: pre)) as [[-> Hall] | (a & d & r & -> & Ha & Hd & ->)].
      * left. cbn [forallb]. now rewrite Ep, Hall.
      * right. exists (c :: a), d, r. cbn [forallb rev]. rewrite Ep, Ha, <- app_assoc. auto.
Qed.

Lemma squeeze_id (p : N -> bool) (repl s : pystr) :
  forallb (fun c => negb (p c)) s = true -> squeeze p repl false s = s.
Proof.
  intros H. rewrite <- (app_nil_r s) at 1. rewrite squeeze_keeps by exact H.
  cbn [squeeze]. apply app_nil_r.
Qed.

(** [re.sub] with the pattern [[p]+] is [squeeze]. *)
Lemma sub_plus (p : N -> bool) (repl : pystr) (fuel : nat) :
  forall prev s, (length s < fuel)%nat ->
    sub_aux fuel (Plus p) repl None prev s = squeeze p repl false s.
Proof.
  induction fuel as [| fuel IH]; intros prev s Hlen; [lia |].
  cbn [sub_aux]. unfold search_at.
  destruct (search_plus p s prev []) as [[-> Hall] | (a & c & r & -> & Ha & Hc & ->)].
  - symmetry. now apply squeeze_id.
  - cbn [m_text m_post m_pre rev app].
    assert (Hl := lstrip_by_length p r).
    replace (length (c :: r) - length (lstrip_by p r))%nat
      with (S (length r - length (lstrip_by p r))) by (cbn [length]; lia).
    cbn [take]. rewrite squeeze_keeps by exact Ha. cbn [squeeze]. rewrite Hc.
    rewrite squeeze_true_lstrip. rewrite IH; [reflexivity |].
    rewrite length_app in Hlen. cbn [length] in Hlen. lia.
Qed.

Lemma collapse_spaces_squeeze (s : pystr) :
  collapse_spaces s = squeeze is_space (u " ") false s.
Proof. unfold collapse_spaces, sub. apply sub_plus. lia. Qed.

(** Collapsing and stripping leaves the words, one blank apart. *)
Lemma lstrip_squeeze (s : pystr) :
  lstrip_by is_space (squeeze is_space (u " ") false s)
    = squeeze is_space (u " ") false (lstrip_by is_space s).
Proof.
  destruct s as [| c s]; [reflexivity |].
  cbn [squeeze lstrip_by]. destruct (is_space c) eqn:Ec.
  - change (u " " ++ ?x) with (32 :: x). cbn [lstrip_by]. change (is_space 32) with true.
    cbn iota. rewrite squeeze_true_lstrip. apply lstrip_by_id.
    generalize (lstrip_by_head is_space s).
    destruct (lstrip_by is_space s) as [| d r]; [trivial |].
    intros Hd. cbn [squeeze]. now rewrite Hd.
  - cbn [lstrip_by squeeze]. now rewrite Ec.
Qed.

Lemma rstrip_squeeze (n : nat) :
  forall s, (length s <= n)%nat ->
    match s with c :: _ => is_space c = false | [] => True end ->
    rstrip_by is_space (squeeze is_space (u " ") false s) = join (u " ") (split_ws s)
    /\ (s <> [] -> split_ws s <> [] /\ join (u " ") (split_ws s) <> []).
Proof.
  induction n as [| n IH]; intros s Hlen Hhead.
  - destruct s; [| cbn in Hlen; lia]. split; [reflexivity | now intros []].
  - destruct s as [| c s]; [split; [reflexivity | now intros []] |].
    (* the first word and what follows it *)
    destruct (lstrip_by_decomp not_space (c :: s)) as (w & Hs & Hw).
    assert (Hwne : w <> []).
    { intros ->. cbn [app] in Hs. cbn [lstrip_by] in Hs. unfold not_space in Hs at 1.
      rewrite Hhead in Hs. cbn in Hs. apply (f_equal (@length N)) in Hs.
      assert (Hl := lstrip_by_length not_space s). cbn [length] in Hs. lia. }
    assert (Hrest := lstrip_by_head not_space (c :: s)).
    set (rest := lstrip_by not_space (c :: s)) in *.
    assert (Hclean : forallb (fun c => negb (is_space c)) w = true) by exact Hw.
    rewrite Hs. rewrite squeeze_keeps by exact Hclean.
    unfold split_ws. rewrite split_ws_aux_word by exact Hw. rewrite app_nil_r.
    assert (Hrevne : rev w <> []).
    { intros E. apply Hwne. apply (f_equal (@rev N)) in E. now rewrite rev_involutive in E. }
    destruct rest as [| d r] eqn:Erest.
    + cbn [squeeze split_ws_aux]. rewrite app_nil_r.
      destruct (rev w) eqn:E; [contradiction |]. rewrite <- E, rev_involutive.
      cbn [join]. split; [now apply rstrip_by_keeps |]. intros _. split; [discriminate | exact Hwne].
    + unfold not_space in Hrest. apply negb_false_iff in Hrest.
      cbn [squeeze split_ws_aux]. rewrite Hrest.
      destruct (rev w) eqn:E; [contradiction |]. rewrite <- E, rev_involutive.
      change (u " " ++ ?x) with (32 :: x). rewrite squeeze_true_lstrip.
      fold (split_ws r). rewrite <- (split_ws_lstrip r).
      assert (Hlen' : (length (lstrip_by is_space r) <= n)%nat).
      { assert (Hl := lstrip_by_length is_space r).
        apply (f_equal (@length N)) in Hs. rewrite length_app in Hs.
        cbn [length] in Hs, Hlen. destruct w; [contradiction |]. cbn [length] in Hs. lia. }
      destruct (IH _ Hlen' (lstrip_by_head is_space r)) as [Hr Hne].
      destruct (lstrip_by is_space r) as [| e r'] eqn:Er.
      * cbn [squeeze]. change (split_ws []) with (@nil (list N)). cbn [join].
        split; [| intros _; split; [discriminate | exact Hwne]].
        rewrite rstrip_by_app_drop by reflexivity. now apply rstrip_by_keeps.
      * destruct (Hne ltac:(discriminate)) as [Hws Hj].
        rewrite join_cons by exact Hws.
        split; [| intros _; split; [discriminate | now destruct w]].
        change (w ++ 32 :: ?x) with (w ++ [32] ++ x). rewrite app_assoc.
        rewrite rstrip_by_app_keep by (rewrite Hr; exact Hj).
        rewrite Hr, <- app_assoc. reflexivity.
Qed.

Lemma strip_collapse_spaces (s : pystr) :
  strip (collapse_spaces s) = join (u " ") (split_ws s).
Proof.
  rewrite collapse_spaces_squeeze. unfold strip, strip_by. rewrite lstrip_squeeze.
  rewrite <- (split_ws_lstrip s).
  apply (rstrip_squeeze (length (lstrip_by is_space s))); [lia | apply lstrip_by_head].
Qed.


(** ** bot/utils/helpers.py: [sanitize_text] *)

Lemma sanitize_text_str (s : pystr) (max_length : option Z) :
  match max_length with Some n => (0 <= n)%Z | None => True end ->
  sanitize_text (PStr s) max_length =
    let text := join (u " ") (split_ws s) in
    match max_length with
    | Some n =>
      if negb (n =? 0)%Z && (n <? Z.of_nat (len text))%Z
      then Ok (slice_to (n - 3) text ++ u "...")
      else Ok text
    | None => Ok text
    end.
Proof.
  intros Hn. unfold sanitize_text. destruct s as [| c s].
  - cbn [truthy PyStr.truthy str_eqb negb]. cbv iota.
    change (join (u " ") (split_ws [])) with (@nil N). cbv zeta.
    destruct max_length as [n |]; [| reflexivity]. change (Z.of_nat (len [])) with 0%Z.
    replace (n <? 0)%Z with false by (symmetry; apply Z.ltb_ge; lia).
    now rewrite andb_false_r.
  - cbn [truthy PyStr.truthy str_eqb negb]. cbv iota. now rewrite strip_collapse_spaces.
Qed.

(** X1.  [sanitize_text] without a limit gives the words of the text, one
    blank apart: it is [' '.join(text.split())]; applied to its own result
    it changes nothing. *)
Theorem sanitize_text_joins_words (s : pystr) :
  sanitize_text (PStr s) None = Ok (join (u " ") (split_ws s))
  /\ sanitize_text (PStr (join (u " ") (split_ws s))) None = Ok (join (u " ") (split_ws s)).
Proof.
  split; rewrite sanitize_text_str by exact I; cbv zeta; [reflexivity |].
  now rewrite split_ws_join by apply split_ws_clean.
Qed.

(** X2.  With a limit of at least three, the result of [sanitize_text] never
    exceeds it: a text within the limit is returned as its words one blank
    apart, a longer one is cut to [max_length - 3] characters and three
    dots. *)
Theorem sanitize_text_within_limit (s : pystr) (n : Z) :
  (3 <= n)%Z ->
  let words := join (u " ") (split_ws s) in
  exists t,
    sanitize_text (PStr s) (Some n) = Ok t
    /\ (Z.of_nat (len t) <= n)%Z
    /\ ((Z.of_nat (len words) <= n)%Z -> t = words)
    /\ ((n < Z.of_nat (len words))%Z -> t = take (Z.to_nat (n - 3)) words ++ u "...").
Proof.
  intros Hn words. rewrite sanitize_text_str by (cbv beta iota; lia). fold words. cbv zeta.
  replace (n =? 0)%Z with false by (symmetry; apply Z.eqb_neq; lia). cbn [negb andb].
  destruct (n <? Z.of_nat (len words))%Z eqn:E.
  - apply Z.ltb_lt in E. eexists. split; [reflexivity |].
    unfold slice_to. replace (0 <=? n - 3)%Z with true by (symmetry; apply Z.leb_le; lia).
    split; [| split; [lia | reflexivity]].
    unfold len in *. rewrite length_app, length_take. change (length (u "...")) with 3%nat. lia.
  - apply Z.ltb_ge in E. exists words. split; [reflexivity |]. split; [exact E |]. split; [reflexivity | lia].
Qed.

Lemma sanitize_text_within_limit_witness :
  (3 <= 10)%Z
  /\ exists t,
       sanitize_text (PStr (u "  Кеды   синие,  удобные ")) (Some 10%Z) = Ok t
       /\ (Z.of_nat (len t) <= 10)%Z.
Proof.
  split; [lia |].
  destruct (sanitize_text_within_limit (u "  Кеды   синие,  удобные ") 10 ltac:(lia))
    as (t & Ht & Hlen & _).
  exists t. split; [exact Ht | exact Hlen].
Defined.

(** X3.  A limit of one or two does not bound the result: a text longer than
    the limit loses its last [3 - max_length] characters and gains three
    dots, so the result is [max_length] characters longer than the text it
    was cut from. *)
Theorem sanitize_text_small_limit (s : pystr) (n : Z) :
  (1 <= n <= 2)%Z ->
  let words := join (u " ") (split_ws s) in
  (n < Z.of_nat (len words))%Z ->
  exists t,
    sanitize_text (PStr s) (Some n) = Ok t
    /\ t = take (len words - Z.to_nat (3 - n)) words ++ u "..."
    /\ Z.of_nat (len t) = (Z.of_nat (len words) + n)%Z.
Proof.
  intros Hn words Hlong. rewrite sanitize_text_str by (cbv beta iota; lia). fold words. cbv zeta.
  replace (n =? 0)%Z with false by (symmetry; apply Z.eqb_neq; lia).
  replace (n <? Z.of_nat (len words))%Z with true by (symmetry; apply Z.ltb_lt; lia).
  cbn [negb andb]. eexists. split; [reflexivity |].
  unfold slice_to. replace (0 <=? n - 3)%Z with false by (symmetry; apply Z.leb_gt; lia).
  replace (- (n - 3))%Z with (3 - n)%Z by lia. split; [reflexivity |].
  unfold len in *. rewrite length_app, length_take. change (length (u "...")) with 3%nat. lia.
Qed.

Lemma sanitize_text_small_limit_witness :
  (1 <= 2 <= 2)%Z
  /\ sanitize_text (PStr (u "Кеды синие")) (Some 2%Z) = Ok (u "Кеды сини...")
  /\ exists t,
       sanitize_text (PStr (u "Кеды синие")) (Some 2%Z) = Ok t
       /\ Z.of_nat (len t) = (Z.of_nat (len (join (u " ") (split_ws (u "Кеды синие")))) + 2)%Z.
Proof.
  split; [lia |]. split; [vm_compute; reflexivity |].
  destruct (sanitize_text_small_limit (u "Кеды синие") 2 ltac:(lia) ltac:(vm_compute; reflexivity))
    as (t & Ht & _ & Hlen).
  exists t. split; [exact Ht | exact Hlen].
Defined.


(** ** bot/utils/helpers.py: [format_price] *)

Lemma strip_by_keeps (p : N -> bool) (s : pystr) :
  forallb (fun c => negb (p c)) s = true -> strip_by p s = s.
Proof.
  intros H. unfold strip_by. rewrite lstrip_by_id; [now apply rstrip_by_keeps |].
  destruct s as [| c s]; [exact I |]. cbn [forallb] in H.
  apply andb_true_iff in H as [H _]. now apply negb_true_iff in H.
Qed.

Lemma rstrip_by_idem (p : N -> bool) (s : pystr) :
  rstrip_by p (rstrip_by p s) = rstrip_by p s.
Proof. unfold rstrip_by. now rewrite rev_involutive, lstrip_by_idem. Qed.

Lemma rstrip_by_cons (p : N -> bool) (c : N) (s : pystr) :
  p c = false -> rstrip_by p (c :: s) = c :: rstrip_by p s.
Proof.
  intros Hc. destruct (rstrip_by p s) as [| d r] eqn:E.
  - change (c :: s) with ([c] ++ s). unfold rstrip_by in *.
    rewrite rev_app_distr. apply (f_equal (@rev N)) in E. rewrite rev_involutive in E.
    cbn [rev app] in E |- *.
    destruct (lstrip_by_decomp p (rev s)) as (a & Hs & Ha). rewrite E, app_nil_r in Hs.
    rewrite Hs, lstrip_by_all by exact Ha. cbn [lstrip_by]. now rewrite Hc.
  - change (c :: s) with ([c] ++ s). rewrite rstrip_by_app_keep by (rewrite E; discriminate).
    now rewrite E.
Qed.

Lemma strip_by_idem (p : N -> bool) (s : pystr) : strip_by p (strip_by p s) = strip_by p s.
Proof.
  unfold strip_by. generalize (lstrip_by_head p s).
  destruct (lstrip_by p s) as [| c r]; [reflexivity |]. intros Hc.
  rewrite rstrip_by_cons by exact Hc. cbn [lstrip_by]. rewrite Hc.
  rewrite <- rstrip_by_cons by exact Hc. apply rstrip_by_idem.
Qed.

Lemma contains_starts_with (p s : pystr) : starts_with p s = true -> contains p s = true.
Proof. intros H. destruct s; cbn [contains]; now rewrite H. Qed.

Lemma contains_app_r (p a b : pystr) : contains p b = true -> contains p (a ++ b) = true.
Proof.
  intros H. induction a as [| c a IH]; [exact H |].
  cbn [app contains]. rewrite IH. apply orb_true_r.
Qed.

Lemma contains_lacks (k0 : N) (kw s : pystr) :
  lacks k0 s = true -> contains (k0 :: kw) s = false.
Proof.
  induction s as [| c s IH]; intros H; [reflexivity |].
  cbn [lacks forallb] in H. apply andb_true_iff in H as [Hc Hs].
  cbn [contains starts_with]. rewrite IH by exact Hs.
  apply negb_true_iff in Hc. rewrite N.eqb_sym in Hc. now rewrite Hc.
Qed.

Lemma replace_chr_lacks (a : N) (b s : pystr) : lacks a s = true -> replace_chr a b s = s.
Proof.
  unfold replace_chr. induction s as [| c s IH]; intros H; [reflexivity |].
  cbn [lacks forallb] in H. apply andb_true_iff in H as [Hc Hs].
  apply negb_true_iff in Hc. cbn [flat_map]. rewrite Hc. cbn [app]. f_equal. now apply IH.
Qed.

Lemma replace_chr_app (a : N) (b x y : pystr) :
  replace_chr a b (x ++ y) = replace_chr a b x ++ replace_chr a b y.
Proof. unfold replace_chr. apply flat_map_app. Qed.

Lemma forallb_impl (p q : N -> bool) (s : pystr) :
  (forall c, p c = true -> q c = true) -> forallb p s = true -> forallb q s = true.
Proof.
  intros Hpq. induction s as [| c s IH]; [reflexivity |]. cbn [forallb].
  intros H. apply andb_true_iff in H as [Hc Hs]. now rewrite (Hpq _ Hc), IH.
Qed.

Lemma is_digit_cases (c : N) :
  is_digit c = true -> In c [48; 49; 50; 51; 52; 53; 54; 55; 56; 57].
Proof.
  unfold is_digit, in_range. intros H. apply andb_true_iff in H as [H1 H2].
  apply N.leb_le in H1, H2. cbn [In].
  assert (c = 48 \/ c = 49 \/ c = 50 \/ c = 51 \/ c = 52 \/ c = 53 \/ c = 54 \/ c = 55
          \/ c = 56 \/ c = 57) by lia.
  intuition auto.
Qed.

Lemma price_char_cases (c : N) :
  price_char c = true ->
  In c [48; 49; 50; 51; 52; 53; 54; 55; 56; 57; 46; 8381; 36; 8364].
Proof.
  unfold price_char. intros H.
  repeat (apply orb_true_iff in H as [H | H]);
    [apply is_digit_cases in H; cbn [In] in *; intuition auto | ..];
    apply N.eqb_eq in H; subst; cbn [In]; auto 20.
Qed.

Ltac by_price_char c H :=
  apply price_char_cases in H; cbn [In] in H;
  repeat (destruct H as [<- | H]; [reflexivity |]); destruct H.

Lemma price_char_props (c : N) :
  price_char c = true ->
  is_space c = false /\ lower_c c = c /\ negb (c =? 110) = true /\ negb (c =? 1085) = true
  /\ negb (c =? 44) = true /\ negb (c =? 1088) = true /\ negb (c =? 114) = true
  /\ negb (c =? 117) = true.
Proof. intros H. repeat split; by_price_char c H. Qed.

Lemma price_chars_lacks (x : N) (s : pystr) :
  (forall c, price_char c = true -> negb (c =? x) = true) ->
  forallb price_char s = true -> lacks x s = true.
Proof. intros Hx. unfold lacks. now apply forallb_impl. Qed.

Lemma price_chars_lower (s : pystr) : forallb price_char s = true -> lower s = s.
Proof.
  unfold lower. induction s as [| c s IH]; intros H; [reflexivity |].
  cbn [forallb] in H. apply andb_true_iff in H as [Hc Hs].
  cbn [map]. rewrite IH by exact Hs. now rewrite (proj1 (proj2 (price_char_props c Hc))).
Qed.

Lemma price_chars_strip (s : pystr) : forallb price_char s = true -> strip s = s.
Proof.
  intros H. apply strip_by_keeps. revert H. apply forallb_impl.
  intros c Hc. now rewrite (proj1 (price_char_props c Hc)).
Qed.

Lemma price_chars_not_null (s : pystr) :
  s <> [] -> forallb price_char s = true ->
  existsb (str_eqb (lower s)) [u "null"; u "none"; u "n/a"; u "не указана"] = false.
Proof.
  intros Hne H. rewrite price_chars_lower by exact H.
  destruct s as [| c s]; [contradiction |]. cbn [forallb] in H.
  apply andb_true_iff in H as [Hc _].
  destruct (price_char_props c Hc) as (_ & _ & H1 & H2 & _).
  apply negb_true_iff in H1, H2.
  change (u "null") with (110 :: u "ull"). change (u "none") with (110 :: u "one").
  change (u "n/a") with (110 :: u "/a"). change (u "не указана") with (1085 :: u "е указана").
  cbn [existsb str_eqb]. now rewrite H1, H2.
Qed.

(** The numbers that [format_price] writes. *)
Lemma is_number_chars (num : pystr) : is_number num -> forallb price_char num = true.
Proof.
  intros (d1 & f & -> & _ & Hd1 & Hf).
  assert (Hdig : forall s, forallb is_digit s = true -> forallb price_char s = true).
  { intros s. apply forallb_impl. intros c Hc. unfold price_char. now rewrite Hc. }
  rewrite forallb_app, (Hdig _ Hd1). destruct Hf as [-> | (d2 & -> & Hd2)]; [reflexivity |].
  cbn [forallb andb]. now rewrite (Hdig _ Hd2).
Qed.

Lemma den_number (prev : option N) (t r g g' : pystr) :
  den number_pattern prev t r g g' -> is_number (replace_chr 44 (u ".") t).
Proof.
  intros (t1 & t2 & g1 & -> & H1 & (t3 & t4 & g2 & -> & Hsep & (H4 & _))).
  apply den_Plus in H1 as (Hne & Hd1 & _).
  assert (Hdig : forall s, forallb is_digit s = true -> replace_chr 44 (u ".") s = s).
  { intros s Hs. apply replace_chr_lacks. revert Hs. apply forallb_impl.
    intros c Hc. apply is_digit_cases in Hc. cbn [In] in Hc.
    repeat (destruct Hc as [<- | Hc]; [reflexivity |]). destruct Hc. }
  rewrite !replace_chr_app, (Hdig _ Hd1), (Hdig _ H4).
  destruct Hsep as [(c & -> & Hc & _) | [-> _]].
  - exists t1, (46 :: t4). split.
    + f_equal. unfold one_of in Hc. cbn [existsb u] in Hc.
      change (u ".,") with [46; 44] in Hc. cbn [existsb] in Hc.
      rewrite orb_false_r in Hc. apply orb_true_iff in Hc as [Hc | Hc];
        apply N.eqb_eq in Hc; subst c; reflexivity.
    + split; [exact Hne |]. split; [exact Hd1 |]. right. now exists t4.
  - exists (t1 ++ t4), []. cbn [replace_chr flat_map app]. rewrite app_nil_r.
    split; [reflexivity |]. split; [now destruct t1 |]. split; [| now left].
    now rewrite forallb_app, Hd1, H4.
Qed.

Lemma match_number (num tail : pystr) (prev : option N) :
  is_number num -> tail = [] \/ tail = u "₽" ->
  exists prev', match_here number_pattern prev (num ++ tail) = Some (MState prev' tail []).
Proof.
  intros (d1 & f & -> & Hne & Hd1 & Hf) Htail.
  destruct d1 as [| c d1]; [contradiction |]. cbn [forallb] in Hd1.
  apply andb_true_iff in Hd1 as [Hc Hd1].
  unfold match_here, number_pattern, Plus, Opt.
  cbn [run ms_rest ms_prev ms_grp app]. rewrite Hc. rewrite <- app_assoc.
  assert (Htl : forall prev0, exists prev',
             star_greedy is_digit prev0 tail [] Some = Some (MState prev' tail [])).
  { intros prev0. destruct Htail as [-> | ->]; eexists; reflexivity. }
  destruct Hf as [-> | (d2 & -> & Hd2)].
  - cbn [app].
    destruct (Htl (last_chr (Some c) d1)) as [prev' Hprev'].
    exists prev'. apply star_greedy_max; [exact Hd1 | | now destruct Htail as [-> | ->]].
    cbn [run ms_rest ms_prev ms_grp]. now destruct Htail as [-> | ->].
  - exists (last_chr (Some 46) d2). apply star_greedy_max; [exact Hd1 | | reflexivity].
    cbn [run ms_rest ms_prev ms_grp app]. change (one_of (u ".,") 46) with true. cbv iota.
    erewrite star_greedy_max;
      [reflexivity | exact Hd2 | reflexivity | now destruct Htail as [-> | ->]].
Qed.

Lemma search_aux_here (a : re) (prev : option N) (pre s : pystr) (st : mstate) :
  match_here a prev s = Some st ->
  search_aux a prev pre s
    = Some (RMatch (rev pre) (take (length s - length (ms_rest st)) s) (ms_grp st) (ms_rest st)).
Proof. intros H. destruct s; cbn [search_aux]; now rewrite H. Qed.

Lemma findall_number_suffixed (num tail : pystr) :
  is_number num -> tail = [] \/ tail = u "₽" ->
  exists rest, findall number_pattern (num ++ tail) = num :: rest.
Proof.
  intros Hnum Htail. destruct (match_number num tail None Hnum Htail) as [prev' Hm].
  assert (Hs : search number_pattern (num ++ tail) = Some (RMatch [] num [] tail)).
  { unfold search, search_at. rewrite (search_aux_here _ _ _ _ _ Hm).
    cbn [ms_rest ms_grp rev]. now rewrite take_app_exact. }
  exact (search_findall _ _ _ Hs).
Qed.

Lemma findall_number_prefixed (cur : N) (num : pystr) :
  is_digit cur = false -> is_number num ->
  exists rest, findall number_pattern (cur :: num) = num :: rest.
Proof.
  intros Hcur Hnum. destruct (match_number num [] (Some cur) Hnum (or_introl eq_refl)) as [prev' Hm].
  rewrite app_nil_r in Hm.
  assert (Hs : search number_pattern (cur :: num) = Some (RMatch [cur] num [] [])).
  { unfold search, search_at. cbn [search_aux].
    replace (match_here number_pattern None (cur :: num)) with (@None mstate)
      by (unfold match_here, number_pattern, Plus; cbn [run ms_rest]; now rewrite Hcur).
    rewrite (search_aux_here _ _ _ _ _ Hm). cbn [ms_rest ms_grp rev app length].
    now rewrite Nat.sub_0_r, firstn_all. }
  exact (search_findall _ _ _ Hs).
Qed.

Lemma format_price_of_str (s : pystr) :
  s <> [] -> strip s = s ->
  existsb (str_eqb (lower s)) [u "null"; u "none"; u "n/a"; u "не указана"] = false ->
  format_price (PStr s) =
    match findall number_pattern s with
    | n0 :: _ =>
      let num := replace_chr 44 (u ".") n0 in
      if contains (u "₽") s || contains (u "руб") (lower s) || contains (u "rub") (lower s)
      then num ++ u "₽"
      else if contains (u "$") s || contains (u "usd") (lower s) then u "$" ++ num
      else if contains (u "€") s || contains (u "eur") (lower s) then u "€" ++ num
      else num ++ u "₽"
    | [] => s
    end.
Proof.
  intros Hne Hstrip Hnull. unfold format_price. cbn [truthy py_str].
  apply truthy_nonempty in Hne. rewrite Hstrip, Hne, Hnull. reflexivity.
Qed.

Lemma format_price_fixes_rouble (num : pystr) :
  is_number num -> format_price (PStr (num ++ u "₽")) = num ++ u "₽".
Proof.
  intros Hnum. assert (Hc := is_number_chars _ Hnum).
  assert (Hall : forallb price_char (num ++ u "₽") = true) by (now rewrite forallb_app, Hc).
  rewrite format_price_of_str;
    [| now destruct num | now apply price_chars_strip
     | apply price_chars_not_null; [now destruct num | exact Hall]].
  destruct (findall_number_suffixed num (u "₽") Hnum (or_intror eq_refl)) as [rest ->].
  cbv zeta. rewrite (contains_app_r (u "₽") num (u "₽") eq_refl). cbn [orb].
  f_equal. apply replace_chr_lacks. apply (price_chars_lacks 44); [| exact Hc].
  intros c H. apply (price_char_props c H).
Qed.

Lemma format_price_fixes_prefixed (cur : N) (num : pystr) :
  cur = 36 \/ cur = 8364 -> is_number num ->
  format_price (PStr (cur :: num)) = cur :: num.
Proof.
  intros Hcur Hnum. assert (Hc := is_number_chars _ Hnum).
  assert (Hall : forallb price_char (cur :: num) = true).
  { cbn [forallb]. rewrite Hc. now destruct Hcur as [-> | ->]. }
  assert (Hnum_lacks : forall x, (forall c, price_char c = true -> negb (c =? x) = true) ->
                                 negb (cur =? x) = true -> lacks x (cur :: num) = true).
  { intros x Hx Hcx. unfold lacks. cbn [forallb]. rewrite Hcx.
    now apply (price_chars_lacks x). }
  rewrite format_price_of_str;
    [| discriminate | now apply price_chars_strip
     | apply price_chars_not_null; [discriminate | exact Hall]].
  destruct (findall_number_prefixed cur num ltac:(now destruct Hcur as [-> | ->]) Hnum)
    as [rest ->].
  cbv zeta. rewrite (price_chars_lower _ Hall).
  replace (replace_chr 44 (u ".") num) with num.
  2:{ symmetry. apply replace_chr_lacks. apply (price_chars_lacks 44); [| exact Hc].
      intros c H. apply (price_char_props c H). }
  assert (Hnum8381 : lacks 8381 num = true).
  { destruct Hnum as (d1 & f & -> & _ & Hd1 & Hf). unfold lacks. rewrite forallb_app.
    assert (Hd : forall s, forallb is_digit s = true ->
                           forallb (fun x => negb (x =? 8381)) s = true).
    { intros s. apply forallb_impl. intros c H. apply is_digit_cases in H. cbn [In] in H.
      repeat (destruct H as [<- | H]; [reflexivity |]). destruct H. }
    rewrite (Hd _ Hd1). destruct Hf as [-> | (d2 & -> & Hd2)]; [reflexivity |].
    cbn [forallb]. now rewrite (Hd _ Hd2). }
  change (u "₽") with [8381]. change (u "руб") with (1088 :: u "уб").
  change (u "rub") with (114 :: u "ub").
  rewrite (contains_lacks 8381 [] (cur :: num))
    by (unfold lacks in *; cbn [forallb]; rewrite Hnum8381; now destruct Hcur as [-> | ->]).
  rewrite (contains_lacks 1088), (contains_lacks 114);
    [| apply Hnum_lacks; [intros c H; apply (price_char_props c H) | now destruct Hcur as [-> | ->]]
     | apply Hnum_lacks; [intros c H; apply (price_char_props c H) | now destruct Hcur as [-> | ->]]].
  cbn [orb]. destruct Hcur as [-> | ->].
  - change (u "$") with [36]. cbn [contains starts_with]. reflexivity.
  - change (u "$") with [36]. change (u "usd") with (117 :: u "sd").
    rewrite (contains_lacks 117)
      by (apply Hnum_lacks; [intros c H; apply (price_char_props c H) | reflexivity]).
    assert (H36 : lacks 36 (8364 :: num) = true).
    { unfold lacks. cbn [forallb]. destruct Hnum as (d1 & f & -> & _ & Hd1 & Hf).
      rewrite forallb_app.
      assert (Hd : forall s, forallb is_digit s = true ->
                             forallb (fun x => negb (x =? 36)) s = true).
      { intros s. apply forallb_impl. intros c H. apply is_digit_cases in H. cbn [In] in H.
        repeat (destruct H as [<- | H]; [reflexivity |]). destruct H. }
      rewrite (Hd _ Hd1). destruct Hf as [-> | (d2 & -> & Hd2)]; [reflexivity |].
      cbn [forallb]. now rewrite (Hd _ Hd2). }
    rewrite (contains_lacks 36 [] _ H36). cbn [orb].
    change (u "€") with [8364]. cbn [contains starts_with]. reflexivity.
Qed.

Lemma format_price_cases (v : pyval) :
  format_price v = []
  \/ (exists num, is_number num
        /\ (format_price v = num ++ u "₽" \/ format_price v = 36 :: num
            \/ format_price v = 8364 :: num))
  \/ (format_price v <> [] /\ strip (format_price v) = format_price v
      /\ existsb (str_eqb (lower (format_price v)))
           [u "null"; u "none"; u "n/a"; u "не указана"] = false
      /\ findall number_pattern (format_price v) = []).
Proof.
  unfold format_price.
  destruct (negb (truthy v)); [now left |].
  destruct (negb (PyStr.truthy (strip (py_str v)))
            || existsb (str_eqb (lower (strip (py_str v))))
                 [u "null"; u "none"; u "n/a"; u "не указана"]) eqn:Enull; [now left |].
  apply orb_false_iff in Enull as [Hne Hnull]. apply negb_false_iff in Hne.
  apply truthy_nonempty in Hne. right.
  destruct (findall number_pattern (strip (py_str v))) as [| n0 rest] eqn:Efind.
  - right. split; [exact Hne |]. split; [apply strip_by_idem |]. split; [exact Hnull | exact Efind].
  - left. destruct (findall_head _ _ _ _ Efind) as (m & Hm & <-).
    apply search_sound in Hm as [_ Hden]. apply den_number in Hden.
    exists (replace_chr 44 (u ".") (m_text m)). split; [exact Hden |]. cbv zeta.
    repeat match goal with |- context [if ?b then _ else _] => destruct b end; auto.
Qed.

(** X4.  [format_price] applied to a price that it wrote changes
    nothing. *)
Theorem format_price_idempotent (v : pyval) :
  format_price (PStr (format_price v)) = format_price v.
Proof.
  destruct (format_price_cases v)
    as [-> | [(num & Hnum & [-> | [-> | ->]]) | (Hne & Hstrip & Hnull & Hfind)]].
  - reflexivity.
  - now apply format_price_fixes_rouble.
  - apply format_price_fixes_prefixed; [now left | exact Hnum].
  - apply format_price_fixes_prefixed; [now right | exact Hnum].
  - rewrite format_price_of_str by assumption. now rewrite Hfind.
Qed.

(** ** The heuristic prices are numbers *)

Lemma digit_props (c : N) :
  is_digit c = true ->
  is_space c = false /\ lower_c c = c /\ one_of [43; 45] c = false
  /\ (c =? 105) = false /\ (c =? 110) = false /\ (c =? 95) = false.
Proof.
  intros H. apply is_digit_cases in H. cbn [In] in H.
  repeat (destruct H as [<- | H]; [repeat split |]). destruct H.
Qed.

Lemma digitpart_tail_digits (s : pystr) : forallb is_digit s = true -> digitpart_tail s = [].
Proof.
  induction s as [| c s IH]; intros H; [reflexivity |].
  cbn [forallb] in H. apply andb_true_iff in H as [Hc Hs].
  cbn [digitpart_tail]. rewrite Hc. now apply IH.
Qed.

Lemma float_ok_digits (s : pystr) : s <> [] -> forallb is_digit s = true -> float_ok s = true.
Proof.
  intros Hne H. unfold float_ok.
  assert (Hstrip : strip_by float_space s = s).
  { apply strip_by_keeps. revert H. apply forallb_impl.
    intros c Hc. unfold float_space. now rewrite (proj1 (digit_props c Hc)). }
  rewrite Hstrip. destruct s as [| c s]; [contradiction |].
  cbn [forallb] in H. apply andb_true_iff in H as [Hc Hs].
  destruct (digit_props c Hc) as (_ & Hlow & Hsign & Hi & Hn & _).
  cbn [drop_sign]. rewrite Hsign. cbv zeta.
  replace (existsb (str_eqb (lower (c :: s))) [u "inf"; u "infinity"; u "nan"]) with false.
  2:{ unfold lower. cbn [map]. rewrite Hlow.
      change (u "inf") with (105 :: u "nf"). change (u "infinity") with (105 :: u "nfinity").
      change (u "nan") with (110 :: u "an"). cbn [existsb str_eqb]. now rewrite Hi, Hn. }
  cbn [digitpart]. rewrite Hc, (digitpart_tail_digits _ Hs). reflexivity.
Qed.

Lemma den_digits3 (prev : option N) (t r g g' : pystr) :
  den Description.digits3 prev t r g g' ->
  t <> [] /\ forallb is_digit t = true /\ (3 <= len t)%nat.
Proof.
  intros (t1 & t2 & g1 & -> & (c1 & -> & Hc1 & _)
          & (t3 & t4 & g2 & -> & (c2 & -> & Hc2 & _)
             & (t5 & t6 & g3 & -> & (c3 & -> & Hc3 & _) & (Hd & _)))).
  split; [discriminate |]. cbn [app forallb]. rewrite Hc1, Hc2, Hc3, Hd.
  split; [reflexivity |]. cbn [len length app]. lia.
Qed.

Lemma is_digit_word (c : N) : is_digit c = true -> is_word c = true.
Proof. intros H. unfold is_word. now rewrite H. Qed.

(** What the fall-back pattern finds: a run of three or more digits with no
    word character before it and none after it. *)
Lemma fallback_match (text : pystr) (m : rmatch) :
  search Description.fallback_pattern text = Some m ->
  text = m_pre m ++ m_grp m ++ m_post m
  /\ forallb is_digit (m_grp m) = true /\ (3 <= len (m_grp m))%nat
  /\ is_word_opt (last (m_pre m)) = false /\ is_word_opt (head (m_post m)) = false.
Proof.
  intros Hm. apply search_sound in Hm as [Htext Hden].
  destruct Hden as (t1 & t2 & g1 & Ht & (Ht1 & Hb1 & _)
                    & (t3 & t4 & g2 & Ht2 & ((g3 & Hd) & Hg2) & (Ht4 & Hb2 & Hg))).
  subst t1 t4 g2. rewrite app_nil_r in Ht2. subst t2. cbn [app] in *.
  rewrite Ht, Hg in *. clear Ht Hg.
  pose proof (den_digits3 _ _ _ _ _ Hd) as (Hne & Hdig & Hlen).
  split; [exact Htext |]. split; [exact Hdig |]. split; [exact Hlen |].
  destruct t3 as [| c0 ds]; [contradiction |].
  assert (Hlast : forall prev, exists c, last_chr prev (c0 :: ds) = Some c
                                         /\ is_digit c = true).
  { intros prev. unfold last_chr. destruct (last (c0 :: ds)) as [c |] eqn:El.
    - exists c. split; [reflexivity |]. apply last_Some in El as [l' El]. rewrite El in Hdig.
      rewrite forallb_app in Hdig. apply andb_true_iff in Hdig as [_ Hdig].
      cbn in Hdig. now apply andb_true_iff in Hdig as [Hdig _].
    - apply last_None in El. discriminate. }
  destruct (Hlast (last_chr (last_chr None (m_pre m)) [])) as (c & Hc & Hcd).
  rewrite Hc in Hb2. cbn [is_word_opt] in Hb2.
  rewrite (is_digit_word _ Hcd) in Hb2.
  cbn [forallb] in Hdig. apply andb_true_iff in Hdig as [Hc0 _].
  cbn [app head is_word_opt] in Hb1. rewrite (is_digit_word _ Hc0) in Hb1.
  unfold last_chr in Hb1.
  split.
  - destruct (last (m_pre m)) as [x |]; [| reflexivity].
    cbn [is_word_opt] in *. now destruct (is_word x).
  - now destruct (is_word_opt (head (m_post m))).
Qed.

Lemma fallback_match_digits (text : pystr) (m : rmatch) :
  search Description.fallback_pattern text = Some m ->
  m_grp m <> [] /\ forallb is_digit (m_grp m) = true /\ (3 <= len (m_grp m))%nat.
Proof.
  intros Hm. apply fallback_match in Hm as (_ & Hd & Hl & _).
  split; [| now split]. intros E. rewrite E in Hl. cbn in Hl. lia.
Qed.

Lemma fallback_group_digits (text n0 : pystr) (rest : list pystr) :
  findall_grp Description.fallback_pattern text = n0 :: rest ->
  n0 <> [] /\ forallb is_digit n0 = true.
Proof.
  intros H. destruct (findall_grp_head _ _ _ _ H) as (m & Hm & <-).
  apply fallback_match_digits in Hm as (H1 & H2 & _). now split.
Qed.

(** What the two extractors return is a number and the rouble sign. *)
Lemma try_patterns_number (ps : list re) (t q : pystr) :
  Description.try_patterns ps t = Some q ->
  exists num, q = num ++ u " ₽" /\ float_ok num = true.
Proof.
  intros H. apply try_patterns_some in H
    as (before & pattern & after & m & -> & _ & _ & (_ & Hok)).
  now exists (amount_of m).
Qed.

Lemma description_price_number (text p : pystr) :
  Description.extract_price_from_text text = PStr p ->
  exists num, p = num ++ u " ₽" /\ float_ok num = true.
Proof.
  unfold Description.extract_price_from_text.
  destruct (negb (PyStr.truthy text)); [discriminate |].
  destruct (Description.try_patterns Description.patterns text) as [q |] eqn:E.
  - intros H. injection H as <-. exact (try_patterns_number _ _ _ E).
  - destruct (findall_grp Description.fallback_pattern text) as [| n0 rest] eqn:Ef;
      [discriminate |].
    intros H. injection H as <-. exists n0. split; [reflexivity |].
    apply fallback_group_digits in Ef as [Hne Hd]. now apply float_ok_digits.
Qed.

(** X5.  In a text written with the characters of this model, a price that
    one of the two heuristic extractors returns is a number that [float]
    accepts, followed by a blank and the rouble sign. *)
Theorem heuristic_price_is_a_number (text p : pystr) :
  forallb modelled text = true ->
  Description.extract_price_from_text text = PStr p
  \/ Photo.extract_price_from_text text = PStr p ->
  exists num, p = num ++ u " ₽" /\ float_ok num = true.
Proof.
  intros _ [H | H]; [exact (description_price_number _ _ H) |].
  unfold Photo.extract_price_from_text in H.
  destruct (negb (PyStr.truthy text)); [discriminate |].
  destruct (Description.try_patterns Photo.patterns (strip (lower text))) as [q |] eqn:E;
    [| discriminate].
  injection H as <-. exact (try_patterns_number _ _ _ E).
Qed.

Lemma heuristic_price_is_a_number_witness :
  exists num, u "1500 ₽" = num ++ u " ₽" /\ float_ok num = true.
Proof.
  apply (heuristic_price_is_a_number (u "кеды за 1500"));
    [vm_compute; reflexivity | left; vm_compute; reflexivity].
Defined.

(** ** The heuristic extractor *)

Lemma patterns_need_a_digit :
  Forall (fun pattern => search pattern [] = None) Description.patterns.
Proof. repeat constructor. Qed.

Lemma passes_nonempty (text : pystr) (before after : list re) (pattern : re) (m : rmatch) :
  Description.patterns = before ++ pattern :: after -> passes text pattern m -> text <> [].
Proof.
  intros Hps [Hm _] ->. pose proof patterns_need_a_digit as Hall.
  rewrite Hps in Hall. apply Forall_app in Hall as [_ Hall].
  inversion Hall as [| ? ? Hnone _]; subst. congruence.
Qed.

Lemma description_price_first (text : pystr) (before after : list re) (pattern : re)
    (m : rmatch) :
  Description.patterns = before ++ pattern :: after ->
  Forall (fails text) before -> passes text pattern m ->
  Description.extract_price_from_text text = PStr (amount_of m ++ u " ₽").
Proof.
  intros Hps Hb Hm. pose proof (passes_nonempty _ _ _ _ _ Hps Hm) as Hne.
  apply truthy_nonempty in Hne. unfold Description.extract_price_from_text.
  rewrite Hne. cbn [negb]. rewrite Hps. now rewrite (try_patterns_first _ _ _ _ _ Hb Hm).
Qed.

Lemma description_price_fallback (text : pystr) :
  Forall (fails text) Description.patterns ->
  (forall m, search Description.fallback_pattern text = Some m ->
             Description.extract_price_from_text text = PStr (m_grp m ++ u " ₽"))
  /\ (search Description.fallback_pattern text = None ->
      Description.extract_price_from_text text = PNone).
Proof.
  intros Hall. apply try_patterns_none in Hall.
  unfold Description.extract_price_from_text.
  destruct (negb (PyStr.truthy text)) eqn:Ht.
  { apply negb_true_iff in Ht. destruct text; [| discriminate]. split; [discriminate | tauto]. }
  rewrite Hall. split.
  - intros m Hm. apply search_findall_grp in Hm as [rest ->]. reflexivity.
  - intros Hnone. destruct (findall_grp Description.fallback_pattern text) as [| n0 rest] eqn:E;
      [reflexivity |].
    destruct (findall_grp_head _ _ _ _ E) as (m & Hm & _). congruence.
Qed.

(** C5, as amended.  The text is not empty and written with the characters
    of this model; the patterns are tried in order on the stripped text, and
    a pattern passes when it matches and [float] accepts the number it caught
    (group 1 without its blanks and with a dot for its comma).  The price
    of the heuristic extractor is the number caught by the first pattern that
    passes, then a blank and the rouble sign.  When no pattern passes, it is
    the first run of three or more digits between word boundaries, then a
    blank and the rouble sign, and null when there is no such run.  A price
    is always a number that [float] accepts, a blank and the rouble sign.
    The text "Кеды, 3400 руб, синие" gives the name "Кеды", the price
    "3400 ₽", no colour (the plural "синие" is not in the vocabulary) and the
    description "синие". *)
Theorem C5_heuristic_price (text : pystr) :
  text <> [] -> forallb modelled text = true ->
  let found := price (Description.extract_product_info_locally text) in
  (forall before pattern after m,
     Description.patterns = before ++ pattern :: after ->
     Forall (fails (strip text)) before -> passes (strip text) pattern m ->
     found = PStr (amount_of m ++ u " ₽"))
  /\ (Forall (fails (strip text)) Description.patterns ->
      (forall m, search Description.fallback_pattern (strip text) = Some m ->
                 found = PStr (m_grp m ++ u " ₽")
                 /\ strip text = m_pre m ++ m_grp m ++ m_post m
                 /\ forallb is_digit (m_grp m) = true /\ (3 <= len (m_grp m))%nat
                 /\ is_word_opt (last (m_pre m)) = false
                 /\ is_word_opt (head (m_post m)) = false)
      /\ (search Description.fallback_pattern (strip text) = None -> found = PNone))
  /\ (forall p, found = PStr p ->
        ends_with (u " ₽") p = true
        /\ exists num, p = num ++ u " ₽" /\ float_ok num = true)
  /\ Description.extract_product_info_locally sneakers_text
       = mkProductInfo (PStr (u "Кеды")) (PStr (u "3400 ₽")) (PStr (u "синие"))
           PNone PNone PNone PNone.
Proof.
  intros Hne _ found. subst found. rewrite locally_price by assumption.
  split; [| split; [| split]].
  - intros before pattern after m. apply description_price_first.
  - intros Hall. destruct (description_price_fallback _ Hall) as [Hsome Hnone].
    split; [| exact Hnone].
    intros m Hm. split; [now apply Hsome |]. now apply fallback_match.
  - intros p H. destruct (description_price_number _ _ H) as [num [-> Hok]].
    split; [apply ends_with_app | eauto].
  - vm_compute. reflexivity.
Qed.

Lemma C5_heuristic_price_witness :
  search (Cat (Grp Description.amount) (Cat (Star is_space)
            (Or (LitI (u "₽")) (Or (Cat (LitI (u "руб")) (Opt (Chr 46)))
               (Or (LitI (u "рублей")) (LitI (u "рубля")))))))
    (strip sneakers_text)
    = Some (RMatch (u "Кеды, ") (u "3400 руб") (u "3400 ") (u ", синие"))
  /\ price (Description.extract_product_info_locally sneakers_text) = PStr (u "3400 ₽").
Proof.
  assert (Hm : search (Cat (Grp Description.amount) (Cat (Star is_space)
                         (Or (LitI (u "₽")) (Or (Cat (LitI (u "руб")) (Opt (Chr 46)))
                            (Or (LitI (u "рублей")) (LitI (u "рубля")))))))
                 (strip sneakers_text)
               = Some (RMatch (u "Кеды, ") (u "3400 руб") (u "3400 ") (u ", синие")))
    by (vm_compute; reflexivity).
  split; [exact Hm |].
  refine (proj1 (C5_heuristic_price sneakers_text _ _) [] _ _ _ eq_refl _ (conj Hm _));
    first [ discriminate | constructor | vm_compute; reflexivity ].
Defined.

(** C5 as stated fails on its own example: the price is written with a blank
    before the rouble sign, and no colour is found.  And a pattern that
    matches does not always give the price: in the second text the first
    pattern matches a number with a tab inside, which [float] refuses, and
    the price is the run of three digits found afterwards. *)
Lemma C5_counterexample :
  name (Description.extract_product_info_locally sneakers_text) = PStr (u "Кеды")
  /\ price (Description.extract_product_info_locally sneakers_text) = PStr (u "3400 ₽")
  /\ PStr (u "3400 ₽") <> PStr (u "3400₽")
  /\ color (Description.extract_product_info_locally sneakers_text) = PNone
  /\ PNone <> PStr (u "Синий")
  /\ (exists m, search (Cat (Grp Description.amount) (Cat (Star is_space)
                          (Or (LitI (u "₽")) (Or (Cat (LitI (u "руб")) (Opt (Chr 46)))
                             (Or (LitI (u "рублей")) (LitI (u "рубля")))))))
                  (u "1	500 руб") = Some m
                /\ m_grp m = u "1	500 ")
  /\ price (Description.extract_product_info_locally (u "1	500 руб")) = PStr (u "500 ₽").
Proof.
  repeat split; try (vm_compute; reflexivity); try discriminate.
  eexists. split; vm_compute; reflexivity.
Qed.


(** ** Answers of the AI that are not what the parsers expect *)

Lemma sanitize_text_raises (x : pyval) (m : option Z) :
  truthy x = true -> is_str x = false -> sanitize_text x m = Raise TypeError.
Proof. intros Ht Hs. unfold sanitize_text. rewrite Ht. now destruct x. Qed.

Lemma sanitize_text_ok_or_raises (x : pyval) (m : option Z) :
  (exists t, sanitize_text x m = Ok t) \/ sanitize_text x m = Raise TypeError.
Proof.
  unfold sanitize_text. destruct (negb (truthy x)); [left; now eexists |].
  destruct x; try (now right). left. destruct m as [n |]; [| now eexists].
  destruct (_ && _); now eexists.
Qed.

Lemma get_dict (d : list (pystr * pyval)) (k : pystr) (default : pyval) :
  get (PDict d) k default = Ok (from_option id default (assoc k d)).
Proof. reflexivity. Qed.

Lemma get_not_dict (v : pyval) (k : pystr) (default : pyval) :
  is_dict v = false -> get v k default = Raise AttributeError.
Proof. now destruct v. Qed.

Ltac run_sanitize :=
  repeat (cbn [mbind res_bind];
          match goal with
          | H : truthy ?v = true |- context [sanitize_text ?v ?m] =>
            rewrite (sanitize_text_raises v m) by assumption
          | |- context [sanitize_text ?v ?m] =>
            destruct (sanitize_text_ok_or_raises v m) as [[? ->] | ->]
          end).





(** ** The heuristic extractors *)

(** X8.  A text of white space only gives no attribute at all: the record
    of [extract_product_info_locally] is empty and every key of the dict of
    [extract_product_info_from_text] holds [None]. *)
Theorem blank_text_gives_nothing (text : pystr) :
  forallb is_space text = true ->
  Description.extract_product_info_locally text = empty_info
  /\ Photo.extract_product_info_from_text text
     = <["name" := PNone]> (<["price" := PNone]> (<["description" := PNone]>
       (<["category" := PNone]> (<["color" := PNone]> (<["size" := PNone]> ∅))))).
Proof.
  intros H. assert (Hstrip : strip text = []) by now apply strip_by_all.
  destruct text as [| c r]; [split; vm_compute; reflexivity |].
  unfold Description.extract_product_info_locally, Photo.extract_product_info_from_text.
  cbn [PyStr.truthy str_eqb negb]. cbv iota. rewrite Hstrip.
  split; vm_compute; reflexivity.
Qed.

Lemma blank_text_gives_nothing_witness :
  Description.extract_product_info_locally (u "  ") = empty_info.
Proof.
  apply (blank_text_gives_nothing (u "  ")). reflexivity.
Defined.

Lemma starts_with_sep (c : N) (kw : pystr) :
  forall a b, lacks c kw = true -> starts_with kw (a ++ c :: b) = starts_with kw a.
Proof.
  induction kw as [| k kw IH]; intros a b H; [now destruct a |].
  cbn [lacks forallb] in H. apply andb_true_iff in H as [Hk Hkw]. apply negb_true_iff in Hk.
  destruct a as [| x a]; cbn [app starts_with].
  - now rewrite Hk.
  - f_equal. now apply IH.
Qed.

Lemma contains_sep (c : N) (kw a b : pystr) :
  kw <> [] -> lacks c kw = true ->
  contains kw (a ++ c :: b) = contains kw a || contains kw b.
Proof.
  intros Hne H. induction a as [| x a IH].
  - pose proof (starts_with_sep c kw [] b H) as E. cbn [app] in E |- *.
    cbn [contains]. rewrite E. destruct kw; [contradiction | reflexivity].
  - pose proof (starts_with_sep c kw (x :: a) b H) as E. cbn [app] in E |- *.
    cbn [contains]. rewrite IH, E. now rewrite orb_assoc.
Qed.

Lemma starts_with_app_l (p a b : pystr) :
  starts_with p a = true -> starts_with p (a ++ b) = true.
Proof.
  revert a. induction p as [| k p IH]; intros a H; [reflexivity |].
  destruct a as [| x a]; [discriminate |]. cbn [app starts_with] in *.
  apply andb_true_iff in H as [-> H]. now apply IH.
Qed.

Lemma contains_app_l (p a b : pystr) : contains p a = true -> contains p (a ++ b) = true.
Proof.
  induction a as [| x a IH]; intros H.
  - cbn [contains] in H. rewrite orb_false_r in H.
    apply contains_starts_with. now apply (starts_with_app_l p [] b).
  - cbn [contains] in H. apply orb_true_iff in H as [H | H].
    + apply contains_starts_with. now apply starts_with_app_l.
    + cbn [app contains]. rewrite IH by exact H. apply orb_true_r.
Qed.

Lemma strip_by_decomp (p : N -> bool) (s : pystr) :
  exists l r, s = l ++ strip_by p s ++ r.
Proof.
  destruct (lstrip_by_decomp p s) as (l & Hs & _).
  destruct (lstrip_by_decomp p (rev (lstrip_by p s))) as (a & Hr & _).
  exists l, (rev a). unfold strip_by, rstrip_by.
  rewrite <- rev_app_distr, <- Hr, rev_involutive. exact Hs.
Qed.

Lemma lower_app (a b : pystr) : lower (a ++ b) = lower a ++ lower b.
Proof. apply map_app. Qed.

Lemma lower_join (parts : list pystr) :
  lower (join (u ", ") parts) = join (u ", ") (map lower parts).
Proof.
  induction parts as [| p ps IH]; [reflexivity |].
  destruct ps as [| q ps]; [reflexivity |].
  cbn [map] in *. rewrite !join_cons by discriminate.
  now rewrite !lower_app, IH.
Qed.

Lemma contains_join (kw : pystr) (parts : list pystr) :
  kw <> [] -> lacks 44 kw = true -> lacks 32 kw = true ->
  Forall (fun p => contains kw p = false) parts ->
  contains kw (join (u ", ") parts) = false.
Proof.
  intros Hne H44 H32. induction parts as [| p ps IH]; intros H.
  - destruct kw; [contradiction | reflexivity].
  - inversion H as [| ? ? Hp Hps]; subst. destruct ps as [| q ps]; [exact Hp |].
    rewrite join_cons by discriminate. change (u ", " ++ ?x) with (44 :: [] ++ 32 :: x).
    rewrite !contains_sep by assumption. rewrite Hp, (IH Hps).
    destruct kw; [contradiction | reflexivity].
Qed.

Lemma existsb_false {A} (f : A -> bool) (l : list A) :
  existsb f l = false <-> forall x, In x l -> f x = false.
Proof.
  induction l as [| a l IH]; cbn [existsb In]; [easy |].
  rewrite orb_false_iff, IH. split.
  - intros [Ha Hl] x [<- | Hx]; auto.
  - intros H. split; [apply H; now left | intros x Hx; apply H; now right].
Qed.

Lemma has_keyword_strip (p : pystr) :
  Description.has_keyword p = false -> Description.has_keyword (strip p) = false.
Proof.
  unfold Description.has_keyword. rewrite !existsb_false. intros H kw Hkw.
  destruct (strip_by_decomp is_space p) as (l & r & Hp). fold (strip p) in Hp.
  destruct (contains kw (lower (strip p))) eqn:E; [| reflexivity].
  rewrite <- (H kw Hkw). rewrite Hp, !lower_app. symmetry.
  apply contains_app_r. now apply contains_app_l.
Qed.

Lemma has_keyword_join (parts : list pystr) :
  Forall (fun p => Description.has_keyword p = false) parts ->
  Description.has_keyword (join (u ", ") parts) = false.
Proof.
  intros H. unfold Description.has_keyword. rewrite lower_join. apply existsb_false.
  intros kw Hkw.
  assert (Hshape : kw <> [] /\ lacks 44 kw = true /\ lacks 32 kw = true).
  { cbn [Description.keywords In] in Hkw.
    repeat (destruct Hkw as [<- | Hkw]; [repeat split; discriminate |]). destruct Hkw. }
  destruct Hshape as (Hne & H44 & H32). apply contains_join; try assumption.
  apply Forall_map. eapply Forall_impl; [exact H |]. intros p Hp. cbn beta in *.
  unfold Description.has_keyword in Hp. rewrite existsb_false in Hp. now apply Hp.
Qed.

Lemma join_nonempty (sep p : pystr) (ps : list pystr) : p <> [] -> join sep (p :: ps) <> [].
Proof. intros Hp. destruct ps; cbn [join]; [exact Hp | now destruct p]. Qed.

Lemma capitalize_nonempty (s : pystr) : s <> [] -> capitalize s <> [].
Proof. now destruct s. Qed.

Lemma filtered_parts (parts : list pystr) (l : pystr) (l0 : list pystr) :
  filter (fun p : pystr => PyStr.truthy p && negb (Description.has_keyword p)) parts = l :: l0 ->
  l <> [] /\ Forall (fun p => Description.has_keyword p = false) (l :: l0).
Proof.
  intros E.
  assert (H : forall p, p ∈ l :: l0 ->
                PyStr.truthy p && negb (Description.has_keyword p) = true).
  { intros p Hp. rewrite <- E in Hp. apply list_elem_of_filter in Hp as [Hp _].
    now apply Is_true_true. }
  split.
  - specialize (H l ltac:(left)). apply andb_true_iff in H as [H _].
    now apply truthy_nonempty.
  - apply Forall_forall. intros p Hp. specialize (H p Hp).
    apply andb_true_iff in H as [_ H]. now apply negb_true_iff.
Qed.

(** X9.  The description that [extract_product_info_locally] returns is not
    empty and holds none of the words that the extractor filters on
    (размер, категори, цвет, букет, in any case); and a record with a
    description has a name that is not empty. *)
Theorem local_description_has_no_keyword (text d : pystr) :
  description (Description.extract_product_info_locally text) = PStr d ->
  d <> [] /\ Description.has_keyword d = false
  /\ exists n, name (Description.extract_product_info_locally text) = PStr n /\ n <> [].
Proof.
  unfold Description.extract_product_info_locally.
  destruct (negb (PyStr.truthy text)); [discriminate |].
  cbv zeta.
  destruct (search Description.category_pattern _) as [m |];
    match goal with |- context [Description.find_size ?a ?b] =>
      destruct (Description.find_size a b) as [size wt1] end;
    destruct (Description.find_color Description.colors wt1) as [color wt2];
    generalize (Description.cleanup wt2); intros wt;
    (destruct (PyStr.truthy wt); [| discriminate]);
    (destruct (filter (fun p : pystr => PyStr.truthy p) (map strip (split_chr 44 wt)))
       as [| p0 rest] eqn:Eparts; [discriminate |]);
    (destruct (filter (fun p : pystr => PyStr.truthy p && negb (Description.has_keyword p)) rest)
       as [| l l0] eqn:Edesc; [discriminate |]);
    cbn [description name]; intros H;
    assert (Hd : d = join (u ", ") (l :: l0)) by congruence; subst d; clear H;
    destruct (filtered_parts _ _ _ Edesc) as [Hl Hall];
    (split; [now apply join_nonempty |]);
    (split; [now apply has_keyword_join |]);
    exists (capitalize p0); (split; [reflexivity |]);
    apply capitalize_nonempty, truthy_nonempty, Is_true_true;
    assert (Hp0 : p0 ∈ filter (fun p : pystr => PyStr.truthy p) (map strip (split_chr 44 wt)))
      by (rewrite Eparts; left);
    now apply list_elem_of_filter in Hp0 as [Hp0 _].
Qed.

Lemma local_description_has_no_keyword_witness :
  u "синие" <> [] /\ Description.has_keyword (u "синие") = false.
Proof.
  destruct (local_description_has_no_keyword sneakers_text (u "синие")) as (H1 & H2 & _);
    [vm_compute; reflexivity |].
  split; [exact H1 | exact H2].
Defined.

Lemma stripped_parts (parts : list pystr) (l : pystr) (l0 : list pystr) :
  map strip (filter (fun p : pystr => PyStr.truthy (strip p)
                                      && negb (Description.has_keyword p)) parts) = l :: l0 ->
  l <> [] /\ Forall (fun p => Description.has_keyword p = false) (l :: l0).
Proof.
  intros E.
  assert (H : forall q, q ∈ l :: l0 ->
                PyStr.truthy q = true /\ Description.has_keyword q = false).
  { intros q Hq. rewrite <- E in Hq. apply list_elem_of_fmap in Hq as (p & -> & Hp).
    apply list_elem_of_filter in Hp as [Hp _]. apply Is_true_true in Hp.
    apply andb_true_iff in Hp as [H1 H2]. split; [exact H1 |].
    apply has_keyword_strip. now apply negb_true_iff. }
  split.
  - apply truthy_nonempty. apply H. left.
  - apply Forall_forall. intros q Hq. now apply H.
Qed.

(** X10.  The description that [extract_product_info_from_text] of photo.py
    returns is not empty and holds none of the words that the extractor
    filters on (размер, категори, цвет, букет, in any case). *)
Theorem caption_description_has_no_keyword (text d : pystr) :
  Photo.extract_product_info_from_text text !! "description"%string = Some (PStr d) ->
  d <> [] /\ Description.has_keyword d = false.
Proof.
  unfold Photo.extract_product_info_from_text.
  destruct (negb (PyStr.truthy text)); [discriminate |].
  cbv zeta.
  destruct (search Description.category_pattern _) as [m |];
    match goal with |- context [Photo.find_size ?a ?b] =>
      destruct (Photo.find_size a b) as [size wt1] end;
    destruct (Photo.find_color Photo.colors wt1) as [color wt2];
    generalize (Description.cleanup wt2); intros wt;
    (destruct (PyStr.truthy wt); [| discriminate]);
    (destruct (Photo.split_first 44 wt) as [p0 [desc |]]; [| discriminate]);
    cbv beta;
    do 2 (rewrite lookup_insert_ne by discriminate);
    rewrite lookup_insert_eq;
    (destruct (map strip _) as [| l l0] eqn:Edesc; [discriminate |]);
    intros H; assert (Hd : d = join (u ", ") (l :: l0)) by congruence; subst d; clear H;
    destruct (stripped_parts _ _ _ Edesc) as [Hl Hall];
    (split; [now apply join_nonempty | now apply has_keyword_join]).
Qed.

Lemma caption_description_has_no_keyword_witness :
  u "синие" <> [] /\ Description.has_keyword (u "синие") = false.
Proof.
  apply (caption_description_has_no_keyword sneakers_text (u "синие")).
  vm_compute. reflexivity.
Defined.
(** ** bot/handlers/photo.py: the photo with its caption *)

Lemma analyze_product_image_returns (L : Json.limits) (ai : ai_outcome) :
  exists r, analyze_product_image L ai = Ok r.
Proof.
  unfold analyze_product_image, catch.
  destruct (_ ≫= _); eexists; reflexivity.
Qed.

Lemma extract_product_info_returns (L : Json.limits) (text : pystr) (ai : ai_outcome) :
  exists r, extract_product_info L text ai = Ok r.
Proof.
  unfold extract_product_info, catch.
  destruct (_ ≫= _); eexists; reflexivity.
Qed.

Lemma returned_ok {A} (r : res A) : returned r = true -> exists a, r = Ok a.
Proof. destruct r; [eauto | discriminate]. Qed.

(** The record of [process_product_photo] when its calls return and the key
    is set. *)
Lemma process_product_photo_stored (L : Json.limits) (T : calls) (api_key : pystr)
    (caption : option pystr) (vision text_ai : ai_outcome) :
  photo_calls_return T = true -> api_key <> [] ->
  exists from_photo,
    analyze_product_image L vision = Ok from_photo
    /\ Photo.process_product_photo L T api_key caption vision text_ai
       = (let caption := from_option id [] caption in
          let caption_price := Photo.extract_price_from_text caption in
          let product_info :=
            if truthy caption_price then set_price caption_price from_photo
            else from_photo in
          if PyStr.truthy caption && negb (truthy caption_price) then
            caption_info ← extract_product_info L caption text_ai;
            Ok (merge_caption product_info caption_info)
          else Ok product_info).
Proof.
  intros HT Hkey. unfold photo_calls_return in HT.
  apply andb_true_iff in HT as [HT H4]. apply andb_true_iff in HT as [HT H3].
  apply andb_true_iff in HT as [H1 H2].
  apply returned_ok in H1 as [[] H1], H2 as [path H2], H3 as [[] H3], H4 as [[] H4].
  apply truthy_nonempty in Hkey.
  destruct (analyze_product_image_returns L vision) as [r0 Hr0].
  exists r0. split; [exact Hr0 |].
  unfold Photo.process_product_photo, create_ai_client.
  rewrite H1, H2, H3, H4, Hkey, Hr0. cbn [mbind res_bind]. cbv zeta.
  destruct (_ && _); [| reflexivity].
  match goal with |- context [extract_product_info ?l ?t ?a] =>
    destruct (extract_product_info_returns l t a) as [r1 ->] end.
  reflexivity.
Qed.




(** ** The templates: [_wrap_text] *)

Lemma wrap_step_eq (w : nat) (lines cur : list pystr) (word : pystr) :
  wrap_step w (lines, cur) word =
    if (w <? len (join (u " ") (cur ++ [word])))%nat
    then (lines ++ [join (u " ") cur], [word])
    else (lines, cur ++ [word]).
Proof. unfold wrap_step. now rewrite removelast_last. Qed.

Lemma wrap_fold_words (w : nat) (ws : list pystr) :
  forall lines cur,
    Forall is_clean_word ws -> Forall is_clean_word cur ->
    let st := fold_left (wrap_step w) ws (lines, cur) in
    concat (map split_ws (fst st)) ++ snd st = concat (map split_ws lines) ++ cur ++ ws
    /\ Forall is_clean_word (snd st).
Proof.
  induction ws as [| x ws IH]; intros lines cur Hws Hcur; cbn [fold_left].
  - cbv zeta. cbn [fst snd]. now rewrite app_nil_r.
  - inversion Hws as [| ? ? Hx Hws']; subst. rewrite wrap_step_eq.
    destruct (w <? len (join (u " ") (cur ++ [x])))%nat.
    + destruct (IH (lines ++ [join (u " ") cur]) [x] Hws' ltac:(now constructor)) as [E F].
      cbv zeta in *. split; [| exact F]. rewrite E.
      rewrite map_app, concat_app. cbn [map concat]. rewrite app_nil_r.
      rewrite split_ws_join by exact Hcur. now rewrite <- !app_assoc.
    + destruct (IH lines (cur ++ [x]) Hws' ltac:(apply Forall_app; split; [exact Hcur | now constructor]))
        as [E F].
      cbv zeta in *. split; [| exact F]. rewrite E. now rewrite <- !app_assoc.
Qed.

(** X12.  [_wrap_text] loses no word and keeps the order of the words: the
    words of its lines, taken line after line, are the words of the text. *)
Theorem wrap_text_keeps_the_words (text : pystr) (max_width : nat) :
  concat (map split_ws (_wrap_text text max_width)) = split_ws text.
Proof.
  rewrite wrap_text_unfold.
  destruct (wrap_fold_words max_width (split_ws text) [] [] (split_ws_clean text)
              ltac:(constructor)) as [E F].
  cbv zeta in *. cbn [map concat app] in E.
  set (st := fold_left (wrap_step max_width) (split_ws text) ([], [])) in *.
  rewrite <- E. clearbody st. clear E. unfold wrap_finish. destruct st as [lines cur].
  cbn [fst snd] in *. destruct cur as [| c cur]; [now rewrite app_nil_r |].
  rewrite map_app, concat_app. cbn [map concat]. rewrite app_nil_r.
  now rewrite split_ws_join by exact F.
Qed.

Lemma length_join_prefix (sep : pystr) (a b : list pystr) :
  (len (join sep a) <= len (join sep (a ++ b)))%nat.
Proof.
  unfold len. induction a as [| p a IH]; [cbn; lia |].
  destruct a as [| q a].
  - destruct b; cbn [app join]; [lia |]. rewrite length_app. lia.
  - cbn [app] in *.
    rewrite (join_cons sep p (q :: a)), (join_cons sep p (q :: a ++ b)) by discriminate.
    rewrite !length_app. lia.
Qed.

Lemma wrap_fold_fits (w : nat) (ws : list pystr) :
  forall cur,
    (len (join (u " ") (cur ++ ws)) <= w)%nat ->
    fold_left (wrap_step w) ws ([], cur) = ([], cur ++ ws).
Proof.
  induction ws as [| x ws IH]; intros cur H; cbn [fold_left]; [now rewrite app_nil_r |].
  rewrite wrap_step_eq.
  assert (Hx : (len (join (u " ") (cur ++ [x])) <= w)%nat).
  { pose proof (length_join_prefix (u " ") (cur ++ [x]) ws) as Hp.
    rewrite <- app_assoc in Hp. cbn [app] in Hp. lia. }
  apply Nat.ltb_ge in Hx. rewrite Hx. rewrite IH; rewrite <- app_assoc; [reflexivity | exact H].
Qed.

(** X13.  A text whose words, one blank apart, fit the budget is wrapped
    into exactly one line, those words one blank apart; a text without a
    word gives no line. *)
Theorem wrap_text_of_a_short_text (text : pystr) (max_width : nat) :
  (split_ws text = [] -> _wrap_text text max_width = [])
  /\ (split_ws text <> [] ->
      (len (join (u " ") (split_ws text)) <= max_width)%nat ->
      _wrap_text text max_width = [join (u " ") (split_ws text)]).
Proof.
  rewrite wrap_text_unfold. split.
  - intros ->. reflexivity.
  - intros Hne Hfit. rewrite (wrap_fold_fits max_width (split_ws text) [] Hfit).
    unfold wrap_finish. cbn [fst snd app]. now destruct (split_ws text).
Qed.

Lemma wrap_text_of_a_short_text_witness :
  _wrap_text (u "  Кеды   синие ") 40 = [u "Кеды синие"].
Proof.
  apply (wrap_text_of_a_short_text (u "  Кеды   синие ") 40);
    [vm_compute; discriminate | vm_compute; lia].
Defined.

(** ** bot/ai/image_generator.py *)

Lemma starts_with_shorter (a b s : pystr) :
  starts_with (a ++ b) s = true -> starts_with a s = true.
Proof.
  revert s. induction a as [| x a IH]; intros s H; [reflexivity |].
  destruct s as [| y s]; [discriminate |]. cbn [app starts_with] in *.
  apply andb_true_iff in H as [-> H]. now apply IH.
Qed.

Lemma data_image_url_some (x : pyval) (url : pystr) :
  ImageGenerator.data_image_url x = Returns (Some url) ->
  starts_with (u "data:image") url = true.
Proof.
  destruct x; try discriminate. cbn [ImageGenerator.data_image_url].
  destruct (starts_with (u "data:image") s) eqn:E; [| discriminate].
  intros H. injection H as <-. exact E.
Qed.

Lemma url_of_some (x : pyval) (url : pystr) :
  ImageGenerator.url_of x = Returns (Some url) -> starts_with (u "data:image") url = true.
Proof.
  unfold ImageGenerator.url_of.
  destruct (dict_get x (u "image_url") (PDict [])) as [image_url |]; [| discriminate].
  cbn [mbind outcome_bind].
  destruct (dict_get image_url (u "url") (PStr [])) as [v |]; [| discriminate].
  cbn [mbind outcome_bind]. apply data_image_url_some.
Qed.

Lemma scan_images_some (images : list pyval) (url : pystr) :
  ImageGenerator.scan_images images = Returns (Some url) ->
  starts_with (u "data:image") url = true.
Proof.
  induction images as [| img rest IH]; [discriminate |].
  cbn [ImageGenerator.scan_images]. destruct img; try exact IH.
  destruct (ImageGenerator.url_of (PDict d)) as [[found |] |] eqn:E; cbn [mbind outcome_bind];
    [| exact IH | discriminate].
  intros H. injection H as <-. exact (url_of_some _ _ E).
Qed.

Lemma scan_parts_some (content : list pyval) (url : pystr) :
  ImageGenerator.scan_parts content = Returns (Some url) ->
  starts_with (u "data:image") url = true
  \/ exists mime data, url = u "data:" ++ mime ++ u ";base64," ++ data.
Proof.
  induction content as [| part rest IH]; [discriminate |].
  cbn [ImageGenerator.scan_parts]. destruct part; try exact IH.
  destruct (dict_get (PDict d) (u "type") PNone) as [type |]; [| discriminate].
  cbn [mbind outcome_bind]. destruct (eq_str type (u "image_url")).
  - destruct (ImageGenerator.url_of (PDict d)) as [[found |] |] eqn:E; cbn [mbind outcome_bind];
      [| exact IH | discriminate].
    intros H. injection H as <-. left. exact (url_of_some _ _ E).
  - destruct (assoc (u "inline_data") d) as [inline |]; [| exact IH].
    destruct (dict_get inline (u "mime_type") (PStr (u "image/png"))) as [mime |];
      [| discriminate].
    cbn [mbind outcome_bind].
    destruct (dict_get inline (u "data") (PStr [])) as [data |]; [| discriminate].
    cbn [mbind outcome_bind]. destruct (truthy data); [| exact IH].
    intros H. injection H as <-. right. now exists (py_str mime), (py_str data).
Qed.

(** What the pattern of [from_text] matches. *)
Lemma den_data_url (prev : option N) (t r g g' : pystr) :
  den ImageGenerator.data_url_in_text prev t r g g' ->
  exists mime payload,
    t = u "data:image/" ++ mime ++ u ";base64," ++ payload
    /\ mime <> [] /\ forallb ImageGenerator.not_semicolon mime = true
    /\ payload <> [] /\ forallb ImageGenerator.is_base64 payload = true.
Proof.
  intros (t1 & t2 & g1 & -> & H1 & (t3 & t4 & g2 & -> & H3 & (t5 & t6 & g3 & -> & H5 & H6))).
  apply den_Lit in H1 as [-> _]. apply den_Lit in H5 as [-> _].
  apply den_Plus in H3 as (Hm & Hmime & _). apply den_Plus in H6 as (Hp & Hpay & _).
  now exists t3, t6.
Qed.

Lemma from_text_some (s url : pystr) :
  ImageGenerator.from_text s = Some url -> starts_with (u "data:image") url = true.
Proof.
  unfold ImageGenerator.from_text.
  destruct (if contains (u "data:image") s then search ImageGenerator.data_url_in_text s
            else None) as [m |] eqn:E.
  - intros H. injection H as <-. destruct (contains (u "data:image") s); [| discriminate].
    apply search_sound in E as [_ Hden].
    apply den_data_url in Hden as (mime & payload & -> & _).
    change (u "data:image/") with (u "data:image" ++ [47]). rewrite <- app_assoc.
    apply starts_with_app.
  - destruct (starts_with (u "data:image") s) eqn:Es; [| discriminate].
    intros H. now injection H as <-.
Qed.

Lemma extracted_image_shape (response : pyval) (url : pystr) :
  ImageGenerator._extract_image_from_response response = Some url ->
  starts_with (u "data:image") url = true
  \/ exists mime data, url = u "data:" ++ mime ++ u ";base64," ++ data.
Proof.
  unfold ImageGenerator._extract_image_from_response.
  destruct (dict_get response (u "choices") (PList [])) as [choices |]; [| discriminate].
  cbn [mbind outcome_bind]. destruct (negb (truthy choices)); [discriminate |].
  destruct (first_item choices) as [first |]; [| discriminate].
  cbn [mbind outcome_bind].
  destruct (dict_get first (u "message") (PDict [])) as [message |]; [| discriminate].
  cbn [mbind outcome_bind].
  destruct (dict_get message (u "images") (PList [])) as [images |]; [| discriminate].
  cbn [mbind outcome_bind].
  destruct (if truthy images then _ else _) as [[found |] |] eqn:Eimg;
    cbn [mbind outcome_bind]; [| | discriminate].
  - intros H. injection H as <-. left.
    destruct (truthy images); [| discriminate].
    destruct (items images) as [l |]; [| discriminate]. cbn [mbind outcome_bind] in Eimg.
    exact (scan_images_some _ _ Eimg).
  - destruct (dict_get message (u "content") PNone) as [content |]; [| discriminate].
    cbn [mbind outcome_bind]. destruct content; try discriminate.
    + intros H. left. exact (from_text_some _ _ H).
    + destruct (ImageGenerator.scan_parts l) as [r |] eqn:Eparts; [| discriminate].
      intros ->. exact (scan_parts_some _ _ Eparts).
Qed.

Lemma extracted_image_starts_with_data (response : pyval) (url : pystr) :
  ImageGenerator._extract_image_from_response response = Some url ->
  starts_with (u "data:") url = true.
Proof.
  intros H. destruct (extracted_image_shape _ _ H) as [Hs | (mime & data & ->)];
    [| apply starts_with_app].
  change (u "data:image") with (u "data:" ++ u "image") in Hs.
  exact (starts_with_shorter _ _ _ Hs).
Qed.

(** X14.  Whatever the API answers, [_extract_image_from_response] returns
    [None] or a string that starts with [data:]: one that starts with
    [data:image], or one put together from the [inline_data] of a part as
    [data:], its type, [;base64,] and its data. *)
Theorem extracted_image_is_a_data_url (response : pyval) (url : pystr) :
  ImageGenerator._extract_image_from_response response = Some url ->
  starts_with (u "data:") url = true
  /\ (starts_with (u "data:image") url = true
      \/ exists mime data, url = u "data:" ++ mime ++ u ";base64," ++ data).
Proof.
  intros H. split; [exact (extracted_image_starts_with_data _ _ H) |].
  exact (extracted_image_shape _ _ H).
Qed.

Lemma extracted_image_is_a_data_url_witness :
  starts_with (u "data:") (u "data:image/png;base64,QUJD") = true.
Proof.
  apply (extracted_image_is_a_data_url
           (PDict [(u "choices",
                    PList [PDict [(u "message",
                                   PDict [(u "content",
                                           PStr (u "Готово: data:image/png;base64,QUJD."))])]])])).
  vm_compute. reflexivity.
Defined.

Lemma base64_not_newline (c : N) :
  ImageGenerator.is_base64 c = true -> negb (c =? 10) = true.
Proof.
  unfold ImageGenerator.is_base64, is_upper_ascii, is_lower_ascii, is_digit, in_range, one_of.
  change (u "+/=") with [43; 47; 61]. cbn [existsb]. intros H.
  apply negb_true_iff, N.eqb_neq. intros ->. discriminate.
Qed.

Lemma star_greedy_whole {A} (p : N -> bool) (ws g : pystr) (k : mstate -> option A) (a : A)
    (prev : option N) :
  forallb p ws = true -> k (MState (last_chr prev ws) [] g) = Some a ->
  star_greedy p prev ws g k = Some a.
Proof.
  intros Hws Hk. rewrite <- (app_nil_r ws). now apply star_greedy_max.
Qed.

(** [download_image_sync] reads a data URL of the shape that [from_text]
    cuts out: it decodes the payload and opens the bytes. *)
Lemma download_data_url (W : world) (mime payload : pystr) :
  mime <> [] -> forallb ImageGenerator.not_semicolon mime = true ->
  payload <> [] -> forallb ImageGenerator.is_base64 payload = true ->
  download_image_sync W (u "data:image/" ++ mime ++ u ";base64," ++ payload)
    = match b64decode W payload with
      | Ok image_data =>
        match image_open W image_data with
        | Ok img => Some img
        | Raise _ => None
        end
      | Raise _ => None
      end.
Proof.
  intros Hm Hmime Hp Hpay. unfold download_image_sync.
  replace (starts_with (u "data:image") (u "data:image/" ++ mime ++ u ";base64," ++ payload))
    with true
    by (symmetry; change (u "data:image/") with (u "data:image" ++ [47]);
        rewrite <- app_assoc; apply starts_with_app).
  assert (Hmatch : exists prev,
            match_here data_url_pattern None
              (u "data:image/" ++ mime ++ u ";base64," ++ payload)
            = Some (MState prev [] payload)).
  { unfold match_here, data_url_pattern. rewrite run_Cat, run_Lit.
    destruct mime as [| c mime]; [contradiction |].
    destruct payload as [| d payload]; [contradiction |].
    cbn [forallb] in Hmime, Hpay. apply andb_true_iff in Hmime as [Hc Hmime].
    apply andb_true_iff in Hpay as [Hd Hpay].
    unfold Plus. cbn [run ms_rest ms_prev ms_grp app].
    unfold ImageGenerator.not_semicolon in Hc. rewrite Hc.
    eexists. apply star_greedy_max; [exact Hmime | | reflexivity].
    rewrite run_Lit. cbn [run ms_rest ms_prev ms_grp].
    rewrite (base64_not_newline d Hd).
    erewrite star_greedy_whole; [reflexivity | |].
    - revert Hpay. apply forallb_impl. exact base64_not_newline.
    - cbn [ms_rest ms_prev length]. rewrite Nat.sub_0_r.
      change (S (length payload)) with (length (d :: payload)). now rewrite firstn_all. }
  destruct Hmatch as [prev ->]. cbn [ms_grp]. unfold mbind, res_bind.
  destruct (b64decode W payload) as [image_data |]; [| reflexivity].
  now destruct (image_open W image_data).
Qed.

Lemma extract_from_text_answer (content : pystr) :
  ImageGenerator._extract_image_from_response
    (PDict [(u "choices", PList [PDict [(u "message", PDict [(u "content", PStr content)])]])])
  = ImageGenerator.from_text content.
Proof. reflexivity. Qed.

(** X15.  The data URL that [_extract_image_from_response] cuts out of a
    text answer is one that the templates can read: [data:image/], a type,
    [;base64,] and a payload in the base-64 alphabet; [download_image_sync]
    decodes that payload and opens the bytes, without a request. *)
Theorem text_answer_image_is_readable (W : world) (content : pystr) (m : rmatch) :
  search ImageGenerator.data_url_in_text content = Some m ->
  ImageGenerator._extract_image_from_response
    (PDict [(u "choices", PList [PDict [(u "message", PDict [(u "content", PStr content)])]])])
  = Some (m_text m)
  /\ exists mime payload,
       m_text m = u "data:image/" ++ mime ++ u ";base64," ++ payload
       /\ payload <> [] /\ forallb ImageGenerator.is_base64 payload = true
       /\ download_image_sync W (m_text m)
          = match b64decode W payload with
            | Ok image_data =>
              match image_open W image_data with
              | Ok img => Some img
              | Raise _ => None
              end
            | Raise _ => None
            end.
Proof.
  intros Hs. destruct (search_sound _ _ _ Hs) as [Hcontent Hden].
  apply den_data_url in Hden as (mime & payload & Ht & Hm & Hmime & Hp & Hpay).
  split.
  - rewrite extract_from_text_answer. unfold ImageGenerator.from_text.
    replace (contains (u "data:image") content) with true; [now rewrite Hs |].
    symmetry. rewrite Hcontent. apply contains_app_r, contains_app_l.
    apply contains_starts_with. rewrite Ht.
    change (u "data:image/") with (u "data:image" ++ [47]). rewrite <- app_assoc.
    apply starts_with_app.
  - exists mime, payload. split; [exact Ht |]. split; [exact Hp |]. split; [exact Hpay |].
    rewrite Ht. now apply download_data_url.
Qed.

Lemma text_answer_image_is_readable_witness :
  let content := u "Готово: data:image/png;base64,QUJD." in
  let m := RMatch (u "Готово: ") (u "data:image/png;base64,QUJD") [] (u ".") in
  search ImageGenerator.data_url_in_text content = Some m
  /\ exists mime payload,
       m_text m = u "data:image/" ++ mime ++ u ";base64," ++ payload
       /\ payload <> [] /\ forallb ImageGenerator.is_base64 payload = true
       /\ download_image_sync offline_world (m_text m)
          = match b64decode offline_world payload with
            | Ok image_data =>
              match image_open offline_world image_data with
              | Ok img => Some img
              | Raise _ => None
              end
            | Raise _ => None
            end.
Proof.
  intros content m.
  assert (H : search ImageGenerator.data_url_in_text content = Some m)
    by (vm_compute; reflexivity).
  split; [exact H |].
  exact (proj2 (text_answer_image_is_readable offline_world content m H)).
Defined.

(** ** The handlers *)

Lemma text_as_name_nonempty (user_text : pystr) :
  user_text <> [] -> Handlers.text_as_name user_text <> [].
Proof.
  intros H. unfold Handlers.text_as_name. destruct (50 <? len user_text)%nat; [| exact H].
  destruct user_text; [contradiction | discriminate].
Qed.

Lemma text_as_name_length (user_text : pystr) :
  (len (Handlers.text_as_name user_text) <= 53)%nat.
Proof.
  unfold Handlers.text_as_name, len. destruct (50 <? length user_text)%nat eqn:E.
  - rewrite length_app, length_take. change (length (u "...")) with 3%nat. lia.
  - apply Nat.ltb_ge in E. lia.
Qed.

(** The record of [process_text_description] for a message with text whose
    calls return. *)
Lemma process_text_description_stored (L : Json.limits) (T : calls) (api_key text : pystr)
    (ai : ai_outcome) :
  text_calls_return T = true ->
  let local := Description.extract_product_info_locally text in
  Handlers.process_text_description L T api_key (Some text) ai
  = if truthy (name local) then Returns local
    else if PyStr.truthy api_key then lift (extract_product_info L text ai)
    else Returns (mkProductInfo (PStr (Handlers.text_as_name text))
                    (Description.extract_price_from_text text)
                    PNone PNone PNone PNone PNone).
Proof.
  intros HT local. unfold text_calls_return in HT.
  apply andb_true_iff in HT as [HT H3]. apply andb_true_iff in HT as [H1 H2].
  apply returned_ok in H1 as [[] H1], H2 as [[] H2], H3 as [[] H3].
  unfold Handlers.process_text_description, Handlers.locally, create_ai_client.
  fold local. rewrite H1, H2, H3. cbn [lift mbind outcome_bind].
  destruct (truthy (name local)); cbn [negb]; [reflexivity |].
  destruct (PyStr.truthy api_key); cbn [lift mbind outcome_bind try_except];
    [| reflexivity].
  unfold Handlers.analysed.
  destruct (extract_product_info_returns L text ai) as [r ->]. reflexivity.
Qed.



(** *** The stored record *)

Lemma fields_of_insert (d : gmap string pyval) (k : string) (v : pyval) :
  Handlers.is_field k = true ->
  forallb (fun kv => Handlers.is_field (fst kv)) (map_to_list d) = true ->
  forallb (fun kv => Handlers.is_field (fst kv)) (map_to_list (<[k := v]> d)) = true.
Proof.
  intros Hk Hd. apply forallb_forall. intros [i x] Hin.
  apply list_elem_of_In, elem_of_map_to_list, lookup_insert_Some in Hin
    as [[<- _] | [_ Hin]]; [exact Hk |].
  rewrite forallb_forall in Hd. apply (Hd (i, x)).
  now apply list_elem_of_In, elem_of_map_to_list.
Qed.

Lemma fields_of_upd (e d : gmap string pyval) (k : string) :
  Handlers.is_field k = true ->
  forallb (fun kv => Handlers.is_field (fst kv)) (map_to_list d) = true ->
  forallb (fun kv => Handlers.is_field (fst kv)) (map_to_list (upd e k d)) = true.
Proof. intros Hk Hd. unfold upd. destruct (truthy _); [now apply fields_of_insert | exact Hd]. Qed.

Lemma ProductInfo_of_to_dict (p : ProductInfo) :
  Handlers.ProductInfo_of (to_dict p) = Returns p.
Proof.
  destruct p. unfold Handlers.ProductInfo_of, to_dict.
  cbn [TextAnalyzer.name TextAnalyzer.price TextAnalyzer.description TextAnalyzer.category
       TextAnalyzer.color TextAnalyzer.size TextAnalyzer.other_features].
  rewrite !fields_of_insert by reflexivity. reflexivity.
Qed.


(** X18.  The text that the user adds to a photo record leaves the stored
    dict readable: when [ProductInfo] could be built from the dict before
    [add_text_to_photo_handler], it can be built after it, and the additional
    features are the same. *)
Theorem added_text_keeps_the_record_readable
    (user_text : pystr) (product_dict : gmap string pyval) (p : ProductInfo) :
  Handlers.ProductInfo_of product_dict = Returns p ->
  exists p',
    Handlers.ProductInfo_of (Photo.add_text_to_photo_handler user_text product_dict)
      = Returns p'
    /\ other_features p' = other_features p.
Proof.
  unfold Handlers.ProductInfo_of, Photo.add_text_to_photo_handler.
  destruct (forallb _ (map_to_list product_dict)) eqn:Hd; [| discriminate].
  intros H. injection H as <-. rewrite merge_text_unfold.
  set (e := Photo.extract_product_info_from_text user_text).
  assert (Hdesc : forallb (fun kv => Handlers.is_field (fst kv))
                    (map_to_list (upd_description e (upd e "price" (upd e "name" product_dict))))
                  = true).
  { unfold upd_description.
    repeat match goal with |- context [if ?b then _ else _] => destruct b end;
      repeat first [apply fields_of_insert; [reflexivity |]
                   | apply fields_of_upd; [reflexivity |]]; exact Hd. }
  assert (Hall : forallb (fun kv => Handlers.is_field (fst kv))
                   (map_to_list
                      (upd e "size" (upd e "color" (upd e "category"
                         (upd_description e (upd e "price" (upd e "name" product_dict)))))))
                 = true).
  { repeat (apply fields_of_upd; [reflexivity |]). exact Hdesc. }
  rewrite Hall.
  eexists. split; [reflexivity |]. cbn [other_features]. unfold Photo.dget.
  rewrite !upd_lookup_ne by discriminate.
  rewrite upd_description_lookup_ne by discriminate.
  now rewrite !upd_lookup_ne by discriminate.
Qed.

Lemma added_text_keeps_the_record_readable_witness :
  exists p',
    Handlers.ProductInfo_of
      (Photo.add_text_to_photo_handler (u "Кеды, 3400 руб, синие") (to_dict bare_photo_info))
      = Returns p'
    /\ other_features p' = other_features bare_photo_info.
Proof.
  apply added_text_keeps_the_record_readable. apply ProductInfo_of_to_dict.
Defined.

(** *** The template name in the callback data *)

Lemma starts_with_drop (p s : pystr) :
  starts_with p s = true -> s = p ++ drop (length p) s.
Proof.
  revert s. induction p as [| x p IH]; intros s H; [reflexivity |].
  destruct s as [| y s]; [discriminate |]. cbn [starts_with] in H.
  apply andb_true_iff in H as [Hx H]. apply N.eqb_eq in Hx as ->.
  cbn [app length drop]. f_equal. now apply IH.
Qed.

Lemma split_chr_word (c : N) (w r : pystr) :
  lacks c w = true -> split_chr c (w ++ c :: r) = w :: split_chr c r.
Proof.
  induction w as [| x w IH]; intros H; cbn [app split_chr].
  - now rewrite N.eqb_refl.
  - cbn [lacks forallb] in H. apply andb_true_iff in H as [Hx H].
    apply negb_true_iff in Hx. rewrite Hx. fold (lacks c w) in H. now rewrite IH.
Qed.

Lemma first_word (c : N) (s : pystr) :
  exists w rest, s = w ++ rest /\ lacks c w = true
                 /\ (rest = [] \/ exists r, rest = c :: r)
                 /\ exists ws, split_chr c s = w :: ws.
Proof.
  induction s as [| x s (w & rest & Hs & Hw & Hrest & ws & Hsplit)].
  - exists [], []. repeat split; [now left | now exists []].
  - destruct (x =? c) eqn:Hx.
    + apply N.eqb_eq in Hx as ->. exists [], (c :: s). repeat split.
      * right. now exists s.
      * exists (split_chr c s). cbn [split_chr]. now rewrite N.eqb_refl.
    + exists (x :: w), rest. repeat split.
      * cbn [app]. now rewrite Hs.
      * cbn [lacks forallb]. rewrite Hx. exact Hw.
      * exact Hrest.
      * exists ws. cbn [split_chr]. now rewrite Hx, Hsplit.
Qed.

(** X19.  The template name is read from the callback data before the
    [try]; the handlers' filters make the index valid.  For data that starts
    with [template_], [split("_")[1]] is the text after the prefix up to the
    next underscore or the end; for data that starts with [photo_template_],
    [split("_")[2]] is.  Neither raises [IndexError]. *)
Theorem template_name_is_in_range (data : pystr) :
  (starts_with (u "template_") data = true ->
   exists template_name rest,
     data = u "template_" ++ template_name ++ rest
     /\ lacks 95 template_name = true
     /\ (rest = [] \/ exists r, rest = 95 :: r)
     /\ Handlers.template_name_of data 1 = Returns template_name)
  /\ (starts_with (u "photo_template_") data = true ->
      exists template_name rest,
        data = u "photo_template_" ++ template_name ++ rest
        /\ lacks 95 template_name = true
        /\ (rest = [] \/ exists r, rest = 95 :: r)
        /\ Handlers.template_name_of data 2 = Returns template_name).
Proof.
  split; intros H; apply starts_with_drop in H;
    match type of H with _ = ?p ++ drop ?n _ =>
      destruct (first_word 95 (drop n data)) as (w & rest & Hs & Hw & Hrest & ws & Hsplit);
      exists w, rest; rewrite <- Hs; (split; [exact H |]); (split; [exact Hw |]);
      (split; [exact Hrest |]); rewrite H; generalize dependent (drop n data)
    end; intros s _ _ Hsplit; unfold Handlers.template_name_of.
  - change (u "template_" ++ s) with (u "template" ++ 95 :: s).
    rewrite split_chr_word by reflexivity. cbn [lookup list_lookup]. now rewrite Hsplit.
  - change (u "photo_template_" ++ s) with (u "photo" ++ 95 :: (u "template" ++ 95 :: s)).
    rewrite !split_chr_word by reflexivity. cbn [lookup list_lookup]. now rewrite Hsplit.
Qed.

Lemma template_name_is_in_range_witness :
  exists template_name rest,
    u "photo_template_dark" = u "photo_template_" ++ template_name ++ rest
    /\ lacks 95 template_name = true
    /\ (rest = [] \/ exists r, rest = 95 :: r)
    /\ Handlers.template_name_of (u "photo_template_dark") 2 = Returns template_name.
Proof.
  apply (proj2 (template_name_is_in_range (u "photo_template_dark"))). reflexivity.
Defined.

(** ** The retry loops *)

Local Open Scope nat_scope.

Lemma extracted_image_nonempty (response : pyval) :
  match ImageGenerator._extract_image_from_response response with
  | Some url => if PyStr.truthy url then Some url else None
  | None => None
  end = ImageGenerator._extract_image_from_response response.
Proof.
  destruct (ImageGenerator._extract_image_from_response response) as [url |] eqn:E;
    [| reflexivity].
  apply extracted_image_starts_with_data in E. now destruct url.
Qed.

Lemma requests_cons_request (t : list event) : requests (Requested :: t) = S (requests t).
Proof. reflexivity. Qed.

Lemma requests_cons_sleep (z : Z) (t : list event) : requests (Slept z :: t) = requests t.
Proof. reflexivity. Qed.

Lemma slept_cons (e : event) (t : list event) : slept (e :: t) = (seconds_of e + slept t)%Z.
Proof. reflexivity. Qed.

Lemma pow2_succ (a : nat) : (2 ^ Z.of_nat (S a) = 2 * 2 ^ Z.of_nat a)%Z.
Proof. rewrite Nat2Z.inj_succ. apply Z.pow_succ_r. lia. Qed.

Lemma pow2_pos (a : nat) : (1 <= 2 ^ Z.of_nat a)%Z.
Proof. assert (0 < 2 ^ Z.of_nat a)%Z by (apply Z.pow_pos_nonneg; lia). lia. Qed.

Lemma pow2_mono (a b : nat) : a <= b -> (2 ^ Z.of_nat a <= 2 ^ Z.of_nat b)%Z.
Proof. intros H. apply Z.pow_le_mono_r; lia. Qed.

Section ImageLoop.

Variable replies : nat -> reply.

(** One round of the loop: on the last round the two tests of
    [attempt == max_retries - 1] change nothing. *)
Lemma chat_attempts_round (attempt todo : nat) :
  attempt + S todo = max_retries ->
  ImageGenerator.chat_attempts replies attempt (S todo) =
    let next := ImageGenerator.chat_attempts replies (S attempt) todo in
    match replies attempt with
    | Json200 result => (ImageGenerator._extract_image_from_response result, [Requested])
    | RateLimited =>
      (fst next, Requested :: Slept (retry_delay * 2 ^ Z.of_nat attempt) :: snd next)
    | TimedOut =>
      (fst next, Requested :: (if attempt <? 2 then [Slept retry_delay] else []) ++ snd next)
    | OtherStatus | Failed => (fst next, Requested :: snd next)
    end.
Proof.
  intros H. cbn [ImageGenerator.chat_attempts]. cbv zeta.
  change (max_retries - 1) with 2. unfold max_retries in H.
  destruct (replies attempt); try reflexivity.
  - destruct (attempt =? 2) eqn:E; [| reflexivity].
    apply Nat.eqb_eq in E. assert (todo = 0) as -> by lia. reflexivity.
  - now destruct (attempt <? 2).
  - destruct (attempt =? 2) eqn:E; [| reflexivity].
    apply Nat.eqb_eq in E. assert (todo = 0) as -> by lia. reflexivity.
Qed.

Lemma chat_attempts_trace (todo : nat) :
  forall attempt, attempt + todo = max_retries ->
    let trace := snd (ImageGenerator.chat_attempts replies attempt todo) in
    requests trace <= todo /\ (todo <> 0 -> 1 <= requests trace)
    /\ (0 <= slept trace <= 2 * (2 ^ Z.of_nat (attempt + todo) - 2 ^ Z.of_nat attempt))%Z.
Proof.
  induction todo as [| todo IH]; intros attempt H.
  - cbn [ImageGenerator.chat_attempts snd]. rewrite Nat.add_0_r. cbv zeta.
    change (requests []) with 0. change (slept []) with 0%Z.
    split; [lia |]. split; [now intros [] | lia].
  - rewrite (chat_attempts_round _ _ H). cbv zeta.
    destruct (IH (S attempt) ltac:(lia)) as (Hr & _ & Hs).
    replace (S attempt + todo) with (attempt + S todo) in Hs by lia.
    pose proof (pow2_succ attempt) as Hp. pose proof (pow2_pos attempt) as Hp1.
    pose proof (pow2_mono (S attempt) (attempt + S todo) ltac:(lia)) as Hm.
    set (next := ImageGenerator.chat_attempts replies (S attempt) todo) in *.
    destruct (replies attempt); cbn [snd]; unfold retry_delay;
      rewrite ?requests_cons_request, ?requests_cons_sleep, ?slept_cons;
      try (destruct (attempt <? 2); cbn [app]);
      rewrite ?requests_cons_request, ?requests_cons_sleep, ?slept_cons;
      cbn [seconds_of]; change (requests []) with 0; change (slept []) with 0%Z;
      (split; [lia |]); (split; [intros _; lia |]); lia.
Qed.

Lemma chat_attempts_none (todo : nat) :
  forall attempt, attempt + todo = max_retries ->
    (forall j, attempt <= j < attempt + todo -> answered (replies j) = false) ->
    fst (ImageGenerator.chat_attempts replies attempt todo) = None
    /\ requests (snd (ImageGenerator.chat_attempts replies attempt todo)) = todo.
Proof.
  induction todo as [| todo IH]; intros attempt H Hnone; [split; reflexivity |].
  rewrite (chat_attempts_round _ _ H). cbv zeta.
  destruct (IH (S attempt) ltac:(lia) ltac:(intros j Hj; apply Hnone; lia)) as [Hf Hr].
  pose proof (Hnone attempt ltac:(lia)) as Ha.
  destruct (replies attempt); try discriminate; cbn [fst snd];
    try (destruct (attempt <? 2); cbn [app]);
    rewrite ?requests_cons_request, ?requests_cons_sleep, Hr; auto.
Qed.

Lemma chat_attempts_first (todo : nat) :
  forall attempt i r, attempt + todo = max_retries ->
    attempt <= i < attempt + todo -> replies i = Json200 r ->
    (forall j, attempt <= j < i -> answered (replies j) = false) ->
    fst (ImageGenerator.chat_attempts replies attempt todo)
      = ImageGenerator._extract_image_from_response r
    /\ requests (snd (ImageGenerator.chat_attempts replies attempt todo)) = S (i - attempt).
Proof.
  induction todo as [| todo IH]; intros attempt i r H Hi Hr Hbefore; [lia |].
  rewrite (chat_attempts_round _ _ H). cbv zeta.
  destruct (Nat.eq_dec i attempt) as [-> | Hne].
  - rewrite Hr. cbn [fst snd]. rewrite Nat.sub_diag. auto.
  - destruct (IH (S attempt) i r ltac:(lia) ltac:(lia) Hr
                ltac:(intros j Hj; apply Hbefore; lia)) as [Hf Hq].
    pose proof (Hbefore attempt ltac:(lia)) as Ha.
    replace (S (i - attempt)) with (S (S (i - S attempt))) by lia.
    destruct (replies attempt); try discriminate; cbn [fst snd];
      try (destruct (attempt <? 2); cbn [app]);
      rewrite ?requests_cons_request, ?requests_cons_sleep, Hq; auto.
Qed.

End ImageLoop.

(** X20.  [generate_product_image] never raises and asks at most three
    times.  Its result is what [_extract_image_from_response] finds in the
    first answer with status 200, even when that is nothing: no request
    follows such an answer.  When none of the three requests is answered
    with status 200 the result is [None].  The loop sleeps 14 seconds at
    most. *)
Theorem image_generation_attempts (replies : nat -> reply) :
  let result := fst (ImageGenerator.generate_product_image replies) in
  let trace := snd (ImageGenerator.generate_product_image replies) in
  (1 <= requests trace <= 3)
  /\ (0 <= slept trace <= 14)%Z
  /\ (forall i r,
        i < 3 -> replies i = Json200 r -> (forall j, j < i -> answered (replies j) = false) ->
        result = ImageGenerator._extract_image_from_response r /\ requests trace = S i)
  /\ ((forall j, j < 3 -> answered (replies j) = false) ->
      result = None /\ requests trace = 3).
Proof.
  unfold ImageGenerator.generate_product_image, ImageGenerator._generate_image_via_chat.
  destruct (chat_attempts_trace replies 3 0 eq_refl) as (Hle & Hge & Hs).
  pose proof (chat_attempts_none replies 3 0 eq_refl) as Hnone.
  pose proof (fun i r => chat_attempts_first replies 3 0 i r eq_refl) as Hfirst.
  unfold max_retries in *.
  destruct (ImageGenerator.chat_attempts replies 0 3) as [image_data trace].
  cbn [fst snd] in *. cbv zeta.
  split; [split; [apply Hge; discriminate | exact Hle] |].
  split; [change (2 * (2 ^ Z.of_nat (0 + 3) - 2 ^ Z.of_nat 0))%Z with 14%Z in Hs; exact Hs |].
  split.
  - intros i r Hi Hr Hbefore.
    destruct (Hfirst i r ltac:(lia) Hr ltac:(intros j Hj; apply Hbefore; lia)) as [-> Hq].
    rewrite extracted_image_nonempty, Nat.sub_0_r in *. auto.
  - intros H. destruct (Hnone ltac:(intros j Hj; apply H; lia)) as [-> Hq]. auto.
Qed.

Lemma image_generation_attempts_witness :
  let replies := fun i : nat =>
    match i with
    | 1 => Json200 (PDict [(u "choices",
                     PList [PDict [(u "message",
                                    PDict [(u "content",
                                            PStr (u "data:image/png;base64,QUJD"))])]])])
    | _ => RateLimited
    end in
  fst (ImageGenerator.generate_product_image replies) = Some (u "data:image/png;base64,QUJD")
  /\ requests (snd (ImageGenerator.generate_product_image replies)) = 2.
Proof.
  intros replies.
  destruct (image_generation_attempts replies) as (_ & _ & H & _).
  destruct (H 1 _ ltac:(lia) eq_refl) as [Hr Hq].
  - intros j Hj. assert (j = 0) as -> by lia. reflexivity.
  - split; [| exact Hq]. rewrite Hr. vm_compute. reflexivity.
Defined.

Section RequestLoop.

Variable replies : nat -> reply.

Lemma request_attempts_trace (todo : nat) :
  forall attempt, attempt + todo = max_retries ->
    let trace := snd (Client.request_attempts replies attempt todo) in
    requests trace <= todo /\ (todo <> 0 -> 1 <= requests trace)
    /\ (0 <= slept trace <= 2 * (2 ^ Z.of_nat (attempt + todo) - 2 ^ Z.of_nat attempt))%Z.
Proof.
  induction todo as [| todo IH]; intros attempt H.
  - cbn [Client.request_attempts snd]. rewrite Nat.add_0_r. cbv zeta.
    change (requests []) with 0. change (slept []) with 0%Z.
    split; [lia |]. split; [now intros [] | lia].
  - cbn [Client.request_attempts]. cbv zeta.
    destruct (IH (S attempt) ltac:(lia)) as (Hr & _ & Hs).
    replace (S attempt + todo) with (attempt + S todo) in Hs by lia.
    pose proof (pow2_succ attempt) as Hp. pose proof (pow2_pos attempt) as Hp1.
    pose proof (pow2_mono (S attempt) (attempt + S todo) ltac:(lia)) as Hm.
    set (next := Client.request_attempts replies (S attempt) todo) in *.
    destruct (replies attempt); try destruct (attempt =? max_retries - 1);
      try destruct (attempt <? max_retries - 1); cbn [snd]; unfold retry_delay;
      rewrite ?requests_cons_request, ?requests_cons_sleep, ?slept_cons;
      rewrite ?requests_cons_request, ?requests_cons_sleep, ?slept_cons;
      cbn [seconds_of]; change (requests []) with 0; change (slept []) with 0%Z;
      (split; [lia |]); (split; [intros _; lia |]); lia.
Qed.

Lemma request_attempts_none (todo : nat) :
  forall attempt, attempt + todo = max_retries ->
    (forall j, attempt <= j < attempt + todo -> answered (replies j) = false) ->
    (exists e, fst (Client.request_attempts replies attempt todo) = Raises e)
    /\ requests (snd (Client.request_attempts replies attempt todo)) = todo.
Proof.
  induction todo as [| todo IH]; intros attempt H Hnone;
    [split; [now eexists | reflexivity] |].
  cbn [Client.request_attempts]. cbv zeta.
  destruct (IH (S attempt) ltac:(lia) ltac:(intros j Hj; apply Hnone; lia)) as [[e Hf] Hr].
  pose proof (Hnone attempt ltac:(lia)) as Ha. unfold max_retries in *.
  destruct (replies attempt); try discriminate;
    try (destruct (attempt =? 3 - 1) eqn:E;
         [apply Nat.eqb_eq in E; assert (todo = 0) as -> by (cbn in E; lia);
          split; [now eexists | reflexivity] |]);
    try destruct (attempt <? 3 - 1); cbn [fst snd];
    rewrite ?requests_cons_request, ?requests_cons_sleep, Hr; (split; [now exists e | reflexivity]).
Qed.

Lemma request_attempts_first (todo : nat) :
  forall attempt i r, attempt + todo = max_retries ->
    attempt <= i < attempt + todo -> replies i = Json200 r ->
    (forall j, attempt <= j < i -> answered (replies j) = false) ->
    fst (Client.request_attempts replies attempt todo) = Returns r
    /\ requests (snd (Client.request_attempts replies attempt todo)) = S (i - attempt).
Proof.
  induction todo as [| todo IH]; intros attempt i r H Hi Hr Hbefore; [lia |].
  cbn [Client.request_attempts]. cbv zeta.
  destruct (Nat.eq_dec i attempt) as [-> | Hne].
  - rewrite Hr. cbn [fst snd]. rewrite Nat.sub_diag. auto.
  - destruct (IH (S attempt) i r ltac:(lia) ltac:(lia) Hr
                ltac:(intros j Hj; apply Hbefore; lia)) as [Hf Hq].
    pose proof (Hbefore attempt ltac:(lia)) as Ha. unfold max_retries in *.
    replace (S (i - attempt)) with (S (S (i - S attempt))) by lia.
    destruct (replies attempt); try discriminate;
      try (destruct (attempt =? 3 - 1) eqn:E;
           [apply Nat.eqb_eq in E; cbn in E; lia |]);
      try destruct (attempt <? 3 - 1); cbn [fst snd];
      rewrite ?requests_cons_request, ?requests_cons_sleep, Hq; auto.
Qed.

End RequestLoop.

(** X21.  [_make_request] asks at most three times and sleeps 14 seconds at
    most.  It returns the JSON of the first answer with status 200, whatever
    went wrong before it: a status that is neither 200 nor 429 is tried again
    like a failed request.  When none of the three requests is answered with
    status 200 it raises. *)
Theorem request_attempts_first_success (replies : nat -> reply) :
  let result := fst (Client._make_request replies) in
  let trace := snd (Client._make_request replies) in
  (1 <= requests trace <= 3)
  /\ (0 <= slept trace <= 14)%Z
  /\ (forall i r,
        i < 3 -> replies i = Json200 r -> (forall j, j < i -> answered (replies j) = false) ->
        result = Returns r /\ requests trace = S i)
  /\ ((forall j, j < 3 -> answered (replies j) = false) ->
      (exists e, result = Raises e) /\ requests trace = 3).
Proof.
  unfold Client._make_request.
  destruct (request_attempts_trace replies 3 0 eq_refl) as (Hle & Hge & Hs).
  pose proof (request_attempts_none replies 3 0 eq_refl) as Hnone.
  pose proof (fun i r => request_attempts_first replies 3 0 i r eq_refl) as Hfirst.
  unfold max_retries in *.
  destruct (Client.request_attempts replies 0 3) as [result trace].
  cbn [fst snd] in *. cbv zeta.
  split; [split; [apply Hge; discriminate | exact Hle] |].
  split; [change (2 * (2 ^ Z.of_nat (0 + 3) - 2 ^ Z.of_nat 0))%Z with 14%Z in Hs; exact Hs |].
  split.
  - intros i r Hi Hr Hbefore.
    destruct (Hfirst i r ltac:(lia) Hr ltac:(intros j Hj; apply Hbefore; lia)) as [-> Hq].
    rewrite Nat.sub_0_r in Hq. auto.
  - intros H. exact (Hnone ltac:(intros j Hj; apply H; lia)).
Qed.

Lemma request_attempts_first_success_witness :
  let replies := fun i : nat =>
    match i with
    | 0 => OtherStatus
    | 1 => TimedOut
    | _ => Json200 (PDict [(u "choices", PList [])])
    end in
  fst (Client._make_request replies) = Returns (PDict [(u "choices", PList [])])
  /\ requests (snd (Client._make_request replies)) = 3.
Proof.
  intros replies.
  destruct (request_attempts_first_success replies) as (_ & _ & H & _).
  apply (H 2 _ ltac:(lia) eq_refl).
  intros j Hj. destruct j as [| [| j]]; [reflexivity | reflexivity | lia].
Defined.

(** X22.  When none of the three requests is answered with status 200, or
    when the answer has no content of a first choice to read, the text
    analyser falls back on the text: [extract_product_info] returns the
    record of [_extract_basic_info], and [analyze_product_image] the empty
    record.  Otherwise the analysers parse the content of the first choice of
    the first answer with status 200. *)
Theorem analysers_over_the_client
    (L : Json.limits) (replies : nat -> reply) (text : pystr) :
  ((forall j, j < 3 -> answered (replies j) = false) ->
   extract_product_info L text (Client.remote_call replies) = Ok (_extract_basic_info text)
   /\ analyze_product_image L (Client.remote_call replies) = Ok empty_info)
  /\ (forall i r,
        i < 3 -> replies i = Json200 r -> (forall j, j < i -> answered (replies j) = false) ->
        (forall e, Client.first_choice_content r = Raises e ->
           extract_product_info L text (Client.remote_call replies)
             = Ok (_extract_basic_info text)
           /\ analyze_product_image L (Client.remote_call replies) = Ok empty_info)
        /\ (forall content, Client.first_choice_content r = Returns content ->
              Client.remote_call replies = AiReturns content)).
Proof.
  pose proof (request_attempts_none replies 3 0 eq_refl) as Hnone.
  pose proof (fun i r => request_attempts_first replies 3 0 i r eq_refl) as Hfirst.
  unfold Client.remote_call, Client.analyze, Client._make_request. unfold max_retries in *.
  split.
  - intros H. destruct (Hnone ltac:(intros j Hj; apply H; lia)) as [[e ->] _].
    cbn [mbind outcome_bind]. split; reflexivity.
  - intros i r Hi Hr Hbefore.
    destruct (Hfirst i r ltac:(lia) Hr ltac:(intros j Hj; apply Hbefore; lia)) as [-> _].
    cbn [mbind outcome_bind]. split.
    + intros e ->. split; reflexivity.
    + now intros content ->.
Qed.

Lemma analysers_over_the_client_witness :
  extract_product_info usual_limits (u "Кеды 3400 руб") (Client.remote_call (fun _ => Failed))
    = Ok (_extract_basic_info (u "Кеды 3400 руб")).
Proof.
  apply (analysers_over_the_client usual_limits (fun _ => Failed) (u "Кеды 3400 руб")).
  reflexivity.
Defined.
